(** * Live balance streaming (LiveBalanceScreen.tsx, services/helius.ts)

    A shallow embedding of the WebSocket streaming logic of the
    [LiveBalanceScreen] component (the variant with keepalive and reconnect)
    and of the helpers of [services/helius.ts] it calls.

    The component is a React function component.  Its [useState] cells, its
    [useRef] cells and the platform objects it drives (sockets, timers, the
    pending balance request) are fields of one explicit [state]; every
    callback of the source is a computation in a small state-and-exception
    monad; the calls the component makes on the platform are appended to a
    trace of [effect]s.  Console output is left out, and so is the unmount
    effect, which calls [cleanupConnection] once when the screen goes. *)

From Stdlib Require Import ZArith QArith List String Ascii Bool Lia.
From Stdlib.Strings Require Import Byte.
From Stdlib Require Import DecimalString.
Import ListNotations.

Local Close Scope Q_scope.
Local Close Scope Z_scope.
Local Open Scope nat_scope.
Local Open Scope string_scope.
Local Open Scope list_scope.

Set Warnings "-register-all".

(** ** JavaScript values *)

(** The values [JSON.parse] can return, and [undefined] (the result of
    reading a property that is not there).  A number is kept as an exact
    rational; an object as its list of properties, the first binding of a
    name being the one a property read returns. *)
Inductive jsval : Type :=
| JUndefined
| JNull
| JBool (b : bool)
| JNum (q : Q)
| JStr (s : string)
| JArr (items : list jsval)
| JObj (props : list (string * jsval)).

Inductive exn : Type :=
| SyntaxError
| TypeError
| InvalidStateError
| Error (message : string).

(** How a JavaScript statement completes: normally, with a value, or by
    throwing. *)
Inductive completion (A : Type) : Type :=
| Ret (a : A)
| Throw (e : exn).
Arguments Ret {A} a.
Arguments Throw {A} e.

(** [if (v)]: ToBoolean. *)
Definition truthy (v : jsval) : bool :=
  match v with
  | JUndefined | JNull => false
  | JBool b => b
  | JNum q => negb (Qeq_bool q 0%Q)
  | JStr s => negb (String.eqb s "")
  | JArr _ | JObj _ => true
  end.

Fixpoint lookup_prop (k : string) (props : list (string * jsval)) : jsval :=
  match props with
  | [] => JUndefined
  | (k', v) :: rest => if String.eqb k k' then v else lookup_prop k rest
  end.

(** Whether the object has a property of its own under the name, whatever
    the value of the property. *)
Definition has_own (k : string) (props : list (string * jsval)) : bool :=
  existsb (fun p => String.eqb k (fst p)) props.

(** [v.k] for the property names the component reads ([id], [result],
    [method], [params], [value], [context], [slot], [lamports]): none of them
    is defined on the prototypes of numbers, strings, booleans or arrays, so
    on those the read gives [undefined]; on [null] and [undefined] it throws
    a TypeError. *)
Definition get_prop (v : jsval) (k : string) : completion jsval :=
  match v with
  | JUndefined | JNull => Throw TypeError
  | JObj props => Ret (lookup_prop k props)
  | JBool _ | JNum _ | JStr _ | JArr _ => Ret JUndefined
  end.

(** [v === n] for a number literal [n]. *)
Definition strict_eq_num (v : jsval) (n : Z) : bool :=
  match v with
  | JNum q => Qeq_bool q (inject_Z n)
  | _ => false
  end.

(** [v === s] for a string literal [s]. *)
Definition strict_eq_str (v : jsval) (s : string) : bool :=
  match v with
  | JStr s' => String.eqb s' s
  | _ => false
  end.

(** [v !== null]. *)
Definition not_null (v : jsval) : bool :=
  match v with
  | JNull => false
  | _ => true
  end.

(** The payload of a socket message event, seen through [JSON.parse]: either
    the text is not JSON (the call throws a SyntaxError) or it denotes a
    value. *)
Inductive payload : Type :=
| Unparseable
| Parsed (data : jsval).

Definition JSON_parse (p : payload) : completion jsval :=
  match p with
  | Unparseable => Throw SyntaxError
  | Parsed data => Ret data
  end.

(** ** services/helius.ts *)

(** [LAMPORTS_PER_SOL] of @solana/web3.js. *)
Definition LAMPORTS_PER_SOL : Z := 1000000000%Z.

(** A JavaScript [number] obtained by a division.  The quotient is an
    IEEE-754 double in the source; it is kept here as its two operands, so
    that nothing is assumed about rounding or about the number a dividend
    that is not a number is converted to. *)
Inductive quotient : Type :=
| Div (dividend : jsval) (divisor : Z).

(** Whether the conversion of the value to a number throws.  It does, a
    TypeError, for an object that has a [toString] property of its own: the
    property is a value [JSON.parse] has made, no function, and neither it
    nor [valueOf] then gives a primitive value.  An array is converted
    through [join], which converts each item but [undefined] and [null] to
    a string, and that throws for the same objects.  Every other value has
    a number: [undefined] and an object without such a property NaN, [null]
    0, a string the number it reads as or NaN. *)
Fixpoint cannot_convert (v : jsval) : bool :=
  match v with
  | JObj props => has_own "toString" props
  | JArr items => existsb cannot_convert items
  | _ => false
  end.

(** [lamports / LAMPORTS_PER_SOL]. *)
Definition lamportsToSol (lamports : jsval) : completion quotient :=
  if cannot_convert lamports then Throw TypeError
  else Ret (Div lamports LAMPORTS_PER_SOL).

(** *** [new PublicKey(address)]

    On a string, the constructor of @solana/web3.js decodes it in base 58
    (bs58) and throws unless the result has [PUBLIC_KEY_LENGTH] = 32 bytes. *)
Definition ALPHABET : string :=
  "123456789ABCDEFGHJKLMNPQRSTUVWXYZabcdefghijkmnopqrstuvwxyz".

Fixpoint index_of (c : ascii) (s : string) : option Z :=
  match s with
  | EmptyString => None
  | String d rest =>
      if Ascii.eqb c d then Some 0%Z else option_map Z.succ (index_of c rest)
  end.

(** Leading ['1'] characters stand for leading zero bytes. *)
Fixpoint leading_ones (s : string) : nat * string :=
  match s with
  | String "1" rest => let (n, r) := leading_ones rest in (S n, r)
  | _ => (O, s)
  end.

Fixpoint base58_value (s : string) (acc : Z) : option Z :=
  match s with
  | EmptyString => Some acc
  | String c rest =>
      match index_of c ALPHABET with
      | Some d => base58_value rest (acc * 58 + d)%Z
      | None => None
      end
  end.

Definition byte_of_Z (z : Z) : byte :=
  match Byte.of_N (Z.to_N z) with
  | Some b => b
  | None => x00
  end.

Fixpoint big_endian (fuel : nat) (n : Z) (acc : list byte) : list byte :=
  match fuel with
  | O => acc
  | S fuel' =>
      if (n =? 0)%Z then acc
      else big_endian fuel' (n / 256)%Z (byte_of_Z (n mod 256)%Z :: acc)
  end.

Definition bs58_decode (s : string) : option (list byte) :=
  let (zeroes, digits) := leading_ones s in
  match base58_value digits 0%Z with
  | Some n => Some (repeat x00 zeroes ++ big_endian (String.length digits) n [])
  | None => None
  end.

Definition PUBLIC_KEY_LENGTH : nat := 32.

Definition new_PublicKey (value : string) : completion (list byte) :=
  match bs58_decode value with
  | Some decoded =>
      if Nat.eqb (List.length decoded) PUBLIC_KEY_LENGTH then Ret decoded
      else Throw (Error "Invalid public key input")
  | None => Throw (Error "Non-base58 character")
  end.

Definition validateSolanaAddress (address : string) : bool :=
  match new_PublicKey address with
  | Ret _ => true
  | Throw _ => false
  end.

(** ** types/index.ts *)

(** [BalanceUpdate].  [slot] is [None] when the object has no [slot]
    property. *)
Record BalanceUpdate : Type := mkBalanceUpdate {
  timestamp : Z;
  balance : quotient;
  lamports : jsval;
  slot : option jsval
}.

(** ** The platform: sockets, timers, requests *)

Inductive readyState : Type := CONNECTING | OPEN | CLOSING | CLOSED.

(** A socket made by [subscribeToAccountUpdates], with what the handlers
    installed on it close over: the [walletAddress] argument, the value the
    [reconnectAttempts] state cell had in the render whose
    [subscribeToAccountUpdates] made the socket, and whether the promise of
    that call is the one [handleStartStreaming] awaits. *)
Record websocket : Type := mkWebSocket {
  ws_readyState : readyState;
  ws_walletAddress : string;
  ws_reconnectAttempts : nat;
  ws_awaited : bool
}.

Inductive timer_status : Type := Pending | Fired | Cleared.

(** A timeout set by [attemptReconnect]; its callback belongs to the same
    render as the [attemptReconnect] that set it. *)
Record timeout : Type := mkTimeout {
  to_reconnectAttempts : nat;
  to_status : timer_status
}.

Inductive request : Type :=
| accountSubscribe (id : Z) (publicKey : list byte)
| accountUnsubscribe (id : Z) (subscription : jsval)
| getHealth (id : Z).

(** The calls the component makes on the platform, in the order it makes
    them.  [eff_send] is a frame handed to an open socket. *)
Inductive effect : Type :=
| eff_alert (title message : string)
| eff_getBalance (address : string)
| eff_new_WebSocket (ws : nat)
| eff_send (ws : nat) (r : request)
| eff_close (ws : nat)
| eff_setTimeout (t : nat) (ms : Z)
| eff_clearTimeout (t : nat)
| eff_setInterval (i : nat) (ms : Z)
| eff_clearInterval (i : nat).

Inductive status : Type := disconnected | connecting | connected.

(** ** The state of the component *)

(** The [useState] cells. *)
Record hooks : Type := mkHooks {
  address : string;
  isStreaming : bool;
  currentBalance : jsval;
  balanceUpdates : list BalanceUpdate;
  isLoading : bool;
  connectionStatus : status;
  reconnectAttempts : nat
}.

(** The [useRef] cells (their [.current]). *)
Record refs : Type := mkRefs {
  subscriptionIdRef : jsval;
  wsRef : option nat;
  pingIntervalRef : option nat;
  reconnectTimeoutRef : option nat;
  currentAddressRef : string;
  isIntentionalCloseRef : bool
}.

(** The platform objects: every socket and timer made so far (a handle is an
    index), the request of [getCurrentBalance] that [handleStartStreaming]
    is suspended on (with the render's [reconnectAttempts], which the rest
    of the function closes over), and the trace. *)
Record world : Type := mkWorld {
  sockets : list websocket;
  timeouts : list timeout;
  intervals : list bool;
  pendingBalance : option (string * nat);
  trace : list effect
}.

Record state : Type := mkState {
  st_hooks : hooks;
  st_refs : refs;
  st_world : world
}.

Definition initial_hooks : hooks :=
  mkHooks "" false JNull [] false disconnected 0.

Definition initial_refs : refs :=
  mkRefs JNull None None None "" false.

Definition initial_world : world :=
  mkWorld [] [] [] None [].

Definition initial_state : state :=
  mkState initial_hooks initial_refs initial_world.

(** ** Callbacks as computations *)

(** A callback runs on the state and either returns or throws; what it did to
    the state before throwing stays done. *)
Definition M (A : Type) : Type := state -> completion A * state.

Definition ret {A : Type} (a : A) : M A := fun s => (Ret a, s).

Definition throw {A : Type} (e : exn) : M A := fun s => (Throw e, s).

Definition lift {A : Type} (c : completion A) : M A := fun s => (c, s).

Definition bind {A B : Type} (m : M A) (k : A -> M B) : M B :=
  fun s =>
    match m s with
    | (Ret a, s') => k a s'
    | (Throw e, s') => (Throw e, s')
    end.

(** [try { body } catch (e) { handler e }]. *)
Definition try_catch {A : Type} (body : M A) (handler : exn -> M A) : M A :=
  fun s =>
    match body s with
    | (Ret a, s') => (Ret a, s')
    | (Throw e, s') => handler e s'
    end.

Definition gets {A : Type} (f : state -> A) : M A := fun s => (Ret (f s), s).

Definition modify (f : state -> state) : M unit := fun s => (Ret tt, f s).

Declare Scope js_scope.
Delimit Scope js_scope with js.
Notation "x <- m ;; k" := (bind m (fun x => k))
  (at level 61, m at next level, right associativity) : js_scope.
Notation "m ;; k" := (bind m (fun _ => k))
  (at level 61, right associativity) : js_scope.
Local Open Scope js_scope.

Definition modify_hooks (f : hooks -> hooks) : M unit :=
  modify (fun s => mkState (f (st_hooks s)) (st_refs s) (st_world s)).

Definition modify_refs (f : refs -> refs) : M unit :=
  modify (fun s => mkState (st_hooks s) (f (st_refs s)) (st_world s)).

Definition modify_world (f : world -> world) : M unit :=
  modify (fun s => mkState (st_hooks s) (st_refs s) (f (st_world s))).

(** *** The setters of the [useState] cells

    Updates are queued and applied in order, so applying each at once gives
    the same cells.  What is not immediate is read access: a callback sees
    the value a cell had in the render that created the callback (see
    [websocket] and [timeout]). *)
Definition setAddress (v : string) : M unit :=
  modify_hooks (fun h =>
    mkHooks v (isStreaming h) (currentBalance h) (balanceUpdates h)
            (isLoading h) (connectionStatus h) (reconnectAttempts h)).

Definition setIsStreaming (v : bool) : M unit :=
  modify_hooks (fun h =>
    mkHooks (address h) v (currentBalance h) (balanceUpdates h)
            (isLoading h) (connectionStatus h) (reconnectAttempts h)).

Definition setCurrentBalance (v : jsval) : M unit :=
  modify_hooks (fun h =>
    mkHooks (address h) (isStreaming h) v (balanceUpdates h)
            (isLoading h) (connectionStatus h) (reconnectAttempts h)).

Definition setBalanceUpdates (f : list BalanceUpdate -> list BalanceUpdate) : M unit :=
  modify_hooks (fun h =>
    mkHooks (address h) (isStreaming h) (currentBalance h) (f (balanceUpdates h))
            (isLoading h) (connectionStatus h) (reconnectAttempts h)).

Definition setIsLoading (v : bool) : M unit :=
  modify_hooks (fun h =>
    mkHooks (address h) (isStreaming h) (currentBalance h) (balanceUpdates h)
            v (connectionStatus h) (reconnectAttempts h)).

Definition setConnectionStatus (v : status) : M unit :=
  modify_hooks (fun h =>
    mkHooks (address h) (isStreaming h) (currentBalance h) (balanceUpdates h)
            (isLoading h) v (reconnectAttempts h)).

Definition setReconnectAttempts (f : nat -> nat) : M unit :=
  modify_hooks (fun h =>
    mkHooks (address h) (isStreaming h) (currentBalance h) (balanceUpdates h)
            (isLoading h) (connectionStatus h) (f (reconnectAttempts h))).

(** *** Assignments to the refs *)
Definition set_subscriptionIdRef (v : jsval) : M unit :=
  modify_refs (fun r =>
    mkRefs v (wsRef r) (pingIntervalRef r) (reconnectTimeoutRef r)
           (currentAddressRef r) (isIntentionalCloseRef r)).

Definition set_wsRef (v : option nat) : M unit :=
  modify_refs (fun r =>
    mkRefs (subscriptionIdRef r) v (pingIntervalRef r) (reconnectTimeoutRef r)
           (currentAddressRef r) (isIntentionalCloseRef r)).

Definition set_pingIntervalRef (v : option nat) : M unit :=
  modify_refs (fun r =>
    mkRefs (subscriptionIdRef r) (wsRef r) v (reconnectTimeoutRef r)
           (currentAddressRef r) (isIntentionalCloseRef r)).

Definition set_reconnectTimeoutRef (v : option nat) : M unit :=
  modify_refs (fun r =>
    mkRefs (subscriptionIdRef r) (wsRef r) (pingIntervalRef r) v
           (currentAddressRef r) (isIntentionalCloseRef r)).

Definition set_currentAddressRef (v : string) : M unit :=
  modify_refs (fun r =>
    mkRefs (subscriptionIdRef r) (wsRef r) (pingIntervalRef r)
           (reconnectTimeoutRef r) v (isIntentionalCloseRef r)).

Definition set_isIntentionalCloseRef (v : bool) : M unit :=
  modify_refs (fun r =>
    mkRefs (subscriptionIdRef r) (wsRef r) (pingIntervalRef r)
           (reconnectTimeoutRef r) (currentAddressRef r) v).

(** *** Platform calls *)
Definition emit (e : effect) : M unit :=
  modify_world (fun w =>
    mkWorld (sockets w) (timeouts w) (intervals w) (pendingBalance w)
            (trace w ++ [e])).

Definition set_sockets (f : list websocket -> list websocket) : M unit :=
  modify_world (fun w =>
    mkWorld (f (sockets w)) (timeouts w) (intervals w) (pendingBalance w)
            (trace w)).

Definition set_timeouts (f : list timeout -> list timeout) : M unit :=
  modify_world (fun w =>
    mkWorld (sockets w) (f (timeouts w)) (intervals w) (pendingBalance w)
            (trace w)).

Definition set_intervals (f : list bool -> list bool) : M unit :=
  modify_world (fun w =>
    mkWorld (sockets w) (timeouts w) (f (intervals w)) (pendingBalance w)
            (trace w)).

Definition set_pendingBalance (v : option (string * nat)) : M unit :=
  modify_world (fun w =>
    mkWorld (sockets w) (timeouts w) (intervals w) v (trace w)).

(** [l[i] = f(l[i])], nothing when [i] is not a handle. *)
Fixpoint update_nth {A : Type} (i : nat) (f : A -> A) (l : list A) : list A :=
  match l, i with
  | [], _ => []
  | x :: rest, O => f x :: rest
  | x :: rest, S i' => x :: update_nth i' f rest
  end.

Definition Alert_alert (title message : string) : M unit :=
  emit (eff_alert title message).

Definition with_readyState (rs : readyState) (sock : websocket) : websocket :=
  mkWebSocket rs (ws_walletAddress sock) (ws_reconnectAttempts sock)
              (ws_awaited sock).

(** [new WebSocket(wsUrl)]: a new socket, connecting. *)
Definition new_WebSocket (walletAddress : string) (attempts : nat)
    (awaited : bool) : M nat :=
  ws <- gets (fun s => List.length (sockets (st_world s))) ;;
  set_sockets (fun l => l ++ [mkWebSocket CONNECTING walletAddress attempts awaited]) ;;
  emit (eff_new_WebSocket ws) ;;
  ret ws.

(** [ws.send(text)]: throws while the socket is connecting, hands the frame
    over when it is open, and drops it once the socket is closing or
    closed. *)
Definition ws_send (ws : nat) (r : request) : M unit :=
  sock <- gets (fun s => nth_error (sockets (st_world s)) ws) ;;
  match sock with
  | Some sock =>
      match ws_readyState sock with
      | CONNECTING => throw InvalidStateError
      | OPEN => emit (eff_send ws r)
      | CLOSING | CLOSED => ret tt
      end
  | None => ret tt
  end.

(** [ws.close()]: starts the closing handshake unless the socket is already
    closing or closed; the close event comes later. *)
Definition closing (sock : websocket) : websocket :=
  match ws_readyState sock with
  | CONNECTING | OPEN => with_readyState CLOSING sock
  | CLOSING | CLOSED => sock
  end.

Definition ws_close (ws : nat) : M unit :=
  emit (eff_close ws) ;;
  set_sockets (update_nth ws closing).

Definition setTimeout (attempts : nat) (ms : Z) : M nat :=
  t <- gets (fun s => List.length (timeouts (st_world s))) ;;
  set_timeouts (fun l => l ++ [mkTimeout attempts Pending]) ;;
  emit (eff_setTimeout t ms) ;;
  ret t.

Definition cleared (t : timeout) : timeout :=
  match to_status t with
  | Pending => mkTimeout (to_reconnectAttempts t) Cleared
  | Fired | Cleared => t
  end.

Definition clearTimeout (t : nat) : M unit :=
  emit (eff_clearTimeout t) ;;
  set_timeouts (update_nth t cleared).

Definition setInterval (ms : Z) : M nat :=
  i <- gets (fun s => List.length (intervals (st_world s))) ;;
  set_intervals (fun l => l ++ [true]) ;;
  emit (eff_setInterval i ms) ;;
  ret i.

Definition clearInterval (i : nat) : M unit :=
  emit (eff_clearInterval i) ;;
  set_intervals (update_nth i (fun _ => false)).

(** ** The component *)

(** [address.trim()] is the empty string: every code unit of [address] is
    white space or a line terminator (code units are bytes here: TAB, LF, VT,
    FF, CR, SP, NBSP). *)
Definition is_white_space (c : ascii) : bool :=
  match nat_of_ascii c with
  | 9 | 10 | 11 | 12 | 13 | 32 | 160 => true
  | _ => false
  end.

Fixpoint trims_to_empty (s : string) : bool :=
  match s with
  | EmptyString => true
  | String c rest => is_white_space c && trims_to_empty rest
  end.

(** [error.message]. *)
Definition message_of (e : exn) : string :=
  match e with
  | Error m => m
  | SyntaxError => "Unexpected token in JSON"
  | TypeError => "Cannot read properties of undefined"
  | InvalidStateError => "INVALID_STATE_ERR"
  end.

(** [a || b] on strings. *)
Definition or_else (a b : string) : string :=
  if String.eqb a "" then b else a.

(** [Math.min(1000 * Math.pow(2, reconnectAttempts), 30000)].  The counter is
    a natural number, and on those the doubles of the source compute the
    product exactly up to the cap. *)
Definition backoffMs (reconnectAttempts : nat) : Z :=
  (Z.min (1000 * 2 ^ Z.of_nat reconnectAttempts) 30000)%Z.

(** What the promise of [subscribeToAccountUpdates] is when the call
    returns: pending on a socket, or already rejected. *)
Inductive promise : Type :=
| pending (ws : nat)
| rejected (e : exn).

Section LiveBalanceScreen.

(** [process.env.EXPO_PUBLIC_HELIUS_API_KEY || ''], read once when the module
    is loaded. *)
Variable HELIUS_API_KEY : string.

Definition getHeliusHttpUrl : M unit :=
  if String.eqb HELIUS_API_KEY "" then
    throw (Error "EXPO_PUBLIC_HELIUS_API_KEY is not set in .env file")
  else ret tt.

Definition getHeliusWsUrl : M unit :=
  if String.eqb HELIUS_API_KEY "" then
    throw (Error "EXPO_PUBLIC_HELIUS_API_KEY is not set in .env file")
  else ret tt.

Definition createConnection : M unit := getHeliusHttpUrl.

(** [getCurrentBalance] up to its [await]: the request is issued and the
    caller is suspended on it. *)
Definition getCurrentBalance (address : string) (attempts : nat) : M unit :=
  _ <- lift (new_PublicKey address) ;;
  emit (eff_getBalance address) ;;
  set_pendingBalance (Some (address, attempts)).

Definition cleanupConnection : M unit :=
  set_isIntentionalCloseRef true ;;
  (i <- gets (fun s => pingIntervalRef (st_refs s)) ;;
   match i with
   | Some i => clearInterval i ;; set_pingIntervalRef None
   | None => ret tt
   end) ;;
  (t <- gets (fun s => reconnectTimeoutRef (st_refs s)) ;;
   match t with
   | Some t => clearTimeout t ;; set_reconnectTimeoutRef None
   | None => ret tt
   end) ;;
  (ws <- gets (fun s => wsRef (st_refs s)) ;;
   match ws with
   | Some ws => ws_close ws ;; set_wsRef None
   | None => ret tt
   end) ;;
  set_subscriptionIdRef JNull.

Definition handleStopStreaming : M unit :=
  set_isIntentionalCloseRef true ;;
  (ws <- gets (fun s => wsRef (st_refs s)) ;;
   sub <- gets (fun s => subscriptionIdRef (st_refs s)) ;;
   match ws with
   | Some ws =>
       if not_null sub then
         try_catch (ws_send ws (accountUnsubscribe 2%Z sub)) (fun _ => ret tt)
       else ret tt
   | None => ret tt
   end) ;;
  cleanupConnection ;;
  setIsStreaming false ;;
  setConnectionStatus disconnected ;;
  setReconnectAttempts (fun _ => 0).

Definition startPingInterval : M unit :=
  (i <- gets (fun s => pingIntervalRef (st_refs s)) ;;
   match i with
   | Some i => clearInterval i
   | None => ret tt
   end) ;;
  i <- setInterval 60000%Z ;;
  set_pingIntervalRef (Some i).

(** The callback of the keepalive interval. *)
Definition keepalive : M unit :=
  ws <- gets (fun s => wsRef (st_refs s)) ;;
  match ws with
  | Some ws =>
      sock <- gets (fun s => nth_error (sockets (st_world s)) ws) ;;
      match option_map ws_readyState sock with
      | Some OPEN => try_catch (ws_send ws (getHealth 999%Z)) (fun _ => ret tt)
      | _ => ret tt
      end
  | None => ret tt
  end.

(** [subscribeToAccountUpdates(walletAddress)] up to the return of the
    promise.  [attempts] is the [reconnectAttempts] of the render the
    function belongs to; [awaited] tells whether the caller is
    [handleStartStreaming]. *)
Definition subscribeToAccountUpdates (attempts : nat) (walletAddress : string)
    (awaited : bool) : M promise :=
  try_catch
    (getHeliusWsUrl ;;
     ws <- new_WebSocket walletAddress attempts awaited ;;
     set_wsRef (Some ws) ;;
     setConnectionStatus connecting ;;
     ret (pending ws))
    (fun error => ret (rejected error)).

(** [handleStartStreaming] after [await subscribeToAccountUpdates(address)]
    has resolved, with its [finally]. *)
Definition start_succeeded : M unit :=
  setIsStreaming true ;;
  setIsLoading false.

(** The [catch] and [finally] of [handleStartStreaming]. *)
Definition start_failed (error : exn) : M unit :=
  Alert_alert "Error" (or_else (message_of error) "Failed to start streaming") ;;
  setIsLoading false.

Definition onopen (ws : nat) (sock : websocket) : M unit :=
  setConnectionStatus connected ;;
  setReconnectAttempts (fun _ => 0) ;;
  startPingInterval ;;
  publicKey <- lift (new_PublicKey (ws_walletAddress sock)) ;;
  ws_send ws (accountSubscribe 1%Z publicKey) ;;
  (* resolve() *)
  if ws_awaited sock then start_succeeded else ret tt.

Definition onmessage (event_data : payload) (now : Z) : M unit :=
  data <- lift (JSON_parse event_data) ;;
  id <- lift (get_prop data "id") ;;
  confirmation <-
    (if strict_eq_num id 1%Z then
       result <- lift (get_prop data "result") ;; ret (truthy result)
     else ret false) ;;
  if confirmation then
    result <- lift (get_prop data "result") ;;
    set_subscriptionIdRef result
  else
    id <- lift (get_prop data "id") ;;
    if strict_eq_num id 999%Z then ret tt
    else
      method <- lift (get_prop data "method") ;;
      if strict_eq_str method "accountNotification" then
        params <- lift (get_prop data "params") ;;
        result <- lift (get_prop params "result") ;;
        accountInfo <- lift (get_prop result "value") ;;
        params <- lift (get_prop data "params") ;;
        result <- lift (get_prop params "result") ;;
        context <- lift (get_prop result "context") ;;
        slot <- lift (get_prop context "slot") ;;
        if truthy accountInfo then
          lamports <- lift (get_prop accountInfo "lamports") ;;
          sol <- lift (lamportsToSol lamports) ;;
          setCurrentBalance lamports ;;
          setBalanceUpdates (fun prev =>
            prev ++ [mkBalanceUpdate now sol lamports (Some slot)])
        else ret tt
      else ret tt.

Definition onerror : M unit :=
  setConnectionStatus disconnected.

(** [attemptReconnect] of the render in which [reconnectAttempts] was
    [attempts]. *)
Definition attemptReconnect (attempts : nat) : M unit :=
  intentional <- gets (fun s => isIntentionalCloseRef (st_refs s)) ;;
  if intentional then ret tt
  else
    let backoff := backoffMs attempts in
    setConnectionStatus connecting ;;
    setReconnectAttempts (fun prev => prev + 1) ;;
    t <- setTimeout attempts backoff ;;
    set_reconnectTimeoutRef (Some t).

Definition onclose (sock : websocket) : M unit :=
  setConnectionStatus disconnected ;;
  (i <- gets (fun s => pingIntervalRef (st_refs s)) ;;
   match i with
   | Some i => clearInterval i ;; set_pingIntervalRef None
   | None => ret tt
   end) ;;
  intentional <- gets (fun s => isIntentionalCloseRef (st_refs s)) ;;
  if negb intentional then attemptReconnect (ws_reconnectAttempts sock)
  else ret tt.

(** The callback of the timeout set by [attemptReconnect]. *)
Definition reconnect (attempts : nat) : M unit :=
  currentAddress <- gets (fun s => currentAddressRef (st_refs s)) ;;
  intentional <- gets (fun s => isIntentionalCloseRef (st_refs s)) ;;
  if negb (String.eqb currentAddress "") && negb intentional then
    _ <- subscribeToAccountUpdates attempts currentAddress false ;;
    ret tt
  else ret tt.

(** [handleStartStreaming] up to its first [await]. *)
Definition handleStartStreaming : M unit :=
  address <- gets (fun s => address (st_hooks s)) ;;
  attempts <- gets (fun s => reconnectAttempts (st_hooks s)) ;;
  if trims_to_empty address then
    Alert_alert "Error" "Please enter a Solana address"
  else if negb (validateSolanaAddress address) then
    Alert_alert "Error" "Invalid Solana address"
  else
    setIsLoading true ;;
    setBalanceUpdates (fun _ => []) ;;
    setReconnectAttempts (fun _ => 0) ;;
    set_isIntentionalCloseRef false ;;
    set_currentAddressRef address ;;
    try_catch
      (createConnection ;;
       getCurrentBalance address attempts)
      start_failed.

(** [handleStartStreaming] from the moment [getCurrentBalance] has returned
    [initialBalance] up to [await subscribeToAccountUpdates(address)]. *)
Definition handleStartStreaming_resumed (address : string) (attempts : nat)
    (initialBalance : Z) (now : Z) : M unit :=
  try_catch
    (let initialBalance := JNum (inject_Z initialBalance) in
     setCurrentBalance initialBalance ;;
     sol <- lift (lamportsToSol initialBalance) ;;
     setBalanceUpdates (fun _ => [mkBalanceUpdate now sol initialBalance None]) ;;
     p <- subscribeToAccountUpdates attempts address true ;;
     match p with
     | pending _ => ret tt
     | rejected error => throw error
     end)
    start_failed.

(** ** Events *)

(** What happens to the component: the user types or taps, the balance
    request settles, a socket or a timer fires. *)
Inductive event : Type :=
| onChangeText (text : string)
| press_start
| press_stop
| balance_resolved (lamports : Z) (now : Z)
| balance_rejected (message : string)
| ws_onopen (ws : nat)
| ws_onmessage (ws : nat) (data : payload) (now : Z)
| ws_onerror (ws : nat)
| ws_onclose (ws : nat)
| timeout_fires (t : nat)
| interval_fires (i : nat).

Definition socket (s : state) (ws : nat) : option websocket :=
  nth_error (sockets (st_world s)) ws.

(** Whether the event can happen in the state: the input is editable and the
    Start button shown while not streaming, the Start button disabled while
    loading; a socket opens once, delivers messages while open, and closes
    once; a timeout fires once unless cleared, an interval until cleared. *)
Definition enabled (s : state) (e : event) : bool :=
  match e with
  | onChangeText _ => negb (isStreaming (st_hooks s))
  | press_start => negb (isStreaming (st_hooks s)) && negb (isLoading (st_hooks s))
  | press_stop => isStreaming (st_hooks s)
  | balance_resolved _ _ | balance_rejected _ =>
      match pendingBalance (st_world s) with Some _ => true | None => false end
  | ws_onopen ws =>
      match option_map ws_readyState (socket s ws) with
      | Some CONNECTING => true
      | _ => false
      end
  | ws_onmessage ws _ _ =>
      match option_map ws_readyState (socket s ws) with
      | Some OPEN => true
      | _ => false
      end
  | ws_onerror ws | ws_onclose ws =>
      match option_map ws_readyState (socket s ws) with
      | Some CLOSED | None => false
      | Some _ => true
      end
  | timeout_fires t =>
      match option_map to_status (nth_error (timeouts (st_world s)) t) with
      | Some Pending => true
      | _ => false
      end
  | interval_fires i =>
      match nth_error (intervals (st_world s)) i with
      | Some true => true
      | _ => false
      end
  end.

(** The callback the event runs, after what the platform does itself (the
    socket changes its ready state, the timeout is spent, the request is no
    longer pending). *)
Definition dispatch (e : event) : M unit :=
  match e with
  | onChangeText text => setAddress text
  | press_start => handleStartStreaming
  | press_stop => handleStopStreaming
  | balance_resolved lamports now =>
      p <- gets (fun s => pendingBalance (st_world s)) ;;
      set_pendingBalance None ;;
      match p with
      | Some (address, attempts) =>
          handleStartStreaming_resumed address attempts lamports now
      | None => ret tt
      end
  | balance_rejected message =>
      set_pendingBalance None ;;
      start_failed (Error message)
  | ws_onopen ws =>
      set_sockets (update_nth ws (with_readyState OPEN)) ;;
      sock <- gets (fun s => socket s ws) ;;
      match sock with
      | Some sock => onopen ws sock
      | None => ret tt
      end
  | ws_onmessage ws data now => onmessage data now
  | ws_onerror ws => onerror
  | ws_onclose ws =>
      set_sockets (update_nth ws (with_readyState CLOSED)) ;;
      sock <- gets (fun s => socket s ws) ;;
      match sock with
      | Some sock => onclose sock
      | None => ret tt
      end
  | timeout_fires t =>
      tm <- gets (fun s => nth_error (timeouts (st_world s)) t) ;;
      set_timeouts (update_nth t (fun tm => mkTimeout (to_reconnectAttempts tm) Fired)) ;;
      match tm with
      | Some tm => reconnect (to_reconnectAttempts tm)
      | None => ret tt
      end
  | interval_fires i => keepalive
  end.

(** One turn of the event loop.  An event that cannot happen changes
    nothing. *)
Definition step (e : event) : M unit :=
  fun s => if enabled s e then dispatch e s else (Ret tt, s).

(** An exception that leaves a callback ends that callback only. *)
Definition exec (s : state) (e : event) : state := snd (step e s).

Definition run (s : state) (es : list event) : state := fold_left exec es s.

(** Every event of the list could happen when its turn came. *)
Fixpoint feasible (s : state) (es : list event) : bool :=
  match es with
  | [] => true
  | e :: rest => enabled s e && feasible (exec s e) rest
  end.

End LiveBalanceScreen.

(** * Vocabulary of the statements *)

(** [v.k1.k2...]: the reads are made in order and the first one that throws
    ends the expression. *)
Fixpoint get_path (v : jsval) (path : list string) : completion jsval :=
  match path with
  | [] => Ret v
  | k :: rest =>
      match get_prop v k with
      | Ret v' => get_path v' rest
      | Throw e => Throw e
      end
  end.

(** The state after the message handler has stored a subscription id. *)
Definition confirmed_state (result : jsval) (s : state) : state :=
  snd (set_subscriptionIdRef result s).

(** The state after the message handler has recorded a balance. *)
Definition updated_state (now : Z) (lamports slot : jsval) (s : state) : state :=
  snd ((setCurrentBalance lamports ;;
        setBalanceUpdates (fun prev =>
          prev ++ [mkBalanceUpdate now (Div lamports LAMPORTS_PER_SOL) lamports
                     (Some slot)])) s).

(** The four things the message handler can do. *)
Inductive onmessage_outcome (p : payload) (now : Z) (s : state)
  : completion unit * state -> Prop :=
| om_throws (e : exn) :
    onmessage_outcome p now s (Throw e, s)
| om_ignored :
    onmessage_outcome p now s (Ret tt, s)
| om_confirmation (data result : jsval) :
    p = Parsed data ->
    get_prop data "result" = Ret result ->
    truthy result = true ->
    onmessage_outcome p now s (Ret tt, confirmed_state result s)
| om_notification (data accountInfo lamports slot : jsval) :
    p = Parsed data ->
    get_prop data "method" = Ret (JStr "accountNotification") ->
    get_path data ["params"; "result"; "value"] = Ret accountInfo ->
    truthy accountInfo = true ->
    get_prop accountInfo "lamports" = Ret lamports ->
    get_path data ["params"; "result"; "context"; "slot"] = Ret slot ->
    onmessage_outcome p now s (Ret tt, updated_state now lamports slot s).

(** A payload the handler cannot read: text that is not JSON, the JSON
    [null], or an account notification (a message without [id] whose
    [method] is [accountNotification]) in which [params], [params.result] or
    [params.result.context] is missing or null. *)
Definition unreadable (p : payload) : Prop :=
  match p with
  | Unparseable => True
  | Parsed data =>
      data = JNull \/
      (get_prop data "id" = Ret JUndefined /\
       get_prop data "method" = Ret (JStr "accountNotification") /\
       get_path data ["params"; "result"; "context"; "slot"] = Throw TypeError)
  end.

(** [AccountInfo] and [WebSocketAccountUpdate] of types/index.ts, and the
    JSON value a notification is on the wire. *)
Record AccountInfo : Type := mkAccountInfo {
  info_lamports : Z;
  info_owner : string;
  info_executable : bool;
  info_rentEpoch : Z;
  info_data : string
}.

Record WebSocketAccountUpdate : Type := mkAccountUpdate {
  update_slot : Z;
  update_value : option AccountInfo;
  update_subscription : Z
}.

Definition json_of_AccountInfo (a : AccountInfo) : jsval :=
  JObj [("lamports", JNum (inject_Z (info_lamports a)));
        ("owner", JStr (info_owner a));
        ("executable", JBool (info_executable a));
        ("rentEpoch", JNum (inject_Z (info_rentEpoch a)));
        ("data", JStr (info_data a))].

Definition json_of_update (u : WebSocketAccountUpdate) : jsval :=
  JObj [("jsonrpc", JStr "2.0");
        ("method", JStr "accountNotification");
        ("params",
         JObj [("result",
                JObj [("context", JObj [("slot", JNum (inject_Z (update_slot u)))]);
                      ("value",
                       match update_value u with
                       | Some a => json_of_AccountInfo a
                       | None => JNull
                       end)]);
               ("subscription", JNum (inject_Z (update_subscription u)))])].

(** A notification that carries an account, as the transport delivers it on
    socket [ws] at time [now]. *)
Definition notification (ws : nat) (subscription : Z)
    (n : Z * AccountInfo * Z) : event :=
  let '(slot, account, now) := n in
  ws_onmessage ws (Parsed (json_of_update (mkAccountUpdate slot (Some account) subscription))) now.

(** The record the consumer is to see for it. *)
Definition update_of (n : Z * AccountInfo * Z) : BalanceUpdate :=
  let '(slot, account, now) := n in
  let lamports := JNum (inject_Z (info_lamports account)) in
  mkBalanceUpdate now (Div lamports LAMPORTS_PER_SOL) lamports
    (Some (JNum (inject_Z slot))).

(** The seed record of [handleStartStreaming]. *)
Definition seed_update (initialBalance now : Z) : BalanceUpdate :=
  let lamports := JNum (inject_Z initialBalance) in
  mkBalanceUpdate now (Div lamports LAMPORTS_PER_SOL) lamports None.

(** [balance] is the quotient of [lamports] by 10^9. *)
Definition coherent (u : BalanceUpdate) : Prop :=
  balance u = Div (lamports u) (10 ^ 9)%Z.

(** The delays of the timeouts set along a trace. *)
Fixpoint delays (tr : list effect) : list Z :=
  match tr with
  | [] => []
  | eff_setTimeout _ ms :: rest => ms :: delays rest
  | _ :: rest => delays rest
  end.

(** The subscribe requests sent along a trace, with the socket of each. *)
Fixpoint subscribes (tr : list effect) : list nat :=
  match tr with
  | [] => []
  | eff_send ws (accountSubscribe _ _) :: rest => ws :: subscribes rest
  | _ :: rest => subscribes rest
  end.

(** The alerts shown along a trace. *)
Fixpoint shown_alerts (tr : list effect) : list (string * string) :=
  match tr with
  | [] => []
  | eff_alert title message :: rest => (title, message) :: shown_alerts rest
  | _ :: rest => shown_alerts rest
  end.

(** A start that nothing can end any more: the button is loading, the
    balance request has returned, every socket a start has awaited is
    closed, and no alert has been shown. *)
Definition start_pending (s : state) : Prop :=
  isLoading (st_hooks s) = true
  /\ isStreaming (st_hooks s) = false
  /\ pendingBalance (st_world s) = None
  /\ Forall (fun sock => ws_awaited sock = true -> ws_readyState sock = CLOSED)
            (sockets (st_world s))
  /\ shown_alerts (trace (st_world s)) = [].

(** [m] keeps [P]. *)
Definition preserves {A : Type} (P : state -> Prop) (m : M A) : Prop :=
  forall s, P s -> P (snd (m s)).

(** The address of the System Program, a valid public key. *)
Definition SYSTEM_PROGRAM : string := "11111111111111111111111111111111".

(** A property of the history alone. *)
Definition on_history (Q : list BalanceUpdate -> Prop) (s : state) : Prop :=
  Q (balanceUpdates (st_hooks s)).

(** The intentional-close flag is set, nothing is awaited from the balance
    request, and the sockets and timeouts made so far are [n] and [m]. *)
Definition stopped (n m : nat) (s : state) : Prop :=
  isIntentionalCloseRef (st_refs s) = true
  /\ pendingBalance (st_world s) = None
  /\ List.length (sockets (st_world s)) = n
  /\ List.length (timeouts (st_world s)) = m.

(** *** Example runs

    The user types the address of the System Program and starts a stream on
    a balance of one SOL; the socket opens. *)
Definition API_KEY : string := "api-key".

Definition one_sol : Z := 1000000000%Z.

Definition start_events : list event :=
  [onChangeText SYSTEM_PROGRAM; press_start; balance_resolved one_sol 1%Z;
   ws_onopen 0].

Definition streaming : state := run API_KEY initial_state start_events.

(** The socket of a start fails before it has opened: error, then close. *)
Definition connection_refused : list event :=
  [onChangeText SYSTEM_PROGRAM; press_start; balance_resolved one_sol 1%Z;
   ws_onerror 0; ws_onclose 0].

(** The reconnect timeout set by that close fires, and its socket opens. *)
Definition reconnected : list event := [timeout_fires 0; ws_onopen 1].

(** Stop, then Start again before the close event of the first socket has
    come; the balance request of the second start fails; then the close
    event comes, its timeout fires, and the socket of the reconnect
    opens. *)
Definition failed_restart : list event :=
  start_events
  ++ [press_stop; press_start; balance_rejected "fetch failed"; ws_onclose 0;
      timeout_fires 0; ws_onopen 1].

(** The stream is dropped and the next two connections fail. *)
Definition three_closes : list event :=
  start_events
  ++ [ws_onclose 0; timeout_fires 0; ws_onclose 1; timeout_fires 1;
      ws_onclose 2].

(** Stop, then Start again before the close event of the first socket has
    come; that event sets a reconnect timeout, which fires while the balance
    request of the second start is still out; the socket of the second start
    opens, and the user stops. *)
Definition restart_then_stop : list event :=
  start_events
  ++ [press_stop; press_start; ws_onclose 0; timeout_fires 0;
      balance_resolved one_sol 2%Z; ws_onopen 2; press_stop].

(** A notification without [params]. *)
Definition notification_without_params : jsval :=
  JObj [("jsonrpc", JStr "2.0"); ("method", JStr "accountNotification")].

(** A notification whose account has no [lamports]. *)
Definition notification_without_lamports : jsval :=
  JObj [("jsonrpc", JStr "2.0");
        ("method", JStr "accountNotification");
        ("params",
         JObj [("result",
                JObj [("context", JObj [("slot", JNum (inject_Z 100))]);
                      ("value", JObj [("owner", JStr SYSTEM_PROGRAM)])]);
               ("subscription", JNum (inject_Z 7))])].

(** The scenario of the specification: seed of one SOL, subscription
    confirmed with id 7, a notification of 1.5 SOL at slot 100, the socket
    drops, the reconnection succeeds. *)
Definition confirmation (subscription : Z) : jsval :=
  JObj [("jsonrpc", JStr "2.0"); ("result", JNum (inject_Z subscription));
        ("id", JNum (inject_Z 1))].

Definition account (lamports : Z) : AccountInfo :=
  mkAccountInfo lamports SYSTEM_PROGRAM false 0%Z "".

Definition scenario : list event :=
  start_events
  ++ [ws_onmessage 0 (Parsed (confirmation 7)) 2%Z;
      notification 0 7%Z (100%Z, account 1500000000, 3%Z);
      ws_onclose 0; timeout_fires 0; ws_onopen 1].

(** * The rest of the application

    What the screen renders and the history component; the earlier version
    of the screen, without keepalive and reconnect; the other requests of
    [services/helius.ts]; and the three other screens that use them: network
    health, transaction history, and the polling screen.

    An [async] function is cut at its [await]s as above: one definition runs
    it up to the [await], one ([_resumed]) from the moment the awaited call
    has returned, one ([_rejected]) from the moment it has thrown.  Where a
    screen has no exception to track, its callbacks are plain functions on a
    record of its cells and refs. *)

(** ** The rest of the screen *)

(** [`${n}`] for a counter. *)
Definition string_of_nat (n : nat) : string :=
  NilEmpty.string_of_uint (Nat.to_uint n).

Definition getStatusColor (connectionStatus : status) : string :=
  match connectionStatus with
  | connected => "#10b981"
  | connecting => "#f59e0b"
  | disconnected => "#ef4444"
  end.

Definition getStatusText (connectionStatus : status) (reconnectAttempts : nat)
    : string :=
  match connectionStatus with
  | connected =>
      if Nat.ltb 0 reconnectAttempts then
        ("Connected (recovered from " ++ string_of_nat reconnectAttempts
         ++ " attempts)")%string
      else "Connected"
  | connecting =>
      if Nat.ltb 0 reconnectAttempts then
        ("Reconnecting (attempt " ++ string_of_nat reconnectAttempts
         ++ ")...")%string
      else "Connecting..."
  | disconnected => "Disconnected"
  end.

(** ** components/BalanceHistory.tsx *)

Definition and_then {A B : Type} (c : completion A) (k : A -> completion B)
    : completion B :=
  match c with
  | Ret a => k a
  | Throw e => Throw e
  end.

(** Whether [v.toLocaleString()] returns.  On [undefined] and [null] reading
    the method is a TypeError.  A number, a string and a boolean have the
    method of their prototype, which returns.  An object has what it holds
    under [toLocaleString], or else [Object.prototype.toLocaleString], which
    calls what the object has under [toString]: a property of its own is a
    value that [JSON.parse] has made, no function, and calling it is a
    TypeError; without one the method of the prototype returns.  An array
    calls the method on each of its items but [undefined] and [null]. *)
Fixpoint toLocaleString_returns (v : jsval) : bool :=
  match v with
  | JUndefined | JNull => false
  | JBool _ | JNum _ | JStr _ => true
  | JArr items =>
      forallb (fun item =>
                 match item with
                 | JUndefined | JNull => true
                 | _ => toLocaleString_returns item
                 end) items
  | JObj props =>
      negb (has_own "toLocaleString" props) && negb (has_own "toString" props)
  end.

(** [v.toLocaleString()], for its outcome; the text it makes is not kept. *)
Definition toLocaleString (v : jsval) : completion unit :=
  if toLocaleString_returns v then Ret tt else Throw TypeError.

(** [update.slot && <Text>Slot: {update.slot}</Text>]: the text element when
    the slot is truthy, else the slot itself, which then is the child of the
    row's header ([undefined] when the record has no slot, and also [0],
    [null], [false], the empty string). *)
Inductive slot_child : Type :=
| bare (slot : jsval)
| slot_text (slot : jsval).

Definition shown_slot (slot : option jsval) : slot_child :=
  match slot with
  | Some v => if truthy v then slot_text v else bare v
  | None => bare JUndefined
  end.

(** One row of the list: its key ([`${update.timestamp}-${index}`], kept as
    the pair), and what it shows of the update. *)
Record history_row : Type := mkRow {
  row_key : Z * nat;
  row_timestamp : Z;
  row_slot : slot_child;
  row_balance : quotient;
  row_lamports : jsval
}.

(** One row of [.map((update, index) => ...)]; the call
    [update.lamports.toLocaleString()] is the one expression of it that can
    throw. *)
Definition row (index : nat) (update : BalanceUpdate) : completion history_row :=
  and_then (toLocaleString (lamports update)) (fun _ =>
  Ret (mkRow (timestamp update, index) (timestamp update)
             (shown_slot (slot update)) (balance update) (lamports update))).

(** [.map((update, index) => ...)]. *)
Fixpoint rows_from (index : nat) (updates : list BalanceUpdate)
    : completion (list history_row) :=
  match updates with
  | [] => Ret []
  | update :: rest =>
      and_then (row index update) (fun first =>
      and_then (rows_from (S index) rest) (fun others =>
      Ret (first :: others)))
  end.

(** The call of the component function: the rows of the element it returns,
    from top to bottom, or [None] for the "No balance updates yet"
    placeholder; or the exception it throws. *)
Definition BalanceHistory (updates : list BalanceUpdate)
    : completion (option (list history_row)) :=
  if Nat.eqb (List.length updates) 0 then Ret None
  else and_then (rows_from 0 (rev updates)) (fun rows => Ret (Some rows)).

(** React's check of a value that is the child of an element.  It takes a
    string or a number for a text, [undefined], [null] and the booleans for
    nothing, an array for its items in turn; an object it refuses ("Objects
    are not valid as a React child"), and the render ends there.  What the
    native view then does with a text that is not inside a [Text] (the bare
    [0]) is the platform's and is not part of the check. *)
Fixpoint valid_child (v : jsval) : bool :=
  match v with
  | JObj _ => false
  | JArr items => forallb valid_child items
  | _ => true
  end.

(** Whether the rows the component has returned pass that check: the slot
    is the one child of a row that is a value of the record itself. *)
Definition row_children_valid (r : history_row) : bool :=
  match row_slot r with
  | bare v | slot_text v => valid_child v
  end.

Definition children_valid (rows : list history_row) : bool :=
  forallb row_children_valid rows.

(** ** What the screen renders *)

(** The status line (colour and text), there while streaming; the balance
    card (SOL and lamports), there when [currentBalance !== null]; the
    history.  In the card [lamportsToSol(currentBalance).toFixed(9)] comes
    before [currentBalance.toLocaleString()]. *)
Record view : Type := mkView {
  status_line : option (string * string);
  balance_card : option (quotient * jsval);
  history : option (list history_row)
}.

Definition render (s : state) : completion view :=
  let h := st_hooks s in
  let status :=
    if isStreaming h then
      Some (getStatusColor (connectionStatus h),
            getStatusText (connectionStatus h) (reconnectAttempts h))
    else None in
  and_then
    (if not_null (currentBalance h) then
       and_then (lamportsToSol (currentBalance h)) (fun sol =>
       and_then (toLocaleString (currentBalance h)) (fun _ =>
       Ret (Some (sol, currentBalance h))))
     else Ret None) (fun card =>
  and_then (BalanceHistory (balanceUpdates h)) (fun rows =>
  Ret (mkView status card rows))).

(** *** Vocabulary *)

(** When the status is connected the attempt counter is 0. *)
Definition settled (s : state) : Prop :=
  connectionStatus (st_hooks s) = connected -> reconnectAttempts (st_hooks s) = 0.

(** No keepalive interval runs but the one [pingIntervalRef] holds. *)
Definition one_keepalive (s : state) : Prop :=
  forall i, nth_error (intervals (st_world s)) i = Some true ->
            pingIntervalRef (st_refs s) = Some i.

(** The current balance is the [lamports] of the newest record. *)
Definition card_matches (s : state) : Prop :=
  match rev (balanceUpdates (st_hooks s)) with
  | [] => True
  | newest :: _ => currentBalance (st_hooks s) = lamports newest
  end.

(** Every address a socket is, or is about to be, made for has passed
    [validateSolanaAddress]. *)
Definition addresses_valid (s : state) : Prop :=
  Forall (fun sock => validateSolanaAddress (ws_walletAddress sock) = true)
         (sockets (st_world s))
  /\ (currentAddressRef (st_refs s) = ""
      \/ validateSolanaAddress (currentAddressRef (st_refs s)) = true)
  /\ (forall address attempts,
         pendingBalance (st_world s) = Some (address, attempts) ->
         validateSolanaAddress address = true).

(** The sockets that have sent a subscribe request exist and are past
    connecting, no one has sent two. *)
Definition subscribed_once (s : state) : Prop :=
  NoDup (subscribes (trace (st_world s)))
  /\ forall ws, In ws (subscribes (trace (st_world s))) ->
       exists sock, socket s ws = Some sock /\ ws_readyState sock <> CONNECTING.

(** The platform calls [handleStopStreaming] makes, in order. *)
Definition stop_calls (s : state) : list effect :=
  match wsRef (st_refs s) with
  | Some ws =>
      if not_null (subscriptionIdRef (st_refs s)) then
        match option_map ws_readyState (socket s ws) with
        | Some OPEN => [eff_send ws (accountUnsubscribe 2 (subscriptionIdRef (st_refs s)))]
        | _ => []
        end
      else []
  | None => []
  end
  ++ match pingIntervalRef (st_refs s) with
     | Some i => [eff_clearInterval i]
     | None => []
     end
  ++ match reconnectTimeoutRef (st_refs s) with
     | Some t => [eff_clearTimeout t]
     | None => []
     end
  ++ match wsRef (st_refs s) with
     | Some ws => [eff_close ws]
     | None => []
     end.

(** ** services/helius.ts: the answers of the RPC endpoint *)

(** [a || b]. *)
Definition js_or (a b : jsval) : jsval := if truthy a then a else b.

Section Answers.

(** [String(v)], the conversion [new Error(v)] applies to its argument; on a
    string it is the string itself ([ToString_string] where that matters). *)
Variable ToString : jsval -> string.

(** [getTransactionsForAddress] from the moment [response.json()] has
    returned [data]. *)
Definition getTransactionsForAddress_resumed (data : jsval) : completion jsval :=
  match get_prop data "error" with
  | Throw e => Throw e
  | Ret error =>
      if truthy error then
        match get_prop error "message" with
        | Throw e => Throw e
        | Ret message =>
            Throw (Error (ToString (js_or message (JStr "Failed to fetch transactions"))))
        end
      else
        match get_prop data "result" with
        | Throw e => Throw e
        | Ret result => Ret (js_or result (JArr []))
        end
  end.

End Answers.

(** [getNetworkHealth], [getRecentPerformanceSamples] and [getSolanaVersion]
    from the moment [response.json()] has returned [data]. *)
Definition getNetworkHealth_resumed (data : jsval) : completion jsval :=
  match get_prop data "result" with
  | Throw e => Throw e
  | Ret result => Ret (js_or result (JStr "ok"))
  end.

Definition getRecentPerformanceSamples_resumed (data : jsval) : completion jsval :=
  match get_prop data "result" with
  | Throw e => Throw e
  | Ret result => Ret (js_or result (JArr []))
  end.

Definition unknown_version : jsval :=
  JObj [("solana-core", JStr "unknown"); ("feature-set", JNum (inject_Z 0))].

Definition getSolanaVersion_resumed (data : jsval) : completion jsval :=
  match get_prop data "result" with
  | Throw e => Throw e
  | Ret result => Ret (js_or result unknown_version)
  end.

(** ** screens/NetworkHealthScreen.tsx *)

Module NetworkHealth.

(** The five [useState] cells a refresh writes, and the two flags. *)
Record screen : Type := mkScreen {
  health : jsval;
  blockHeight : jsval;
  epochInfo : jsval;
  performanceSamples : jsval;
  version : jsval;
  isLoading : bool;
  isRefreshing : bool;
  lastUpdate : Z
}.

Definition mounted (now : Z) : screen :=
  mkScreen (JStr "") (JNum (inject_Z 0)) JNull (JArr []) JNull true false now.

(** What came back for the five requests of one refresh: the bodies of the
    three requests the service parses itself, and what the two calls on the
    connection returned; [Throw] is a request that failed. *)
Record round : Type := mkRound {
  health_body : completion jsval;
  height : completion jsval;
  epoch : completion jsval;
  samples_body : completion jsval;
  version_body : completion jsval
}.

Section Screen.

Variable HELIUS_API_KEY : string.

(** [await Promise.all([...])]: the five values, or a rejection as soon as
    one request is rejected; without a key [createConnection] throws in each
    of the five calls. *)
Definition all_settled (r : round)
    : completion (jsval * jsval * jsval * jsval * jsval) :=
  if String.eqb HELIUS_API_KEY "" then
    Throw (Error "EXPO_PUBLIC_HELIUS_API_KEY is not set in .env file")
  else
  and_then (and_then (health_body r) getNetworkHealth_resumed) (fun healthData =>
  and_then (height r) (fun heightData =>
  and_then (epoch r) (fun epochData =>
  and_then (and_then (samples_body r) getRecentPerformanceSamples_resumed) (fun perfData =>
  and_then (and_then (version_body r) getSolanaVersion_resumed) (fun versionData =>
  Ret (healthData, heightData, epochData, perfData, versionData)))))).

(** [fetchNetworkData(silent)] up to its [await]. *)
Definition fetchNetworkData (silent : bool) (s : screen) : screen :=
  if negb silent then
    mkScreen (health s) (blockHeight s) (epochInfo s) (performanceSamples s)
             (version s) true (isRefreshing s) (lastUpdate s)
  else s.

(** [fetchNetworkData] from the moment [Promise.all] has settled. *)
Definition fetchNetworkData_resumed (r : round) (now : Z) (s : screen) : screen :=
  match all_settled r with
  | Ret (healthData, heightData, epochData, perfData, versionData) =>
      mkScreen healthData heightData epochData perfData versionData
               false false now
  | Throw _ =>
      mkScreen (health s) (blockHeight s) (epochInfo s)
               (performanceSamples s) (version s) false false (lastUpdate s)
  end.

Definition handleRefresh (s : screen) : screen :=
  fetchNetworkData false
    (mkScreen (health s) (blockHeight s) (epochInfo s) (performanceSamples s)
              (version s) (isLoading s) true (lastUpdate s)).

Inductive event : Type :=
| tick
| pulled
| settled (r : round) (now : Z).

Definition step (s : screen) (e : event) : screen :=
  match e with
  | tick => fetchNetworkData true s
  | pulled => handleRefresh s
  | settled r now => fetchNetworkData_resumed r now s
  end.

Definition run (s : screen) (es : list event) : screen := fold_left step es s.

End Screen.

(** The badge of the header: [health === 'ok' ? 'Healthy' : 'Degraded']. *)
Definition badge (health : jsval) : string :=
  if strict_eq_str health "ok" then "Healthy" else "Degraded".

Definition snapshot (s : screen) : jsval * jsval * jsval * jsval * jsval :=
  (health s, blockHeight s, epochInfo s, performanceSamples s, version s).

End NetworkHealth.

(** ** screens/TransactionHistoryScreen.tsx *)

(** [s.slice(0, n)] and [s.slice(-n)] for [n > 0]. *)
Definition slice_head (n : nat) (s : string) : string :=
  string_of_list_ascii (firstn n (list_ascii_of_string s)).

Definition slice_tail (n : nat) (s : string) : string :=
  let l := list_ascii_of_string s in
  if Nat.eqb n 0 then s
  else string_of_list_ascii (skipn (List.length l - n) l).

(** [`${sig.slice(0, n)}...${sig.slice(-n)}`]. *)
Definition abbreviate (n : nat) (sig : string) : string :=
  (slice_head n sig ++ "..." ++ slice_tail n sig)%string.

Definition formatSignature (sig : string) : string := abbreviate 8 sig.

Module TransactionHistory.

Inductive call : Type :=
| alert (title message : string)
| fetch (address : string) (limit : Z).

(** The [useState] cells, the requests that are out, and the calls made. *)
Record screen : Type := mkScreen {
  address : string;
  transactions : jsval;
  isLoading : bool;
  isRefreshing : bool;
  hasSearched : bool;
  outstanding : nat;
  calls : list call
}.

Definition initial : screen := mkScreen "" (JArr []) false false false 0 [].

Definition with_calls (c : call) (s : screen) : screen :=
  mkScreen (address s) (transactions s) (isLoading s) (isRefreshing s)
           (hasSearched s) (outstanding s) (calls s ++ [c]).

(** The [finally] of [fetchTransactions]. *)
Definition finally (s : screen) : screen :=
  mkScreen (address s) (transactions s) false false (hasSearched s)
           (outstanding s) (calls s).

(** Its [catch]. *)
Definition failed (error : exn) (s : screen) : screen :=
  finally (with_calls
             (alert "Error" (or_else (message_of error) "Failed to fetch transactions"))
             s).

Section Screen.

Variable HELIUS_API_KEY : string.
Variable ToString : jsval -> string.

(** [fetchTransactions(isRefresh)] up to its [await]. *)
Definition fetchTransactions (isRefresh : bool) (s : screen) : screen :=
  if trims_to_empty (address s) then
    with_calls (alert "Error" "Please enter a Solana address") s
  else if negb (validateSolanaAddress (address s)) then
    with_calls (alert "Error" "Invalid Solana address") s
  else
    let s :=
      if isRefresh then
        mkScreen (address s) (transactions s) (isLoading s) true
                 (hasSearched s) (outstanding s) (calls s)
      else
        mkScreen (address s) (transactions s) true (isRefreshing s)
                 (hasSearched s) (outstanding s) (calls s) in
    if String.eqb HELIUS_API_KEY "" then
      failed (Error "EXPO_PUBLIC_HELIUS_API_KEY is not set in .env file") s
    else
      mkScreen (address s) (transactions s) (isLoading s) (isRefreshing s)
               (hasSearched s) (S (outstanding s))
               (calls s ++ [fetch (address s) 20%Z]).

(** [fetchTransactions] from the moment the request has been answered with
    the body [data]. *)
Definition fetchTransactions_resumed (data : jsval) (s : screen) : screen :=
  let s := mkScreen (address s) (transactions s) (isLoading s) (isRefreshing s)
                    (hasSearched s) (pred (outstanding s)) (calls s) in
  match getTransactionsForAddress_resumed ToString data with
  | Ret txs =>
      finally (mkScreen (address s) txs (isLoading s) (isRefreshing s) true
                        (outstanding s) (calls s))
  | Throw error => failed error s
  end.

(** ... or has failed. *)
Definition fetchTransactions_rejected (message : string) (s : screen) : screen :=
  let s := mkScreen (address s) (transactions s) (isLoading s) (isRefreshing s)
                    (hasSearched s) (pred (outstanding s)) (calls s) in
  failed (Error message) s.

Definition setAddress (text : string) (s : screen) : screen :=
  mkScreen text (transactions s) (isLoading s) (isRefreshing s)
           (hasSearched s) (outstanding s) (calls s).

(** What can happen to the screen: the user types, presses the button
    (disabled while [isLoading]) or pulls the list down (enabled once
    [hasSearched]), and a request that is out is answered or fails. *)
Inductive event : Type :=
| typed (text : string)
| search_pressed
| pulled
| answered (data : jsval)
| rejected (message : string).

Definition enabled (s : screen) (e : event) : bool :=
  match e with
  | typed _ => true
  | search_pressed => negb (isLoading s)
  | pulled => hasSearched s
  | answered _ | rejected _ => Nat.ltb 0 (outstanding s)
  end.

Definition step (s : screen) (e : event) : screen :=
  if enabled s e then
    match e with
    | typed text => setAddress text s
    | search_pressed => fetchTransactions false s
    | pulled => fetchTransactions true s
    | answered data => fetchTransactions_resumed data s
    | rejected message => fetchTransactions_rejected message s
    end
  else s.

Definition run (s : screen) (es : list event) : screen := fold_left step es s.

End Screen.

End TransactionHistory.

(** ** The polling screen (TransactionHistorySimScreen)

    Two versions of the screen are modelled, which differ in what the
    guard of [fetchTransactions] reads and in where the hooks of a row are
    called (see [with_refs]); the rate shown by the later one, a
    floating-point quotient, is left out. *)

Module TransactionSim.

(** [SimulatedTransaction] of the service. *)
Record SimulatedTransaction : Type := mkTransaction {
  signature : string;
  slot : Z;
  block_time : Z;
  fee : Z;
  success : bool;
  timestamp : string;
  accounts : list string;
  instructions : list (string * string);
  recent_blockhash : string
}.

(** A [Set<string>]: its elements in insertion order, each once. *)
Definition has (x : string) (set : list string) : bool :=
  existsb (String.eqb x) set.

Definition add (x : string) (set : list string) : list string :=
  if has x set then set else set ++ [x].

(** The cells and refs of the screen.  Of the interval [intervalRef] holds,
    what matters is the render its callback belongs to: the [isPaused] and
    [isMonitoring] that render's [fetchTransactions] reads.  [requests]
    counts the calls of [getSimulatedTransactions], [answers] those that
    have returned or thrown; [alerts] are the alerts shown. *)
Record screen : Type := mkScreen {
  transactions : list SimulatedTransaction;
  isLoading : bool;
  isRefreshing : bool;
  error : option string;
  isPaused : bool;
  isMonitoring : bool;
  totalFetched : nat;
  lastUpdateTime : option Z;
  intervalRef : option (bool * bool);
  lastSignatureRef : option string;
  seenSignatures : list string;
  requests : nat;
  answers : nat;
  alerts : list (string * string)
}.

(** [fetchTransactions] from the moment [getSimulatedTransactions] has
    returned [response.transactions], with its [finally]. *)
Definition fetchTransactions_resumed (response : list SimulatedTransaction)
    (now : Z) (s : screen) : screen :=
  let newTransactions :=
    filter (fun tx => negb (has (signature tx) (seenSignatures s))) response in
  if Nat.ltb 0 (List.length response) && Nat.ltb 0 (List.length newTransactions) then
    mkScreen (newTransactions ++ transactions s) false false None
             (isPaused s) (isMonitoring s)
             (totalFetched s + List.length newTransactions)
             (Some now) (intervalRef s)
             (option_map signature (hd_error newTransactions))
             (fold_left (fun set tx => add (signature tx) set)
                        newTransactions (seenSignatures s))
             (requests s) (S (answers s)) (alerts s)
  else
    mkScreen (transactions s) false false None (isPaused s) (isMonitoring s)
             (totalFetched s) (lastUpdateTime s) (intervalRef s)
             (lastSignatureRef s) (seenSignatures s)
             (requests s) (S (answers s)) (alerts s).

(** ... or has thrown an error with this [message]. *)
Definition fetchTransactions_rejected (message : string)
    (isManualRefresh : bool) (s : screen) : screen :=
  let text := or_else message "Failed to fetch transactions" in
  mkScreen (transactions s) false false (Some text) (isPaused s)
           (isMonitoring s) (totalFetched s) (lastUpdateTime s)
           (intervalRef s) (lastSignatureRef s) (seenSignatures s)
           (requests s) (S (answers s))
           (if isManualRefresh then alerts s ++ [("Error", text)] else alerts s).

(** What a render of the screen comes to: one of its three views, or the
    error React throws when a render calls more hooks than the one before
    it. *)
Inductive rendering : Type :=
| loading_view
| error_view (text : string)
| list_view (rows : list SimulatedTransaction)
| more_hooks.

Section Screen.

(** The screen comes in two versions.  In one (with [with_refs] false)
    [fetchTransactions] tests the [isPaused] and [isMonitoring] of the
    render it belongs to; in the other it tests [isPausedRef] and
    [isMonitoringRef], which every handler assigns together with the cell
    and which therefore hold what the cells hold.  The record above holds
    the cells and the refs of both; what each version shows of the list is
    [render] below: the first one shows no row at all. *)
Variable with_refs : bool.

(** [fetchTransactions(isManualRefresh)] of a render in which the two flags
    were [paused] and [monitoring], up to its [await]. *)
Definition fetchTransactions (paused monitoring : bool) (isManualRefresh : bool)
    (s : screen) : screen :=
  let skip :=
    if with_refs then isPaused s || negb (isMonitoring s)
    else paused || negb monitoring in
  if skip && negb isManualRefresh then s
  else
    mkScreen (transactions s) (isLoading s)
             (if isManualRefresh then true else isRefreshing s)
             (error s) (isPaused s) (isMonitoring s) (totalFetched s)
             (lastUpdateTime s) (intervalRef s) (lastSignatureRef s)
             (seenSignatures s) (S (requests s)) (answers s) (alerts s).

(** [startAutoRefresh(forceInitialFetch)] of a render in which the two flags
    were [paused] and [monitoring]: the interval it sets calls the
    [fetchTransactions] of that render. *)
Definition startAutoRefresh (paused monitoring : bool) (forceInitialFetch : bool)
    (s : screen) : screen :=
  let s := mkScreen (transactions s) (isLoading s) (isRefreshing s) (error s)
                    false (isMonitoring s) (totalFetched s) (lastUpdateTime s)
                    None (lastSignatureRef s) (seenSignatures s)
                    (requests s) (answers s) (alerts s) in
  let s := fetchTransactions paused monitoring forceInitialFetch s in
  mkScreen (transactions s) (isLoading s) (isRefreshing s) (error s)
           (isPaused s) (isMonitoring s) (totalFetched s) (lastUpdateTime s)
           (Some (paused, monitoring)) (lastSignatureRef s) (seenSignatures s)
           (requests s) (answers s) (alerts s).

Definition stopAutoRefresh (s : screen) : screen :=
  mkScreen (transactions s) (isLoading s) (isRefreshing s) (error s)
           true (isMonitoring s) (totalFetched s) (lastUpdateTime s)
           None (lastSignatureRef s) (seenSignatures s)
           (requests s) (answers s) (alerts s).

(** The screen once the effect of the first render has run. *)
Definition mounted : screen :=
  startAutoRefresh false true false
    (mkScreen [] true false None false true 0 None None None [] 0 0 []).

Definition togglePause (s : screen) : screen :=
  if isPaused s then startAutoRefresh (isPaused s) (isMonitoring s) false s
  else stopAutoRefresh s.

Definition stopMonitoring (s : screen) : screen :=
  let captured := List.length (transactions s) in
  let s := mkScreen (transactions s) (isLoading s) (isRefreshing s) (error s)
                    (isPaused s) false (totalFetched s) (lastUpdateTime s)
                    (intervalRef s) (lastSignatureRef s) (seenSignatures s)
                    (requests s) (answers s) (alerts s) in
  let s := stopAutoRefresh s in
  mkScreen (transactions s) (isLoading s) (isRefreshing s) (error s)
           (isPaused s) (isMonitoring s) (totalFetched s) (lastUpdateTime s)
           (intervalRef s) (lastSignatureRef s) (seenSignatures s)
           (requests s) (answers s)
           (alerts s ++
              [("Monitoring Stopped",
                "Captured " ++ string_of_nat captured ++
                " transactions. You can now scroll through them. Refresh to restart monitoring.")%string]).

Definition restartMonitoring (s : screen) : screen :=
  startAutoRefresh (isPaused s) (isMonitoring s) true
    (mkScreen [] (isLoading s) (isRefreshing s) (error s)
              (isPaused s) true 0 (lastUpdateTime s)
              (intervalRef s) None [] (requests s) (answers s) (alerts s)).

Definition handleManualRefresh (s : screen) : screen :=
  if negb (isMonitoring s) then restartMonitoring s
  else fetchTransactions (isPaused s) (isMonitoring s) true s.

(** The status of the stats bar. *)
Definition statusText (s : screen) : string :=
  if negb (isMonitoring s) then "Stopped"
  else if isPaused s then "Paused" else "Live".

(** What a render of the screen comes to.  While loading, and on an error
    with an empty list, the screen returns early; else it shows the list,
    or a placeholder for an empty one.  The later version hands each
    transaction to a component of its own, [TransactionCard], which holds
    the hooks of the row's animation.  The earlier one calls these hooks
    ([useRef] twice, [useEffect]) in [renderTransaction], that is in the
    render of the screen itself, once for each row of
    [transactions.map(renderTransaction)]: the first render of the screen
    is the loading one, without a row, so that a render with rows calls more
    hooks than the render before it, which React refuses with an error
    ("Rendered more hooks than during the previous render"). *)
Definition render (s : screen) : rendering :=
  if isLoading s then loading_view
  else
    match error s, transactions s with
    | Some text, [] =>
        if String.eqb text "" then list_view [] else error_view text
    | None, [] => list_view []
    | _, _ :: _ => if with_refs then list_view (transactions s) else more_hooks
    end.

(** What can happen to the screen: a request that is out returns or throws,
    the interval fires, a button is pressed (Pause or Resume and Stop while
    monitoring, Restart when not; Retry on the error view), the list is
    pulled down. *)
Inductive event : Type :=
| answered (response : list SimulatedTransaction) (now : Z)
| rejected (message : string) (isManualRefresh : bool)
| tick
| pause_pressed
| stop_pressed
| restart_pressed
| retry_pressed
| pulled.

Definition enabled (s : screen) (e : event) : bool :=
  match e with
  | answered _ _ | rejected _ _ => Nat.ltb (answers s) (requests s)
  | tick =>
      match intervalRef s with
      | Some _ => true
      | None => false
      end
  | pause_pressed | stop_pressed => isMonitoring s
  | restart_pressed => negb (isMonitoring s)
  | retry_pressed =>
      match error s with
      | Some _ => Nat.eqb (List.length (transactions s)) 0
      | None => false
      end
  | pulled => true
  end.

Definition dispatch (s : screen) (e : event) : screen :=
  match e with
  | answered response now => fetchTransactions_resumed response now s
  | rejected message isManualRefresh =>
      fetchTransactions_rejected message isManualRefresh s
  | tick =>
      match intervalRef s with
      | Some (paused, monitoring) =>
          fetchTransactions paused monitoring false s
      | None => s
      end
  | pause_pressed => togglePause s
  | stop_pressed => stopMonitoring s
  | restart_pressed => restartMonitoring s
  | retry_pressed =>
      fetchTransactions (isPaused s) (isMonitoring s) true s
  | pulled => handleManualRefresh s
  end.

Definition step (s : screen) (e : event) : screen :=
  if enabled s e then dispatch s e else s.

Definition run (s : screen) (es : list event) : screen := fold_left step es s.

End Screen.

(** The events that need no hand: answers and the interval. *)
Definition passive (e : event) : bool :=
  match e with
  | answered _ _ | rejected _ _ | tick => true
  | _ => false
  end.

Definition signatures (l : list SimulatedTransaction) : list string :=
  map signature l.

(** The batches answered so far all have pairwise distinct signatures. *)
Definition distinct_batches (es : list event) : Prop :=
  forall response now, In (answered response now) es ->
                       NoDup (signatures response).

End TransactionSim.

(** ** screens/LiveBalanceScreen.tsx: the version without keepalive and reconnect

    The first of the two versions of the component in the file.  It has the
    cells and the two refs [subscriptionIdRef] and [wsRef] of the other; the
    state, the platform and the events are those defined above, and what it
    does not have (timers, the other refs, the attempt counter) it never
    touches.  Here [ws_awaited] tells whether the promise of
    [subscribeToAccountUpdates] made with the socket is still pending. *)

Module FirstVersion.

(** The promise made with socket [ws] is resolved or rejected. *)
Definition settle (ws : nat) : M unit :=
  set_sockets (update_nth ws (fun sock =>
    mkWebSocket (ws_readyState sock) (ws_walletAddress sock)
                (ws_reconnectAttempts sock) false)).

Definition onmessage (event_data : payload) (now : Z) : M unit :=
  data <- lift (JSON_parse event_data) ;;
  id <- lift (get_prop data "id") ;;
  confirmation <-
    (if strict_eq_num id 1%Z then
       result <- lift (get_prop data "result") ;; ret (truthy result)
     else ret false) ;;
  if confirmation then
    result <- lift (get_prop data "result") ;;
    set_subscriptionIdRef result
  else
    method <- lift (get_prop data "method") ;;
    if strict_eq_str method "accountNotification" then
      params <- lift (get_prop data "params") ;;
      result <- lift (get_prop params "result") ;;
      accountInfo <- lift (get_prop result "value") ;;
      params <- lift (get_prop data "params") ;;
      result <- lift (get_prop params "result") ;;
      context <- lift (get_prop result "context") ;;
      slot <- lift (get_prop context "slot") ;;
      if truthy accountInfo then
        lamports <- lift (get_prop accountInfo "lamports") ;;
        sol <- lift (lamportsToSol lamports) ;;
        setCurrentBalance lamports ;;
        setBalanceUpdates (fun prev =>
          prev ++ [mkBalanceUpdate now sol lamports (Some slot)])
      else ret tt
    else ret tt.

Definition onopen (ws : nat) (sock : websocket) : M unit :=
  setConnectionStatus connected ;;
  publicKey <- lift (new_PublicKey (ws_walletAddress sock)) ;;
  ws_send ws (accountSubscribe 1%Z publicKey) ;;
  (* resolve() *)
  if ws_awaited sock then settle ws ;; start_succeeded else ret tt.

Definition onerror (ws : nat) (sock : websocket) : M unit :=
  setConnectionStatus disconnected ;;
  (* reject(new Error('WebSocket connection failed')) *)
  if ws_awaited sock then
    settle ws ;; start_failed (Error "WebSocket connection failed")
  else ret tt.

Definition onclose : M unit :=
  setConnectionStatus disconnected.

Definition handleStopStreaming : M unit :=
  (ws <- gets (fun s => wsRef (st_refs s)) ;;
   sub <- gets (fun s => subscriptionIdRef (st_refs s)) ;;
   match ws with
   | Some ws =>
       if not_null sub then
         ws_send ws (accountUnsubscribe 2%Z sub) ;;
         ws_close ws ;;
         set_wsRef None ;;
         set_subscriptionIdRef JNull
       else ret tt
   | None => ret tt
   end) ;;
  setIsStreaming false ;;
  setConnectionStatus disconnected.

Section Screen.

Variable HELIUS_API_KEY : string.

(** [subscribeToAccountUpdates(walletAddress)] up to the return of the
    promise. *)
Definition subscribeToAccountUpdates (walletAddress : string) : M promise :=
  try_catch
    (getHeliusWsUrl HELIUS_API_KEY ;;
     ws <- new_WebSocket walletAddress 0 true ;;
     set_wsRef (Some ws) ;;
     setConnectionStatus connecting ;;
     ret (pending ws))
    (fun error => ret (rejected error)).

(** [handleStartStreaming] up to its first [await]. *)
Definition handleStartStreaming : M unit :=
  address <- gets (fun s => address (st_hooks s)) ;;
  if trims_to_empty address then
    Alert_alert "Error" "Please enter a Solana address"
  else if negb (validateSolanaAddress address) then
    Alert_alert "Error" "Invalid Solana address"
  else
    setIsLoading true ;;
    setBalanceUpdates (fun _ => []) ;;
    try_catch
      (createConnection HELIUS_API_KEY ;;
       getCurrentBalance address 0)
      start_failed.

(** [handleStartStreaming] from the moment [getCurrentBalance] has returned
    [initialBalance] up to [await subscribeToAccountUpdates(address)]. *)
Definition handleStartStreaming_resumed (address : string)
    (initialBalance : Z) (now : Z) : M unit :=
  try_catch
    (let initialBalance := JNum (inject_Z initialBalance) in
     setCurrentBalance initialBalance ;;
     sol <- lift (lamportsToSol initialBalance) ;;
     setBalanceUpdates (fun _ => [mkBalanceUpdate now sol initialBalance None]) ;;
     p <- subscribeToAccountUpdates address ;;
     match p with
     | pending _ => ret tt
     | rejected error => throw error
     end)
    start_failed.

Definition dispatch (e : event) : M unit :=
  match e with
  | onChangeText text => setAddress text
  | press_start => handleStartStreaming
  | press_stop => handleStopStreaming
  | balance_resolved lamports now =>
      p <- gets (fun s => pendingBalance (st_world s)) ;;
      set_pendingBalance None ;;
      match p with
      | Some (address, _) => handleStartStreaming_resumed address lamports now
      | None => ret tt
      end
  | balance_rejected message =>
      set_pendingBalance None ;;
      start_failed (Error message)
  | ws_onopen ws =>
      set_sockets (update_nth ws (with_readyState OPEN)) ;;
      sock <- gets (fun s => socket s ws) ;;
      match sock with
      | Some sock => onopen ws sock
      | None => ret tt
      end
  | ws_onmessage ws data now => onmessage data now
  | ws_onerror ws =>
      sock <- gets (fun s => socket s ws) ;;
      match sock with
      | Some sock => onerror ws sock
      | None => ret tt
      end
  | ws_onclose ws =>
      set_sockets (update_nth ws (with_readyState CLOSED)) ;;
      onclose
  | timeout_fires _ | interval_fires _ => ret tt
  end.

Definition step (e : event) : M unit :=
  fun s => if enabled s e then dispatch e s else (Ret tt, s).

Definition exec (s : state) (e : event) : state := snd (step e s).

Definition run (s : state) (es : list event) : state := fold_left exec es s.

Fixpoint feasible (s : state) (es : list event) : bool :=
  match es with
  | [] => true
  | e :: rest => enabled s e && feasible (exec s e) rest
  end.

End Screen.

End FirstVersion.

(** ** Vocabulary of the further properties *)

(** Every socket of [l] is still there in [l'] and has not gone back to
    connecting. *)
Definition advances (l l' : list websocket) : Prop :=
  forall i sock, nth_error l i = Some sock ->
  exists sock', nth_error l' i = Some sock'
                /\ (ws_readyState sock' = CONNECTING ->
                    ws_readyState sock = CONNECTING).


(** What the counter and the refs say of the list. *)
Definition listed (s : TransactionSim.screen)
    : list TransactionSim.SimulatedTransaction * nat * option string * list string :=
  (TransactionSim.transactions s, TransactionSim.totalFetched s,
   TransactionSim.lastSignatureRef s, TransactionSim.seenSignatures s).

(** What the refs and the counter say about the list on the screen. *)
Definition sim_coherent (s : TransactionSim.screen) : Prop :=
  NoDup (TransactionSim.seenSignatures s) /\
  (forall sig, In sig (TransactionSim.seenSignatures s) <->
               In sig (TransactionSim.signatures (TransactionSim.transactions s))) /\
  TransactionSim.totalFetched s = List.length (TransactionSim.transactions s) /\
  TransactionSim.lastSignatureRef s =
    option_map TransactionSim.signature (hd_error (TransactionSim.transactions s)).

(** The interval, if there is one, belongs to a render in which the screen
    was paused or not monitoring. *)
Definition stale_interval (s : TransactionSim.screen) : Prop :=
  forall paused monitoring,
    TransactionSim.intervalRef s = Some (paused, monitoring) ->
    paused || negb monitoring = true.

(** What holds of the transaction screen after any events. *)
Definition th_sound (HELIUS_API_KEY : string) (s : TransactionHistory.screen) : Prop :=
  (forall address limit,
     In (TransactionHistory.fetch address limit) (TransactionHistory.calls s) ->
     validateSolanaAddress address = true /\ limit = 20%Z /\
     HELIUS_API_KEY <> "") /\
  (TransactionHistory.outstanding s = 0 ->
   TransactionHistory.isLoading s = false /\
   TransactionHistory.isRefreshing s = false) /\
  (TransactionHistory.hasSearched s = false ->
   TransactionHistory.transactions s = JArr []).

(** There is an interval exactly while the screen is not paused. *)
Definition interval_follows_pause (s : TransactionSim.screen) : Prop :=
  TransactionSim.intervalRef s = None <-> TransactionSim.isPaused s = true.

(** ** Inputs of the further concrete runs *)

(** A start up to the socket that is still connecting. *)
Definition connecting_events : list event :=
  [onChangeText SYSTEM_PROGRAM; press_start; balance_resolved one_sol 1%Z].

(** The answer to an unsubscribe request. *)
Definition unsubscribe_answer : jsval :=
  JObj [("jsonrpc", JStr "2.0"); ("result", JBool true);
        ("id", JNum (inject_Z 2))].

(** An error answer of the RPC endpoint. *)
Definition error_answer : jsval :=
  JObj [("jsonrpc", JStr "2.0");
        ("error", JObj [("code", JNum (inject_Z (-32602)));
                        ("message", JStr "Invalid params")]);
        ("id", JStr "helius-tx-history")].

(** [String(v)] where [v] is a string. *)
Definition text_of (v : jsval) : string :=
  match v with
  | JStr text => text
  | _ => ""
  end.

Definition example_signature : string :=
  "5VERv8NMvzbJMEkV8xnrLkEaWRtSz9CosKDYjCJjBRnbJLgp8uirBgmQpjKhoR4tjF3ZpRzrFmBV6UjKdiSZkQUW".

(** A refresh in which the answer to getHealth is an error. *)
Definition health_error_round : NetworkHealth.round :=
  NetworkHealth.mkRound
    (Ret error_answer)
    (Ret (JNum (inject_Z 250000000)))
    (Ret (JObj [("epoch", JNum (inject_Z 600))]))
    (Ret (JObj [("result", JArr [])]))
    (Ret (JObj [("result", JObj [("solana-core", JStr "2.0.0")])])).

Definition transaction_of (signature : string)
    : TransactionSim.SimulatedTransaction :=
  TransactionSim.mkTransaction signature 1%Z 1%Z 5000%Z true
    "2025-01-01T00:00:00.000Z" [] [] "".

Definition two_batches : list TransactionSim.event :=
  [TransactionSim.answered [transaction_of "a"; transaction_of "b"] 1%Z;
   TransactionSim.tick;
   TransactionSim.answered [transaction_of "c"; transaction_of "b"] 2%Z].

(** The screen after Pause has been pressed. *)
Definition paused_screen : TransactionSim.screen :=
  TransactionSim.run false (TransactionSim.mounted false)
    [TransactionSim.pause_pressed].

Definition three_ticks : list TransactionSim.event :=
  [TransactionSim.tick; TransactionSim.tick; TransactionSim.tick].

(** The version without reconnect, streaming: started, the socket open, the
    subscription not yet confirmed. *)
Definition first_streaming : state :=
  FirstVersion.run API_KEY initial_state start_events.

(** * Properties *)

(** ** Property reads *)

Lemma get_prop_truthy (v : jsval) (k : string) :
  truthy v = true -> exists r, get_prop v k = Ret r.
Proof.
  destruct v; simpl; intros H; try discriminate; eauto.
Qed.

(** Once one property of a value has been read, reading another one does
    not throw. *)
Lemma get_prop_again (v : jsval) (k k' : string) (r : jsval) :
  get_prop v k = Ret r -> exists r', get_prop v k' = Ret r'.
Proof.
  destruct v; simpl; intros H; try discriminate; eauto.
Qed.

Lemma strict_eq_str_true (v : jsval) (k : string) :
  strict_eq_str v k = true -> v = JStr k.
Proof.
  destruct v; simpl; try discriminate.
  intros H. apply String.eqb_eq in H. now subst.
Qed.

(** ** The message handler, case by case *)

Ltac notification_branch data method :=
  destruct (strict_eq_num _ 999); [apply om_ignored|];
  destruct (strict_eq_str method "accountNotification") eqn:Hm; [|apply om_ignored];
  apply strict_eq_str_true in Hm; subst method;
  destruct (get_prop data "params") as [params|] eqn:Hp; [|apply om_throws];
  destruct (get_prop params "result") as [res|] eqn:Hr; [|apply om_throws];
  destruct (get_prop res "value") as [accountInfo|] eqn:Hv; [|apply om_throws];
  destruct (get_prop res "context") as [context|] eqn:Hc; [|apply om_throws];
  destruct (get_prop context "slot") as [slot|] eqn:Hs; [|apply om_throws];
  destruct (truthy accountInfo) eqn:Hta; [|apply om_ignored];
  destruct (get_prop_truthy _ "lamports" Hta) as [lam Hl]; rewrite Hl;
  unfold lamportsToSol; destruct (cannot_convert lam); cbv iota;
  [apply om_throws|];
  apply (om_notification _ _ _ data accountInfo lam slot); auto;
  simpl; rewrite Hp, Hr; [rewrite Hv|rewrite Hc, Hs]; reflexivity.

Lemma onmessage_cases (p : payload) (now : Z) (s : state) :
  onmessage_outcome p now s (onmessage p now s).
Proof.
  destruct p as [|data]; [apply om_throws|].
  unfold onmessage, bind, lift, ret; simpl JSON_parse; cbv iota beta.
  destruct (get_prop data "id") as [id|e] eqn:Hid; [|apply om_throws].
  destruct (get_prop_again _ _ "result" _ Hid) as [result Hres].
  destruct (get_prop_again _ _ "method" _ Hid) as [method Hmeth].
  rewrite Hres, Hmeth.
  destruct (strict_eq_num id 1).
  - destruct (truthy result) eqn:Ht.
    + apply (om_confirmation _ _ _ data result); auto.
    + notification_branch data method.
  - notification_branch data method.
Qed.

(** The handler touches neither the sockets nor the timers nor the trace. *)
Lemma onmessage_world (p : payload) (now : Z) (s : state) :
  st_world (snd (onmessage p now s)) = st_world s.
Proof.
  destruct (onmessage_cases p now s); reflexivity.
Qed.

(** It only ever adds to the history, and one record at most. *)
Lemma onmessage_appends (p : payload) (now : Z) (s : state) :
  exists suffix,
    balanceUpdates (st_hooks (snd (onmessage p now s)))
    = balanceUpdates (st_hooks s) ++ suffix
    /\ List.length suffix <= 1.
Proof.
  destruct (onmessage_cases p now s); simpl.
  1-3: exists []; rewrite app_nil_r; auto.
  eexists; split; [reflexivity|]; simpl; auto.
Qed.

(** What it does to a notification that carries an account. *)
Lemma onmessage_notification (subscription : Z)
    (slot : Z) (account : AccountInfo) (now : Z) (s : state) :
  onmessage (Parsed (json_of_update (mkAccountUpdate slot (Some account) subscription))) now s
  = (Ret tt,
     updated_state now (JNum (inject_Z (info_lamports account)))
                   (JNum (inject_Z slot)) s).
Proof. reflexivity. Qed.

(** C1 (as amended).  A message whose payload is not JSON, or is an account
    notification without [params], [params.result] or
    [params.result.context], makes the message handler throw, a SyntaxError
    for the first and a TypeError for the others: the exception is not
    caught in the handler.  The state of the session is then exactly what it
    was: no balance update is recorded, the connection status and the
    streaming flag are untouched. *)
Theorem onmessage_unreadable (p : payload) (now : Z) (s : state) :
  unreadable p ->
  onmessage p now s
  = (Throw match p with
           | Unparseable => SyntaxError
           | Parsed _ => TypeError
           end, s).
Proof.
  destruct p as [|data]; simpl; intros H.
  - reflexivity.
  - destruct H as [->|(Hid & Hm & Hpath)].
    + reflexivity.
    + unfold onmessage, bind, lift, ret; simpl JSON_parse; cbv iota beta.
      rewrite Hid, Hm; simpl.
      simpl in Hpath; revert Hpath.
      destruct (get_prop data "params") as [params|e]; [|congruence].
      destruct (get_prop params "result") as [res|e] eqn:Hres; [|congruence].
      destruct (get_prop_again _ _ "value" _ Hres) as [v Hv].
      destruct res; try discriminate; simpl; try congruence.
      destruct (lookup_prop "context" props); simpl; congruence.
Qed.

(** C7.  An account notification whose [value] is null records nothing:
    every [useState] cell, among them the history and the current balance,
    is what it was before the message. *)
Theorem onmessage_null_value (data : jsval) (now : Z) (s : state) :
  get_path data ["params"; "result"; "value"] = Ret JNull ->
  st_hooks (snd (onmessage (Parsed data) now s)) = st_hooks s.
Proof.
  intros Hnull.
  destruct (onmessage_cases (Parsed data) now s)
    as [e| |data' result Hp _ _|data' accountInfo lam sl Hp _ Hv Ht _ _];
    try reflexivity.
  injection Hp as <-. rewrite Hv in Hnull. injection Hnull as ->. discriminate.
Qed.

Section Runs.

Variable HELIUS_API_KEY : string.

Lemma exec_onmessage (s : state) (ws : nat) (p : payload) (now : Z) :
  option_map ws_readyState (socket s ws) = Some OPEN ->
  exec HELIUS_API_KEY s (ws_onmessage ws p now) = snd (onmessage p now s).
Proof.
  intros Hopen. unfold exec, step. simpl enabled. rewrite Hopen. reflexivity.
Qed.

(** C6.  Notifications that carry an account, delivered on an open socket in
    some order: the history after them is the history before them followed
    by one record for each notification, in that order. *)
Theorem notifications_in_order (s : state) (ws : nat) (subscription : Z)
    (ns : list (Z * AccountInfo * Z)) :
  option_map ws_readyState (socket s ws) = Some OPEN ->
  balanceUpdates (st_hooks (run HELIUS_API_KEY s (map (notification ws subscription) ns)))
  = balanceUpdates (st_hooks s) ++ map update_of ns.
Proof.
  revert s. induction ns as [|[[slot account] now] ns IH]; intros s Hopen.
  - simpl. now rewrite app_nil_r.
  - simpl map. unfold run in *. simpl fold_left.
    unfold notification at 1. rewrite (exec_onmessage _ _ _ _ Hopen).
    rewrite IH.
    + rewrite onmessage_notification. simpl.
      rewrite <- app_assoc. reflexivity.
    + unfold socket. rewrite onmessage_world. exact Hopen.
Qed.

End Runs.

(** ** Invariants of callbacks *)

Lemma preserves_bind {A B : Type} (P : state -> Prop) (m : M A) (k : A -> M B) :
  preserves P m -> (forall a, preserves P (k a)) -> preserves P (bind m k).
Proof.
  intros Hm Hk s H. unfold bind. specialize (Hm s H).
  destruct (m s) as [[a|e] s']; simpl in *; [apply Hk|]; assumption.
Qed.

Lemma preserves_try_catch {A : Type} (P : state -> Prop) (m : M A)
    (h : exn -> M A) :
  preserves P m -> (forall e, preserves P (h e)) -> preserves P (try_catch m h).
Proof.
  intros Hm Hh s H. unfold try_catch. specialize (Hm s H).
  destruct (m s) as [[a|e] s']; simpl in *; [|apply Hh]; assumption.
Qed.

Ltac unfold_callbacks :=
  unfold handleStartStreaming, handleStartStreaming_resumed,
    handleStopStreaming, cleanupConnection, onopen, onclose, onerror,
    attemptReconnect, reconnect, keepalive, startPingInterval,
    subscribeToAccountUpdates, start_succeeded, start_failed,
    createConnection, getHeliusHttpUrl, getHeliusWsUrl, getCurrentBalance,
    Alert_alert, new_WebSocket, ws_send, ws_close, setTimeout, clearTimeout,
    setInterval, clearInterval.

(** Splits a callback into its statements; a statement that does not write
    the history keeps any property of the history. *)
Ltac history_step :=
  match goal with
  | |- preserves ?P (bind (lift (Ret ?x)) ?k) =>
      change (preserves P (k x)); cbv beta
  | |- preserves _ (bind _ _) => apply preserves_bind; [|intro]
  | |- preserves _ (try_catch _ _) => apply preserves_try_catch; [|intro]
  | |- preserves _ (setBalanceUpdates _) => fail 1
  | |- preserves (on_history _) _ => solve [intros ? H; exact H]
  | |- preserves _ (match ?x with _ => _ end) => destruct x
  end.

(** Case analysis on the innermost scrutinee of the goal. *)
Ltac break_inner x :=
  lazymatch x with
  | context [match ?y with _ => _ end] => break_inner y
  | _ => destruct x eqn:?
  end.

Ltac break_match :=
  match goal with
  | |- context [match ?x with _ => _ end] => break_inner x
  end.

Ltac unfold_monad :=
  unfold bind, try_catch, gets, lift, ret, throw, emit, set_sockets,
    set_timeouts, set_intervals, set_pendingBalance, modify_world,
    modify_refs, modify_hooks, modify.

(** Runs the callback of an event down to its outcomes. *)
Ltac run_callback :=
  unfold dispatch; unfold_callbacks; unfold_monad; simpl;
  repeat (break_match; simpl).

Lemma run_snoc (key : string) (s : state) (es : list event) (e : event) :
  run key s (es ++ [e]) = exec key (run key s es) e.
Proof. unfold run. rewrite fold_left_app. reflexivity. Qed.

(** An invariant of the steps holds along every run. *)
Lemma run_preserves (key : string) (I : state -> Prop) :
  (forall e s, I s -> I (exec key s e)) ->
  forall es s, I s -> I (run key s es).
Proof.
  intros Hstep es. induction es as [|e es IH]; intros s H; [exact H|].
  apply IH, Hstep, H.
Qed.

Section Invariant.

Variable HELIUS_API_KEY : string.

(** A property of the history that holds of the empty history, of a history
    made of a seed record, and of a history extended by the message handler,
    holds after every event. *)
Lemma history_invariant (Q : list BalanceUpdate -> Prop) :
  Q [] ->
  (forall initialBalance now, Q [seed_update initialBalance now]) ->
  (forall l now lamports slot,
      Q l -> Q (l ++ [mkBalanceUpdate now (Div lamports LAMPORTS_PER_SOL)
                        lamports (Some slot)])) ->
  forall e, preserves (on_history Q) (step HELIUS_API_KEY e).
Proof.
  intros Hnil Hseed Happ e s H.
  unfold step. destruct (enabled s e); [|exact H].
  revert s H. change (preserves (on_history Q) (dispatch HELIUS_API_KEY e)).
  destruct e; unfold dispatch; unfold_callbacks;
    cbv zeta; unfold lamportsToSol; simpl cannot_convert; cbv iota;
    repeat history_step.
  - intros st _. exact Hnil.
  - intros st _. apply Hseed.
  - intros st H. destruct (onmessage_cases data now st); try exact H.
    apply Happ, H.
Qed.

Lemma run_invariant (Q : list BalanceUpdate -> Prop) :
  Q [] ->
  (forall initialBalance now, Q [seed_update initialBalance now]) ->
  (forall l now lamports slot,
      Q l -> Q (l ++ [mkBalanceUpdate now (Div lamports LAMPORTS_PER_SOL)
                        lamports (Some slot)])) ->
  forall es s, on_history Q s -> on_history Q (run HELIUS_API_KEY s es).
Proof.
  intros Hnil Hseed Happ es.
  induction es as [|e es IH]; intros s H; [exact H|].
  apply IH. exact (history_invariant Q Hnil Hseed Happ e s H).
Qed.

(** The seed step of [handleStartStreaming] replaces the history by the seed
    record, whatever it was and whether or not the socket can be made. *)
Lemma resumed_history (address : string) (attempts : nat)
    (initialBalance now : Z) (s : state) :
  balanceUpdates (st_hooks (snd (handleStartStreaming_resumed HELIUS_API_KEY
                                   address attempts initialBalance now s)))
  = [seed_update initialBalance now].
Proof.
  unfold handleStartStreaming_resumed, subscribeToAccountUpdates, getHeliusWsUrl.
  unfold try_catch, bind. simpl.
  destruct (String.eqb HELIUS_API_KEY ""); reflexivity.
Qed.

(** C9.  In every state the component can reach, each record of the history
    has for [balance] the quotient of its own [lamports] by 10^9.  The
    record [handleStartStreaming] seeds the history with has the lamports
    the balance request returned and no [slot]; a record the message handler
    adds has the [lamports] of the notification's account and the [slot] of
    the notification's context. *)
Theorem balance_update_records :
  (forall es,
      Forall coherent
        (balanceUpdates (st_hooks (run HELIUS_API_KEY initial_state es))))
  /\ (forall address attempts initialBalance now s,
         balanceUpdates (st_hooks (snd (handleStartStreaming_resumed
                                          HELIUS_API_KEY address attempts
                                          initialBalance now s)))
         = [mkBalanceUpdate now
              (Div (JNum (inject_Z initialBalance)) (10 ^ 9)%Z)
              (JNum (inject_Z initialBalance)) None])
  /\ (forall p now s,
         balanceUpdates (st_hooks (snd (onmessage p now s)))
         = balanceUpdates (st_hooks s)
         \/ exists data accountInfo lamports slot,
             p = Parsed data
             /\ get_path data ["params"; "result"; "value"] = Ret accountInfo
             /\ get_prop accountInfo "lamports" = Ret lamports
             /\ get_path data ["params"; "result"; "context"; "slot"] = Ret slot
             /\ balanceUpdates (st_hooks (snd (onmessage p now s)))
                = balanceUpdates (st_hooks s)
                  ++ [mkBalanceUpdate now (Div lamports (10 ^ 9)%Z) lamports (Some slot)]).
Proof.
  split; [|split].
  - intros es.
    apply (run_invariant (Forall coherent)); try (repeat constructor).
    intros l now lam sl H. apply Forall_app. split; [exact H|].
    repeat constructor.
  - intros. apply resumed_history.
  - intros p now s.
    destruct (onmessage_cases p now s)
      as [e| |data result Hp _ _|data accountInfo lam sl Hp _ Hv _ Hl Hs];
      auto.
    right. exists data, accountInfo, lam, sl. auto.
Qed.

End Invariant.

(** ** Starting and stopping *)

(** [validateSolanaAddress] on some strings: the System Program, the wrapped
    SOL mint and a wallet are 32-byte keys; ["abc"] decodes to too few
    bytes; ["hello"] has a character outside the alphabet; the empty string
    decodes to no byte at all. *)
Example validateSolanaAddress_examples :
  map validateSolanaAddress
    [SYSTEM_PROGRAM;
     "So11111111111111111111111111111111111111112";
     "7xKXtg2CW87d97TXJSDpbD5jBkheTqA83TZRuJosgAsU";
     "abc"; "hello"; ""]
  = [true; true; true; false; false; false].
Proof. vm_compute. reflexivity. Qed.

Section StartStop.

Variable HELIUS_API_KEY : string.

(** C5.  When the address does not pass [validateSolanaAddress],
    [handleStartStreaming] returns at once after one error alert: no balance
    request, no socket, no timer, nothing pending, and every cell and ref of
    the session as it was. *)
Theorem invalid_address_rejected (s : state) :
  validateSolanaAddress (address (st_hooks s)) = false ->
  let message :=
    if trims_to_empty (address (st_hooks s)) then "Please enter a Solana address"
    else "Invalid Solana address" in
  let s' := snd (handleStartStreaming HELIUS_API_KEY s) in
  fst (handleStartStreaming HELIUS_API_KEY s) = Ret tt
  /\ trace (st_world s') = trace (st_world s) ++ [eff_alert "Error" message]
  /\ st_hooks s' = st_hooks s
  /\ st_refs s' = st_refs s
  /\ sockets (st_world s') = sockets (st_world s)
  /\ timeouts (st_world s') = timeouts (st_world s)
  /\ intervals (st_world s') = intervals (st_world s)
  /\ pendingBalance (st_world s') = pendingBalance (st_world s).
Proof.
  intros Hinvalid. unfold handleStartStreaming, bind, gets; cbv beta iota.
  rewrite Hinvalid.
  destruct (trims_to_empty (address (st_hooks s))); simpl; repeat split.
Qed.

(** X15.  Without an API key a start on a valid address fails in
    [createConnection]: the error is shown, and no request is made. *)
Lemma start_without_key (s : state) :
  HELIUS_API_KEY = "" ->
  enabled s press_start = true ->
  trims_to_empty (address (st_hooks s)) = false ->
  validateSolanaAddress (address (st_hooks s)) = true ->
  let s' := exec HELIUS_API_KEY s press_start in
  trace (st_world s')
  = trace (st_world s)
    ++ [eff_alert "Error" "EXPO_PUBLIC_HELIUS_API_KEY is not set in .env file"]
  /\ isLoading (st_hooks s') = false
  /\ sockets (st_world s') = sockets (st_world s)
  /\ pendingBalance (st_world s') = pendingBalance (st_world s).
Proof.
  intros Hkey Hen Hblank Hvalid. cbv zeta.
  unfold exec, step. rewrite Hen.
  unfold dispatch, handleStartStreaming, createConnection, getHeliusHttpUrl,
    getCurrentBalance, start_failed, Alert_alert.
  unfold bind, try_catch, gets, lift; cbv beta iota.
  rewrite Hblank, Hvalid, Hkey; simpl. repeat split.
Qed.

End StartStop.

(** C8.  [handleStopStreaming] never throws, and a second call right after
    the first changes nothing at all: the state, trace included, is the one
    the first call left, so the second call sends nothing, closes nothing
    and clears no timer. *)
Theorem stop_twice (s : state) :
  let s1 := snd (handleStopStreaming s) in
  fst (handleStopStreaming s) = Ret tt
  /\ handleStopStreaming s1 = (Ret tt, s1).
Proof.
  destruct s as [h [sub ws ping tmo addr flag] w].
  unfold handleStopStreaming, cleanupConnection, ws_send, ws_close,
    clearTimeout, clearInterval.
  unfold bind, try_catch, gets, throw, ret; simpl.
  destruct ws as [ws|], ping as [ping|], tmo as [tmo|]; simpl.
  all: try (destruct (not_null sub); simpl).
  all: try (destruct (nth_error (sockets w) ws) as [sock|]; simpl).
  all: try (destruct (ws_readyState sock); simpl).
  all: split; reflexivity.
Qed.

(** ** Handles *)

Lemma nth_error_snoc {A : Type} (l : list A) (x : A) :
  nth_error (l ++ [x]) (List.length l) = Some x.
Proof.
  induction l as [|y l IH]; simpl; auto.
Qed.

Lemma update_nth_snoc {A : Type} (f : A -> A) (l : list A) (x : A) :
  update_nth (List.length l) f (l ++ [x]) = l ++ [f x].
Proof.
  induction l as [|y l IH]; simpl; [|rewrite IH]; reflexivity.
Qed.

Lemma nth_error_update_nth {A : Type} (f : A -> A) (l : list A) (i : nat) :
  nth_error (update_nth i f l) i = option_map f (nth_error l i).
Proof.
  revert i; induction l as [|y l IH]; intros [|i]; simpl; auto.
Qed.

Lemma delays_app (tr tr' : list effect) :
  delays (tr ++ tr') = delays tr ++ delays tr'.
Proof.
  induction tr as [|[] tr IH]; simpl; rewrite ?IH; reflexivity.
Qed.

Lemma validateSolanaAddress_true (address : string) :
  validateSolanaAddress address = true ->
  exists publicKey, new_PublicKey address = Ret publicKey.
Proof.
  unfold validateSolanaAddress.
  destruct (new_PublicKey address); [eauto|discriminate].
Qed.

Lemma shown_alerts_app (a b : list effect) :
  shown_alerts (a ++ b) = shown_alerts a ++ shown_alerts b.
Proof.
  induction a as [|e a IH]; simpl; [reflexivity|].
  destruct e; simpl; now rewrite IH.
Qed.

Lemma Forall_update_nth_at {A : Type} (P : A -> Prop) (f : A -> A)
    (l : list A) (i : nat) :
  Forall P l -> (forall x, nth_error l i = Some x -> P (f x)) ->
  Forall P (update_nth i f l).
Proof.
  intros H. revert i. induction H as [|x l Hx Hl IH]; intros [|i] Hf; simpl;
    constructor; auto.
Qed.

Section Start.

Variable HELIUS_API_KEY : string.
Hypothesis key_set : HELIUS_API_KEY <> "".

Lemma key_not_empty : String.eqb HELIUS_API_KEY "" = false.
Proof. apply String.eqb_neq, key_set. Qed.

(** The state after the Start button has been pressed on a valid address. *)
Lemma press_start_valid (s : state) :
  enabled s press_start = true ->
  trims_to_empty (address (st_hooks s)) = false ->
  validateSolanaAddress (address (st_hooks s)) = true ->
  exec HELIUS_API_KEY s press_start
  = mkState
      (mkHooks (address (st_hooks s)) (isStreaming (st_hooks s))
         (currentBalance (st_hooks s)) [] true
         (connectionStatus (st_hooks s)) 0)
      (mkRefs (subscriptionIdRef (st_refs s)) (wsRef (st_refs s))
         (pingIntervalRef (st_refs s)) (reconnectTimeoutRef (st_refs s))
         (address (st_hooks s)) false)
      (mkWorld (sockets (st_world s)) (timeouts (st_world s))
         (intervals (st_world s))
         (Some (address (st_hooks s), reconnectAttempts (st_hooks s)))
         (trace (st_world s) ++ [eff_getBalance (address (st_hooks s))])).
Proof.
  intros Hen Hblank Hvalid.
  destruct (validateSolanaAddress_true _ Hvalid) as [publicKey Hkey].
  unfold exec, step. rewrite Hen.
  unfold dispatch, handleStartStreaming, createConnection, getHeliusHttpUrl,
    getCurrentBalance.
  unfold bind, try_catch, gets, lift; cbv beta iota.
  rewrite Hblank, Hvalid; simpl.
  rewrite key_not_empty; simpl.
  rewrite Hkey. reflexivity.
Qed.

(** The state after the balance request has then returned. *)
Lemma balance_resolved_valid (s : state) (initialBalance now : Z) :
  enabled s press_start = true ->
  trims_to_empty (address (st_hooks s)) = false ->
  validateSolanaAddress (address (st_hooks s)) = true ->
  exec HELIUS_API_KEY (exec HELIUS_API_KEY s press_start)
    (balance_resolved initialBalance now)
  = mkState
      (mkHooks (address (st_hooks s)) (isStreaming (st_hooks s))
         (JNum (inject_Z initialBalance)) [seed_update initialBalance now] true
         connecting 0)
      (mkRefs (subscriptionIdRef (st_refs s))
         (Some (List.length (sockets (st_world s))))
         (pingIntervalRef (st_refs s)) (reconnectTimeoutRef (st_refs s))
         (address (st_hooks s)) false)
      (mkWorld
         (sockets (st_world s)
          ++ [mkWebSocket CONNECTING (address (st_hooks s))
                (reconnectAttempts (st_hooks s)) true])
         (timeouts (st_world s)) (intervals (st_world s)) None
         (trace (st_world s)
          ++ [eff_getBalance (address (st_hooks s))]
          ++ [eff_new_WebSocket (List.length (sockets (st_world s)))])).
Proof.
  intros Hen Hblank Hvalid.
  rewrite (press_start_valid s Hen Hblank Hvalid).
  unfold exec, step; simpl enabled; cbv iota.
  unfold dispatch, handleStartStreaming_resumed, subscribeToAccountUpdates,
    getHeliusWsUrl, new_WebSocket.
  unfold bind, try_catch, gets; simpl.
  rewrite key_not_empty; simpl.
  rewrite <- app_assoc. reflexivity.
Qed.

(** C10.  A start that succeeds (the button is pressed on a valid address,
    the balance request returns, the socket opens) first empties the
    history, and leaves in it the seed record alone, whatever the history
    held before. *)
Theorem start_resets_history (s : state) (initialBalance now : Z) :
  enabled s press_start = true ->
  trims_to_empty (address (st_hooks s)) = false ->
  validateSolanaAddress (address (st_hooks s)) = true ->
  let ws := List.length (sockets (st_world s)) in
  let s1 := exec HELIUS_API_KEY s press_start in
  let s2 := exec HELIUS_API_KEY s1 (balance_resolved initialBalance now) in
  let s3 := exec HELIUS_API_KEY s2 (ws_onopen ws) in
  feasible HELIUS_API_KEY s
    [press_start; balance_resolved initialBalance now; ws_onopen ws] = true
  /\ balanceUpdates (st_hooks s1) = []
  /\ balanceUpdates (st_hooks s2) = [seed_update initialBalance now]
  /\ balanceUpdates (st_hooks s3) = [seed_update initialBalance now]
  /\ isStreaming (st_hooks s3) = true
  /\ isLoading (st_hooks s3) = false.
Proof.
  intros Hen Hblank Hvalid ws s1 s2 s3.
  assert (H1 := press_start_valid s Hen Hblank Hvalid).
  assert (H2 := balance_resolved_valid s initialBalance now Hen Hblank Hvalid).
  fold s1 in H1, H2. fold s2 in H2.
  destruct (validateSolanaAddress_true _ Hvalid) as [publicKey Hkey].
  assert (Hopen : enabled s2 (ws_onopen ws) = true).
  { rewrite H2. unfold enabled, socket; simpl. subst ws.
    rewrite nth_error_snoc. reflexivity. }
  assert (H3 : balanceUpdates (st_hooks s3) = [seed_update initialBalance now]
               /\ isStreaming (st_hooks s3) = true
               /\ isLoading (st_hooks s3) = false).
  { subst s3. unfold exec, step. rewrite Hopen. rewrite H2.
    unfold dispatch, bind, gets, set_sockets, modify_world, modify, socket;
      simpl. subst ws.
    rewrite update_nth_snoc, nth_error_snoc; simpl.
    unfold onopen, startPingInterval, setInterval, clearInterval, ws_send,
      start_succeeded.
    unfold bind, gets, lift; simpl. rewrite Hkey.
    destruct (pingIntervalRef (st_refs s)); simpl;
      rewrite nth_error_snoc; simpl; auto. }
  split; [|split; [|split; [|exact H3]]].
  - cbn [feasible]. fold s1. fold s2. rewrite Hen, Hopen.
    rewrite H1. reflexivity.
  - rewrite H1. reflexivity.
  - rewrite H2. reflexivity.
Qed.

(** The state after the balance request has instead failed. *)
Lemma balance_rejected_valid (s : state) (message : string) :
  enabled s press_start = true ->
  trims_to_empty (address (st_hooks s)) = false ->
  validateSolanaAddress (address (st_hooks s)) = true ->
  run HELIUS_API_KEY s [press_start; balance_rejected message]
  = mkState
      (mkHooks (address (st_hooks s)) (isStreaming (st_hooks s))
         (currentBalance (st_hooks s)) [] false
         (connectionStatus (st_hooks s)) 0)
      (mkRefs (subscriptionIdRef (st_refs s)) (wsRef (st_refs s))
         (pingIntervalRef (st_refs s)) (reconnectTimeoutRef (st_refs s))
         (address (st_hooks s)) false)
      (mkWorld (sockets (st_world s)) (timeouts (st_world s))
         (intervals (st_world s)) None
         (trace (st_world s)
          ++ [eff_getBalance (address (st_hooks s));
              eff_alert "Error" (or_else message "Failed to start streaming")])).
Proof.
  intros Hen Hblank Hvalid.
  unfold run; cbn [fold_left].
  rewrite (press_start_valid s Hen Hblank Hvalid).
  unfold exec, step; simpl enabled; cbv iota.
  unfold dispatch, start_failed, Alert_alert, bind; simpl.
  rewrite <- app_assoc. reflexivity.
Qed.

(** An unintentional close sets the reconnect timeout, with the delay of the
    count the socket's handlers closed over. *)
Lemma onclose_schedules (s : state) (ws : nat) (sock : websocket) :
  socket s ws = Some sock ->
  ws_readyState sock <> CLOSED ->
  isIntentionalCloseRef (st_refs s) = false ->
  let s' := exec HELIUS_API_KEY s (ws_onclose ws) in
  let t := List.length (timeouts (st_world s)) in
  timeouts (st_world s')
  = timeouts (st_world s) ++ [mkTimeout (ws_reconnectAttempts sock) Pending]
  /\ reconnectTimeoutRef (st_refs s') = Some t
  /\ connectionStatus (st_hooks s') = connecting
  /\ reconnectAttempts (st_hooks s') = reconnectAttempts (st_hooks s) + 1
  /\ trace (st_world s')
     = trace (st_world s)
       ++ match pingIntervalRef (st_refs s) with
          | Some i => [eff_clearInterval i]
          | None => []
          end
       ++ [eff_setTimeout t (backoffMs (ws_reconnectAttempts sock))].
Proof.
  intros Hsock Hstate Hflag s' t. subst s' t.
  unfold exec, step. unfold enabled. rewrite Hsock; simpl option_map.
  destruct (ws_readyState sock) eqn:Hrs; try congruence; cbv iota.
  all: unfold dispatch, bind, gets, set_sockets, modify_world, modify, socket;
    simpl; rewrite nth_error_update_nth; unfold socket in Hsock;
    rewrite Hsock; simpl;
    unfold onclose, attemptReconnect, setTimeout, clearInterval, bind, gets;
    simpl;
    destruct (pingIntervalRef (st_refs s)); simpl;
    repeat (rewrite Hflag; simpl);
    rewrite <- ?app_assoc; repeat split; reflexivity.
Qed.

(** The two ways a start fails, each at the moment of the failure.  When the
    balance request of a start fails, the error is shown in an alert and at
    that moment the screen is not streaming, not loading, no socket has been
    made, no timeout set, nothing is pending.  When the socket of a start
    has been made and closes before it has opened, the close handler does
    what it does on every unintentional close: it sets the reconnect
    timeout. *)
Lemma failed_start (s : state) (message : string) (ws : nat)
    (sock : websocket) :
  (enabled s press_start = true ->
   trims_to_empty (address (st_hooks s)) = false ->
   validateSolanaAddress (address (st_hooks s)) = true ->
   let s' := run HELIUS_API_KEY s [press_start; balance_rejected message] in
   trace (st_world s')
   = trace (st_world s)
     ++ [eff_getBalance (address (st_hooks s));
         eff_alert "Error" (or_else message "Failed to start streaming")]
   /\ isStreaming (st_hooks s') = false
   /\ isLoading (st_hooks s') = false
   /\ sockets (st_world s') = sockets (st_world s)
   /\ timeouts (st_world s') = timeouts (st_world s)
   /\ pendingBalance (st_world s') = None)
  /\
  (socket s ws = Some sock ->
   ws_readyState sock = CONNECTING ->
   isIntentionalCloseRef (st_refs s) = false ->
   let s' := exec HELIUS_API_KEY s (ws_onclose ws) in
   let t := List.length (timeouts (st_world s)) in
   timeouts (st_world s')
   = timeouts (st_world s) ++ [mkTimeout (ws_reconnectAttempts sock) Pending]
   /\ reconnectTimeoutRef (st_refs s') = Some t
   /\ connectionStatus (st_hooks s') = connecting
   /\ delays (trace (st_world s'))
      = delays (trace (st_world s)) ++ [backoffMs (ws_reconnectAttempts sock)]).
Proof.
  split.
  - intros Hen Hblank Hvalid s'. subst s'.
    rewrite (balance_rejected_valid s message Hen Hblank Hvalid); simpl.
    repeat split.
    unfold enabled in Hen. destruct (isStreaming (st_hooks s)); [discriminate|reflexivity].
  - intros Hsock Hrs Hflag.
    assert (Hnc : ws_readyState sock <> CLOSED) by (rewrite Hrs; discriminate).
    destruct (onclose_schedules s ws sock Hsock Hnc Hflag) as (Ht & Hr & Hc & _ & Htr).
    cbv zeta. rewrite Ht, Hr, Hc, Htr. repeat split.
    rewrite !delays_app. destruct (pingIntervalRef (st_refs s)); simpl;
      rewrite ?app_nil_r; reflexivity.
Qed.

(** Once the socket a start awaits has closed without having opened,
    nothing ends the start: no event takes the screen out of
    [start_pending]. *)
Lemma start_pending_step (e : event) (s : state) :
  start_pending s -> start_pending (exec HELIUS_API_KEY s e).
Proof.
  intros HI. unfold exec, step. destruct (enabled s e) eqn:Hen; [|exact HI].
  destruct HI as (Hl & Hs & Hp & Hsock & Ha).
  destruct e.
  7: { unfold dispatch.
       destruct (onmessage_cases data now s); repeat split; assumption. }
  6: { unfold enabled, socket in Hen.
       destruct (nth_error (sockets (st_world s)) ws) as [sock|] eqn:Hsk;
         [|discriminate].
       simpl in Hen. destruct (ws_readyState sock) eqn:Hrs; try discriminate.
       assert (Haw : ws_awaited sock = false).
       { rewrite Forall_forall in Hsock.
         specialize (Hsock sock (nth_error_In _ _ Hsk)).
         destruct (ws_awaited sock); [|reflexivity].
         specialize (Hsock eq_refl). congruence. }
       unfold start_pending, dispatch, bind, gets, set_sockets, modify_world,
         modify, socket; simpl.
       rewrite nth_error_update_nth, Hsk; simpl.
       unfold onopen; unfold_callbacks; unfold_monad; simpl. rewrite Haw.
       repeat (break_match; simpl).
       all: rewrite ?shown_alerts_app; simpl; rewrite ?Ha.
       all: repeat split; try assumption; try reflexivity.
       all: apply Forall_update_nth_at; [exact Hsock|].
       all: intros x Hx; simpl; congruence. }
  all: unfold enabled in Hen; rewrite ?Hl, ?Hs, ?Hp in Hen; try discriminate.
  all: unfold start_pending; run_callback.
  all: rewrite ?shown_alerts_app; simpl; rewrite ?Ha.
  all: repeat split; try assumption; try reflexivity.
  all: try (apply Forall_update_nth_at;
            [assumption | intros x _ _; reflexivity]).
  all: try (apply Forall_app; split;
            [assumption | repeat constructor; simpl; discriminate]).
Qed.

Lemma start_pending_run (es : list event) (s : state) :
  start_pending s -> start_pending (run HELIUS_API_KEY s es).
Proof.
  apply (run_preserves HELIUS_API_KEY start_pending).
  intros e s'. apply start_pending_step.
Qed.

End Start.

(** ** The backoff *)

(** The delays the comment in [attemptReconnect] lists: 1s, 2s, 4s, 8s, 16s,
    30s (max). *)
Lemma backoffMs_table :
  map backoffMs [0; 1; 2; 3; 4; 5] = [1000; 2000; 4000; 8000; 16000; 30000]%Z.
Proof. reflexivity. Qed.

Lemma backoffMs_capped (n : nat) : 5 <= n -> backoffMs n = 30000%Z.
Proof.
  intros Hn. unfold backoffMs. apply Z.min_r.
  assert (2 ^ 5 <= 2 ^ Z.of_nat n)%Z by (apply Z.pow_le_mono_r; lia).
  simpl in H. lia.
Qed.

Lemma backoffMs_monotone (n m : nat) :
  n <= m -> (backoffMs n <= backoffMs m)%Z.
Proof.
  intros Hnm. unfold backoffMs. apply Z.min_le_compat_r.
  apply Z.mul_le_mono_nonneg_l; [lia|].
  apply Z.pow_le_mono_r; lia.
Qed.

(** ** After a stop *)

Lemma length_update_nth {A : Type} (f : A -> A) (l : list A) (i : nat) :
  List.length (update_nth i f l) = List.length l.
Proof.
  revert i; induction l as [|y l IH]; intros [|i]; simpl; auto.
Qed.

Lemma handleStopStreaming_stopped (s : state) :
  pendingBalance (st_world s) = None ->
  stopped (List.length (sockets (st_world s)))
          (List.length (timeouts (st_world s)))
          (snd (handleStopStreaming s)).
Proof.
  intros Hp. destruct s as [h [sub ws ping tmo addr flag] w]; simpl in *.
  unfold handleStopStreaming, cleanupConnection, ws_send, ws_close,
    clearTimeout, clearInterval.
  unfold bind, try_catch, gets, throw, ret; simpl.
  destruct ws as [ws|], ping as [ping|], tmo as [tmo|]; simpl.
  all: try (destruct (not_null sub); simpl).
  all: try (destruct (nth_error (sockets w) ws) as [sock|]; simpl).
  all: try (destruct (ws_readyState sock); simpl).
  all: unfold stopped; simpl; rewrite ?length_update_nth; auto.
Qed.

(** The timeout the session holds is no longer pending after a stop. *)
Lemma handleStopStreaming_clears (s : state) (t : nat) :
  reconnectTimeoutRef (st_refs s) = Some t ->
  nth_error (timeouts (st_world (snd (handleStopStreaming s)))) t
  = option_map cleared (nth_error (timeouts (st_world s)) t).
Proof.
  intros Ht. destruct s as [h [sub ws ping tmo addr flag] w]; simpl in *.
  subst tmo.
  unfold handleStopStreaming, cleanupConnection, ws_send, ws_close,
    clearTimeout, clearInterval.
  unfold bind, try_catch, gets, throw, ret; simpl.
  destruct ws as [ws|], ping as [ping|]; simpl.
  all: try (destruct (not_null sub); simpl).
  all: try (destruct (nth_error (sockets w) ws) as [sock|]; simpl).
  all: try (destruct (ws_readyState sock); simpl).
  all: apply nth_error_update_nth.
Qed.

Section Stop.

Variable HELIUS_API_KEY : string.

(** While the flag is set, no event but a press on Start makes a socket or
    sets a timeout, and the flag stays set. *)
Lemma stopped_step (n m : nat) (e : event) (s : state) :
  e <> press_start ->
  stopped n m s -> stopped n m (exec HELIUS_API_KEY s e).
Proof.
  intros He (Hflag & Hpend & Hn & Hm).
  unfold exec, step. destruct (enabled s e) eqn:Hen; [|repeat split; assumption].
  destruct e; try congruence; unfold dispatch.
  - repeat split; assumption.
  - destruct (handleStopStreaming_stopped s Hpend) as (? & ? & ? & ?).
    repeat split; congruence.
  - simpl in Hen. rewrite Hpend in Hen. discriminate.
  - simpl in Hen. rewrite Hpend in Hen. discriminate.
  - unfold bind, gets, set_sockets, modify_world, modify, socket; simpl.
    destruct (nth_error (update_nth ws (with_readyState OPEN) (sockets (st_world s))) ws)
      as [sock|] eqn:Hsock; simpl.
    + unfold onopen, startPingInterval, setInterval, clearInterval, ws_send,
        start_succeeded, bind, gets, lift; simpl.
      destruct (pingIntervalRef (st_refs s)); simpl;
        destruct (new_PublicKey (ws_walletAddress sock)); simpl;
        try (destruct (nth_error _ ws) as [sock'|]; simpl;
             [destruct (ws_readyState sock'); simpl|]);
        try (destruct (ws_awaited sock); simpl);
        unfold stopped; simpl; rewrite ?length_update_nth; auto.
    + unfold stopped; simpl; rewrite ?length_update_nth; auto.
  - destruct (onmessage_cases data now s); unfold stopped; simpl; auto.
  - unfold stopped; simpl; auto.
  - unfold bind, gets, set_sockets, modify_world, modify, socket; simpl.
    destruct (nth_error (update_nth ws (with_readyState CLOSED) (sockets (st_world s))) ws)
      as [sock|] eqn:Hsock; simpl.
    + unfold onclose, attemptReconnect, clearInterval, bind, gets; simpl.
      destruct (pingIntervalRef (st_refs s)); simpl; rewrite Hflag; simpl;
        unfold stopped; simpl; rewrite ?length_update_nth; auto.
    + unfold stopped; simpl; rewrite ?length_update_nth; auto.
  - unfold bind, gets, set_timeouts, modify_world, modify; simpl.
    destruct (nth_error (timeouts (st_world s)) t) as [tm|]; simpl.
    + unfold reconnect, bind, gets; simpl. rewrite Hflag.
      rewrite andb_false_r; simpl.
      unfold stopped; simpl; rewrite ?length_update_nth; auto.
    + unfold stopped; simpl; rewrite ?length_update_nth; auto.
  - unfold keepalive, ws_send, bind, gets, try_catch; simpl.
    destruct (wsRef (st_refs s)) as [ws|]; simpl;
      [destruct (nth_error (sockets (st_world s)) ws) as [sock|] eqn:Hsock;
       simpl;
       [destruct (ws_readyState sock) eqn:Hrs; simpl; rewrite ?Hsock; simpl;
        rewrite ?Hrs; simpl|]|];
      unfold stopped; simpl; auto.
Qed.

(** X13.  After a stop, and as long as Start is not pressed again, no socket is
    made and no timeout is set: the reconnect path is closed. *)
Lemma no_reconnect_after_stop (s : state) (es : list event) :
  pendingBalance (st_world s) = None ->
  Forall (fun e => e <> press_start) es ->
  let s' := run HELIUS_API_KEY (snd (handleStopStreaming s)) es in
  List.length (sockets (st_world s')) = List.length (sockets (st_world s))
  /\ List.length (timeouts (st_world s')) = List.length (timeouts (st_world s))
  /\ isIntentionalCloseRef (st_refs s') = true.
Proof.
  intros Hp Hes s'. subst s'.
  assert (H := handleStopStreaming_stopped s Hp).
  revert H. generalize (snd (handleStopStreaming s)) as s1.
  generalize (List.length (sockets (st_world s))) as n.
  generalize (List.length (timeouts (st_world s))) as m.
  induction Hes as [|e es He Hes IH]; intros m n s1 Hs1.
  - destruct Hs1 as (Hf & _ & Hn & Hm). simpl; auto.
  - simpl. apply IH. apply stopped_step; assumption.
Qed.

End Stop.

(** ** Reconnecting *)

Section Reconnect.

Variable HELIUS_API_KEY : string.
Hypothesis key_set : HELIUS_API_KEY <> "".

(** X14.  The socket a reconnect timeout makes closes over the same count as the
    timeout did, so the close handler of that socket computes the same
    delay again. *)
Lemma reconnect_inherits (s : state) (t : nat) (tm : timeout) :
  nth_error (timeouts (st_world s)) t = Some tm ->
  to_status tm = Pending ->
  isIntentionalCloseRef (st_refs s) = false ->
  currentAddressRef (st_refs s) <> "" ->
  sockets (st_world (exec HELIUS_API_KEY s (timeout_fires t)))
  = sockets (st_world s)
    ++ [mkWebSocket CONNECTING (currentAddressRef (st_refs s))
          (to_reconnectAttempts tm) false].
Proof.
  intros Ht Hpending Hflag Haddr.
  apply String.eqb_neq in Haddr.
  apply String.eqb_neq in key_set.
  unfold exec, step, enabled. rewrite Ht; simpl option_map.
  rewrite Hpending; cbv iota.
  unfold dispatch, bind, gets, set_timeouts, modify_world, modify; simpl.
  rewrite Ht; simpl.
  unfold reconnect, subscribeToAccountUpdates, getHeliusWsUrl, new_WebSocket,
    bind, gets, try_catch; simpl.
  rewrite Hflag, Haddr; simpl. rewrite key_set; simpl. reflexivity.
Qed.

(** When a socket opens, the attempt counter goes back to 0. *)
Lemma onopen_resets (s : state) (ws : nat) :
  enabled s (ws_onopen ws) = true ->
  let s' := exec HELIUS_API_KEY s (ws_onopen ws) in
  reconnectAttempts (st_hooks s') = 0
  /\ connectionStatus (st_hooks s') = connected.
Proof.
  intros Hen. cbv zeta. unfold exec, step. rewrite Hen.
  unfold enabled in Hen.
  destruct (socket s ws) as [sock|] eqn:Hsock; [|discriminate].
  unfold socket in Hsock.
  unfold dispatch, bind, gets, set_sockets, modify_world, modify, socket; simpl.
  rewrite nth_error_update_nth, Hsock; simpl.
  unfold onopen, startPingInterval, setInterval, clearInterval, ws_send,
    start_succeeded, bind, gets, lift; simpl.
  destruct (pingIntervalRef (st_refs s)); simpl;
    destruct (new_PublicKey (ws_walletAddress sock)); simpl; auto;
    rewrite nth_error_update_nth, Hsock; simpl;
    destruct (ws_awaited sock); simpl; auto.
Qed.

End Reconnect.

(** * Concrete runs *)

(** The scenario of the specification runs as it is told there: the history
    is the seed and the update, in that order; the subscription id is kept;
    the one reconnect delay is one second; the session ends connected, the
    attempt counter back to 0. *)
Example scenario_runs :
  let s := run API_KEY initial_state scenario in
  feasible API_KEY initial_state scenario = true
  /\ balanceUpdates (st_hooks s)
     = [seed_update one_sol 1%Z;
        update_of (100%Z, account 1500000000, 3%Z)]
  /\ subscriptionIdRef (st_refs s) = JNum (inject_Z 7)
  /\ delays (trace (st_world s)) = [1000%Z]
  /\ connectionStatus (st_hooks s) = connected
  /\ reconnectAttempts (st_hooks s) = 0.
Proof. vm_compute. repeat split. Qed.

(** C1, counterexample.  On a streaming session, a message that is not JSON
    makes the message handler throw a SyntaxError. *)
Lemma unparseable_message_escapes :
  isStreaming (st_hooks streaming) = true
  /\ enabled streaming (ws_onmessage 0 Unparseable 2%Z) = true
  /\ fst (step API_KEY (ws_onmessage 0 Unparseable 2%Z) streaming)
     = Throw SyntaxError.
Proof. vm_compute. auto. Qed.

(** A notification that lacks only [lamports] is not dropped: a record with
    an undefined [lamports] is added to the history. *)
Lemma notification_without_lamports_recorded :
  balanceUpdates
    (st_hooks (exec API_KEY streaming
                 (ws_onmessage 0 (Parsed notification_without_lamports) 2%Z)))
  = [seed_update one_sol 1%Z;
     mkBalanceUpdate 2%Z (Div JUndefined (10 ^ 9)%Z) JUndefined
       (Some (JNum (inject_Z 100)))].
Proof. vm_compute. reflexivity. Qed.

Lemma onmessage_unreadable_witness :
  unreadable (Parsed notification_without_params)
  /\ onmessage (Parsed notification_without_params) 2%Z streaming
     = (Throw TypeError, streaming).
Proof.
  assert (H : unreadable (Parsed notification_without_params)).
  { right. repeat split; reflexivity. }
  split; [exact H|].
  exact (onmessage_unreadable (Parsed notification_without_params) 2%Z streaming H).
Defined.

(** C2, at the failing input.  The socket of a start fails before it has
    opened: error, then close.  Neither handler settles the promise the
    start awaits, so the start never ends: no alert is shown, then or
    later; whatever happens afterwards the button keeps loading, the screen
    is not streaming, and neither Start nor Stop can be pressed.  The
    session is not idle either: the close handler has set a reconnect
    timeout (1000 ms), and the socket that timeout makes subscribes when it
    opens. *)
Theorem failed_connection_never_settles :
  let s := run API_KEY initial_state connection_refused in
  feasible API_KEY initial_state connection_refused = true
  /\ trace (st_world s)
     = [eff_getBalance SYSTEM_PROGRAM; eff_new_WebSocket 0;
        eff_setTimeout 0 1000%Z]
  /\ timeouts (st_world s) = [mkTimeout 0 Pending]
  /\ reconnectTimeoutRef (st_refs s) = Some 0
  /\ connectionStatus (st_hooks s) = connecting
  /\ (forall es,
        let s' := run API_KEY s es in
        shown_alerts (trace (st_world s')) = []
        /\ isLoading (st_hooks s') = true
        /\ isStreaming (st_hooks s') = false
        /\ enabled s' press_start = false
        /\ enabled s' press_stop = false)
  /\ (let s' := run API_KEY s reconnected in
      feasible API_KEY s reconnected = true
      /\ subscribes (trace (st_world s')) = [1]
      /\ connectionStatus (st_hooks s') = connected
      /\ isLoading (st_hooks s') = true
      /\ isStreaming (st_hooks s') = false).
Proof.
  cbv zeta.
  split; [vm_compute; reflexivity|]. split; [vm_compute; reflexivity|].
  split; [vm_compute; reflexivity|]. split; [vm_compute; reflexivity|].
  split; [vm_compute; reflexivity|]. split; [|vm_compute; repeat split].
  intros es.
  assert (start_pending (run API_KEY initial_state connection_refused)) as H.
  { vm_compute. repeat split; repeat constructor. }
  apply (start_pending_run API_KEY es) in H.
  destruct H as (Hl & Hs & _ & _ & Ha).
  unfold enabled. rewrite Hl, Hs. repeat split; assumption.
Qed.

(** A start that fails at its balance request is not the end either, when
    the close event of the socket of the session before it is still to
    come.  The start has cleared the flag of the intentional close, so the
    close handler takes that close for a drop: after the alert, with the
    screen neither streaming nor loading, a reconnect timeout is set, and
    the socket it makes subscribes. *)
Lemma failed_restart_reconnects :
  let s := run API_KEY initial_state failed_restart in
  feasible API_KEY initial_state failed_restart = true
  /\ shown_alerts (trace (st_world s)) = [("Error", "fetch failed")]
  /\ delays (trace (st_world s)) = [1000%Z]
  /\ subscribes (trace (st_world s)) = [0; 1]
  /\ isStreaming (st_hooks s) = false
  /\ isLoading (st_hooks s) = false
  /\ connectionStatus (st_hooks s) = connected.
Proof. vm_compute. repeat split. Qed.

Lemma failed_start_witness :
  let s := exec API_KEY initial_state (onChangeText SYSTEM_PROGRAM) in
  let s' := run API_KEY s [press_start; balance_rejected "fetch failed"] in
  let c := run API_KEY s [press_start; balance_resolved one_sol 1%Z] in
  let c' := exec API_KEY c (ws_onclose 0) in
  (trace (st_world s')
   = [eff_getBalance SYSTEM_PROGRAM; eff_alert "Error" "fetch failed"]
   /\ isStreaming (st_hooks s') = false
   /\ isLoading (st_hooks s') = false
   /\ sockets (st_world s') = []
   /\ timeouts (st_world s') = []
   /\ pendingBalance (st_world s') = None)
  /\ (timeouts (st_world c') = [mkTimeout 0 Pending]
      /\ reconnectTimeoutRef (st_refs c') = Some 0
      /\ connectionStatus (st_hooks c') = connecting
      /\ delays (trace (st_world c')) = [1000%Z]).
Proof.
  assert (Hkey : API_KEY <> "") by discriminate.
  split.
  - exact (proj1 (failed_start API_KEY Hkey
                    (exec API_KEY initial_state (onChangeText SYSTEM_PROGRAM))
                    "fetch failed" 0 (mkWebSocket CONNECTING SYSTEM_PROGRAM 0 true))
                 eq_refl eq_refl eq_refl).
  - exact (proj2 (failed_start API_KEY Hkey
                    (run API_KEY
                       (exec API_KEY initial_state (onChangeText SYSTEM_PROGRAM))
                       [press_start; balance_resolved one_sol 1%Z])
                    "fetch failed" 0 (mkWebSocket CONNECTING SYSTEM_PROGRAM 0 true))
                 eq_refl eq_refl eq_refl).
Defined.

(** C3, at the failing input.  The stream is dropped and the next two
    connections fail: the three reconnect delays are 1000 ms each, while the
    attempt counter goes to 3. *)
Theorem reconnect_delays_do_not_grow :
  let s := run API_KEY initial_state three_closes in
  feasible API_KEY initial_state three_closes = true
  /\ delays (trace (st_world s)) = [1000; 1000; 1000]%Z
  /\ reconnectAttempts (st_hooks s) = 3.
Proof. vm_compute. repeat split. Qed.

(** C4, at the failing input.  After the second stop the flag is set, and
    yet the socket the stray reconnect had made opens and sends a subscribe
    request; the status becomes connected. *)
Theorem subscribe_after_stop :
  let s := run API_KEY initial_state restart_then_stop in
  let s' := exec API_KEY s (ws_onopen 1) in
  feasible API_KEY initial_state (restart_then_stop ++ [ws_onopen 1]) = true
  /\ isIntentionalCloseRef (st_refs s) = true
  /\ wsRef (st_refs s) = None
  /\ subscribes (trace (st_world s)) = [0; 2]
  /\ subscribes (trace (st_world s')) = [0; 2; 1]
  /\ connectionStatus (st_hooks s') = connected.
Proof. vm_compute. repeat split. Qed.

Lemma invalid_address_rejected_witness :
  let s := exec API_KEY initial_state (onChangeText "hello") in
  let s' := snd (handleStartStreaming API_KEY s) in
  validateSolanaAddress (address (st_hooks s)) = false
  /\ fst (handleStartStreaming API_KEY s) = Ret tt
  /\ trace (st_world s') = [eff_alert "Error" "Invalid Solana address"]
  /\ st_hooks s' = st_hooks s
  /\ st_refs s' = st_refs s
  /\ sockets (st_world s') = []
  /\ timeouts (st_world s') = []
  /\ intervals (st_world s') = []
  /\ pendingBalance (st_world s') = None.
Proof.
  split; [reflexivity|].
  exact (invalid_address_rejected API_KEY
           (exec API_KEY initial_state (onChangeText "hello")) eq_refl).
Defined.

Lemma notifications_in_order_witness :
  let ns := [(100%Z, account 1500000000, 2%Z); (99%Z, account 1200000000, 3%Z)] in
  option_map ws_readyState (socket streaming 0) = Some OPEN
  /\ balanceUpdates
       (st_hooks (run API_KEY streaming (map (notification 0 7%Z) ns)))
     = [seed_update one_sol 1%Z] ++ map update_of ns.
Proof.
  split; [reflexivity|].
  exact (notifications_in_order API_KEY streaming 0 7%Z
           [(100%Z, account 1500000000, 2%Z); (99%Z, account 1200000000, 3%Z)]
           eq_refl).
Defined.

Lemma onmessage_null_value_witness :
  let data := json_of_update (mkAccountUpdate 100 None 7) in
  get_path data ["params"; "result"; "value"] = Ret JNull
  /\ st_hooks (snd (onmessage (Parsed data) 2%Z streaming)) = st_hooks streaming.
Proof.
  split; [reflexivity|].
  exact (onmessage_null_value (json_of_update (mkAccountUpdate 100 None 7))
           2%Z streaming eq_refl).
Defined.

Lemma start_resets_history_witness :
  let s :=
    run API_KEY streaming
      [notification 0 7%Z (100%Z, account 1500000000, 2%Z);
       notification 0 7%Z (101%Z, account 1200000000, 3%Z);
       press_stop] in
  let s3 :=
    run API_KEY s [press_start; balance_resolved 1200000000 4%Z; ws_onopen 1] in
  List.length (balanceUpdates (st_hooks s)) = 3
  /\ enabled s press_start = true
  /\ balanceUpdates (st_hooks s3) = [seed_update 1200000000 4%Z]
  /\ isStreaming (st_hooks s3) = true.
Proof.
  split; [reflexivity|]. split; [reflexivity|].
  assert (Hkey : API_KEY <> "") by discriminate.
  pose proof (start_resets_history API_KEY Hkey
                (run API_KEY streaming
                   [notification 0 7%Z (100%Z, account 1500000000, 2%Z);
                    notification 0 7%Z (101%Z, account 1200000000, 3%Z);
                    press_stop])
                1200000000%Z 4%Z eq_refl eq_refl eq_refl)
    as (_ & _ & _ & H3 & H4 & _).
  split; [exact H3|exact H4].
Defined.

(** * Further properties *)

(** ** The live balance screen *)

Lemma nth_error_update_nth_other {A : Type} (f : A -> A) (l : list A) (i j : nat) :
  i <> j -> nth_error (update_nth j f l) i = nth_error l i.
Proof.
  revert i j; induction l as [|y l IH]; intros [|i] [|j] Hij; simpl; auto;
    try congruence.
Qed.

Lemma interval_cleared (l : list bool) (j i : nat) :
  (forall i, nth_error l i = Some true -> j = i) ->
  nth_error (update_nth j (fun _ => false) l) i <> Some true.
Proof.
  intros H Hi. destruct (Nat.eq_dec i j) as [->|Hne].
  - rewrite nth_error_update_nth in Hi.
    destruct (nth_error l j); discriminate.
  - rewrite nth_error_update_nth_other in Hi by exact Hne.
    apply H in Hi. congruence.
Qed.

Lemma interval_started (l : list bool) (i : nat) :
  (forall i, nth_error l i <> Some true) ->
  nth_error (l ++ [true]) i = Some true -> List.length l = i.
Proof.
  intros H Hi. destruct (Nat.lt_ge_cases i (List.length l)) as [Hlt|Hge].
  - rewrite nth_error_app1 in Hi by exact Hlt. now apply H in Hi.
  - rewrite nth_error_app2 in Hi by exact Hge.
    destruct (i - List.length l) as [|[|k]] eqn:Hk; simpl in Hi;
      try discriminate. lia.
Qed.

Lemma Forall_update_nth {A : Type} (P : A -> Prop) (f : A -> A) (l : list A)
    (i : nat) :
  (forall x, P x -> P (f x)) -> Forall P l -> Forall P (update_nth i f l).
Proof.
  intros Hf H. revert i. induction H as [|x l Hx Hl IH]; intros [|i]; simpl;
    constructor; auto.
Qed.

Section Screen.

Variable HELIUS_API_KEY : string.

Lemma settled_step (e : event) (s : state) :
  settled s -> settled (exec HELIUS_API_KEY s e).
Proof.
  intros HI. unfold exec, step. destruct (enabled s e) eqn:Hen; [|exact HI].
  destruct e.
  7: { unfold dispatch. destruct (onmessage_cases data now s); exact HI. }
  all: unfold settled in *; run_callback; try discriminate; auto.
Qed.

(** X1.  The status line never reads "Connected (recovered from ... attempts)":
    whenever the status is connected the counter is 0 and the text is
    "Connected". *)
Theorem connected_status_text (es : list event) :
  let h := st_hooks (run HELIUS_API_KEY initial_state es) in
  connectionStatus h = connected ->
  reconnectAttempts h = 0
  /\ getStatusText (connectionStatus h) (reconnectAttempts h) = "Connected".
Proof.
  intros h Hc.
  assert (H : settled (run HELIUS_API_KEY initial_state es)).
  { apply run_preserves; [intros; now apply settled_step|]. discriminate. }
  specialize (H Hc). fold h in H. split; [exact H|].
  rewrite Hc, H. reflexivity.
Qed.

Lemma one_keepalive_step (e : event) (s : state) :
  one_keepalive s -> one_keepalive (exec HELIUS_API_KEY s e).
Proof.
  intros HI. unfold exec, step. destruct (enabled s e) eqn:Hen; [|exact HI].
  destruct e.
  7: { unfold dispatch. destruct (onmessage_cases data now s); exact HI. }
  all: unfold one_keepalive in *; run_callback; try exact HI;
    try discriminate.
  all: intros i Hi.
  all: try (apply HI in Hi; congruence).
  all: try (exfalso; revert Hi; apply interval_cleared;
            intros k Hk; apply HI in Hk; congruence).
  all: f_equal; revert Hi; apply interval_started; intros k Hk.
  all: try (revert Hk; apply interval_cleared;
            intros k' Hk'; apply HI in Hk'; congruence).
  all: apply HI in Hk; discriminate.
Qed.

(** X2.  At most one keepalive interval runs at any time, the one
    [pingIntervalRef] holds; after a stop none runs. *)
Theorem single_keepalive_interval (es : list event) :
  let s := run HELIUS_API_KEY initial_state es in
  (forall i, nth_error (intervals (st_world s)) i = Some true ->
             pingIntervalRef (st_refs s) = Some i)
  /\ (forall i,
         nth_error (intervals (st_world (snd (handleStopStreaming s)))) i
         <> Some true).
Proof.
  intros s.
  assert (HI : one_keepalive s).
  { apply run_preserves; [intros; now apply one_keepalive_step|].
    intros [|i]; discriminate. }
  split; [exact HI|].
  unfold one_keepalive in HI.
  unfold handleStopStreaming; unfold_callbacks; unfold_monad; simpl.
  repeat (break_match; simpl); intros i Hi.
  all: try (apply HI in Hi; congruence).
  all: revert Hi; apply interval_cleared; intros k Hk; apply HI in Hk;
    congruence.
Qed.

Lemma card_matches_step (e : event) (s : state) :
  card_matches s -> card_matches (exec HELIUS_API_KEY s e).
Proof.
  intros HI. unfold exec, step. destruct (enabled s e) eqn:Hen; [|exact HI].
  destruct e.
  7: { unfold dispatch. destruct (onmessage_cases data now s); try exact HI.
       unfold card_matches, updated_state; unfold_monad; simpl.
       rewrite rev_app_distr. reflexivity. }
  all: unfold card_matches in *; run_callback; try exact HI; auto.
Qed.

Lemma jsval_nested_ind (P : jsval -> Prop) :
  P JUndefined -> P JNull -> (forall b, P (JBool b)) ->
  (forall q, P (JNum q)) -> (forall s, P (JStr s)) ->
  (forall items, Forall P items -> P (JArr items)) ->
  (forall props, P (JObj props)) ->
  forall v, P v.
Proof.
  intros Hundefined Hnull Hbool Hnum Hstr Harr Hobj. fix IH 1.
  intros [| |b|q|s|items|props];
    [exact Hundefined | exact Hnull | apply Hbool | apply Hnum | apply Hstr
    | | apply Hobj].
  apply Harr. induction items as [|x items IHitems]; constructor;
    [apply IH | exact IHitems].
Qed.

(** The values a division throws on are values [toLocaleString] throws on. *)
Lemma toLocaleString_throws_too (v : jsval) :
  cannot_convert v = true -> toLocaleString_returns v = false.
Proof.
  induction v as [| |b|q|s|items IH|props] using jsval_nested_ind; simpl;
    try discriminate.
  - induction IH as [|x items Hx _ IHitems]; simpl; [discriminate|].
    intros H. apply orb_true_iff in H. destruct H as [H|H].
    + specialize (Hx H). destruct x; simpl in *; try discriminate;
        now rewrite Hx.
    + rewrite (IHitems H). apply andb_false_r.
  - intros ->. apply andb_false_r.
Qed.

Lemma rows_from_spec (updates : list BalanceUpdate) (index : nat) :
  match rows_from index updates with
  | Ret rows =>
      List.length rows = List.length updates
      /\ (forall i update,
            nth_error updates i = Some update ->
            nth_error rows i
            = Some (mkRow (timestamp update, index + i) (timestamp update)
                          (shown_slot (slot update)) (balance update)
                          (lamports update)))
      /\ Forall (fun update => toLocaleString_returns (lamports update) = true)
                updates
  | Throw e =>
      e = TypeError
      /\ exists update, In update updates
                        /\ toLocaleString_returns (lamports update) = false
  end.
Proof.
  revert index. induction updates as [|u l IH]; intros index; simpl.
  - repeat split; [|constructor]. intros [|i] update; discriminate.
  - unfold row, toLocaleString.
    destruct (toLocaleString_returns (lamports u)) eqn:Hf; simpl.
    + specialize (IH (S index)).
      destruct (rows_from (S index) l) as [rows|e]; simpl.
      * destruct IH as (Hlen & Hnth & Hall). repeat split.
        -- now rewrite Hlen.
        -- intros [|i] update Hi; simpl in *.
           ++ injection Hi as <-. now rewrite Nat.add_0_r.
           ++ rewrite (Hnth i update Hi). repeat f_equal. lia.
        -- constructor; [exact Hf | exact Hall].
      * destruct IH as (-> & update & Hin & Hbad). split; [reflexivity|].
        exists update. split; [now right | exact Hbad].
    + split; [reflexivity|]. exists u. split; [now left | exact Hf].
Qed.

Lemma row_children_valid_slot (key : Z * nat) (time : Z)
    (update : BalanceUpdate) :
  row_children_valid (mkRow key time (shown_slot (slot update))
                            (balance update) (lamports update)) = true
  <-> (forall v, slot update = Some v -> valid_child v = true).
Proof.
  unfold row_children_valid, shown_slot; simpl.
  destruct (slot update) as [v|].
  - split.
    + intros H v' Hv. injection Hv as <-. now destruct (truthy v).
    + intros H. specialize (H v eq_refl). now destruct (truthy v).
  - split; [intros _ v Hv; discriminate | reflexivity].
Qed.

Lemma rows_from_children_valid (updates : list BalanceUpdate) (index : nat)
    (rows : list history_row) :
  rows_from index updates = Ret rows ->
  children_valid rows = true
  <-> Forall (fun update => forall v, slot update = Some v ->
                                      valid_child v = true) updates.
Proof.
  revert index rows. induction updates as [|u l IH]; intros index rows; simpl.
  - intros H. injection H as <-. split; [constructor | reflexivity].
  - unfold row, toLocaleString.
    destruct (toLocaleString_returns (lamports u)); simpl; [|discriminate].
    destruct (rows_from (S index) l) as [others|e] eqn:Hothers; simpl;
      [|discriminate].
    intros H. injection H as <-. specialize (IH (S index) others Hothers).
    unfold children_valid in *. cbn [forallb]. rewrite andb_true_iff, IH.
    rewrite row_children_valid_slot. split.
    + intros [Hu Hl]. now constructor.
    + intros H. inversion H; subst. split; assumption.
Qed.

Lemma NoDup_nth_error_injective {A B : Type} (f : A -> B) (l : list A) :
  (forall i j x y, nth_error l i = Some x -> nth_error l j = Some y ->
                   f x = f y -> i = j) ->
  NoDup (map f l).
Proof.
  induction l as [|x l IH]; intros Hinj; simpl; constructor.
  - intros Hin. apply in_map_iff in Hin. destruct Hin as (y & Hy & Hin).
    apply In_nth_error in Hin. destruct Hin as [j Hj].
    specialize (Hinj 0 (S j) x y eq_refl Hj (eq_sym Hy)). discriminate.
  - apply IH. intros i j a b Hi Hj Hab.
    specialize (Hinj (S i) (S j) a b Hi Hj Hab). congruence.
Qed.

(** X3.  What the history component returns: the placeholder for an empty
    history; else one row for each record, the newest on top, under keys
    that are pairwise distinct, the slot of a row being the text element
    when the slot of the record is truthy and the value itself when it is
    not.  The call throws, a TypeError, exactly when
    [update.lamports.toLocaleString()] throws for some record.  The rows
    pass React's check of children exactly when no record has an object for
    its slot, be it inside arrays. *)
Theorem balance_history_rows (updates : list BalanceUpdate) :
  match BalanceHistory updates with
  | Ret None => updates = []
  | Ret (Some rows) =>
      updates <> []
      /\ List.length rows = List.length updates
      /\ (forall i update,
            nth_error (rev updates) i = Some update ->
            nth_error rows i
            = Some (mkRow (timestamp update, i) (timestamp update)
                          (shown_slot (slot update)) (balance update)
                          (lamports update)))
      /\ NoDup (map row_key rows)
      /\ Forall (fun update => toLocaleString_returns (lamports update) = true)
                updates
      /\ (children_valid rows = true
          <-> forall update v, In update updates -> slot update = Some v ->
                               valid_child v = true)
  | Throw e =>
      e = TypeError
      /\ exists update, In update updates
                        /\ toLocaleString_returns (lamports update) = false
  end.
Proof.
  unfold BalanceHistory.
  destruct updates as [|u l]; [reflexivity|].
  change (Nat.eqb (List.length (u :: l)) 0) with false. cbv iota.
  pose proof (rows_from_spec (rev (u :: l)) 0) as Hspec.
  pose proof (rows_from_children_valid (rev (u :: l)) 0) as Hvalid.
  destruct (rows_from 0 (rev (u :: l))) as [rows|e]; simpl and_then.
  - destruct Hspec as (Hlen & Hnth & Hall).
    specialize (Hvalid rows eq_refl).
    split; [|split; [|split; [|split; [|split]]]].
    6: { rewrite Hvalid, Forall_forall. split.
         - intros H update v Hin. apply H. now apply in_rev in Hin.
         - intros H update Hin v. apply H. now apply in_rev. }
    + discriminate.
    + now rewrite Hlen, length_rev.
    + exact Hnth.
    + apply NoDup_nth_error_injective. intros i j x y Hi Hj Hkey.
      assert (i < List.length (rev (u :: l))) as Hilt
        by (rewrite <- Hlen; apply nth_error_Some; congruence).
      assert (j < List.length (rev (u :: l))) as Hjlt
        by (rewrite <- Hlen; apply nth_error_Some; congruence).
      apply nth_error_Some in Hilt, Hjlt.
      destruct (nth_error (rev (u :: l)) i) as [a|] eqn:Ha; [|congruence].
      destruct (nth_error (rev (u :: l)) j) as [b|] eqn:Hb; [|congruence].
      rewrite (Hnth i a Ha) in Hi. rewrite (Hnth j b Hb) in Hj.
      injection Hi as <-. injection Hj as <-. simpl in Hkey. congruence.
    + apply Forall_rev in Hall. now rewrite rev_involutive in Hall.
  - destruct Hspec as (-> & update & Hin & Hbad). split; [reflexivity|].
    exists update. split; [|exact Hbad]. now apply in_rev.
Qed.

(** X4.  Whenever the screen renders with a history, the top row is the newest
    record and the balance card shows the same lamports and the same
    quotient as that row. *)
Theorem balance_card_matches_history (es : list event) (v : view)
    (top : history_row) (below : list history_row) :
  let h := st_hooks (run HELIUS_API_KEY initial_state es) in
  render (run HELIUS_API_KEY initial_state es) = Ret v ->
  history v = Some (top :: below) ->
  balance_card v = Some (row_balance top, row_lamports top)
  /\ row_lamports top = currentBalance h
  /\ exists older newest,
       balanceUpdates h = older ++ [newest]
       /\ row_timestamp top = timestamp newest
       /\ row_lamports top = lamports newest
       /\ List.length (top :: below) = List.length (balanceUpdates h).
Proof.
  intros h Hrender Hrows.
  assert (HI : card_matches (run HELIUS_API_KEY initial_state es)).
  { apply run_preserves; [intros; now apply card_matches_step|]. exact I. }
  assert (HC : Forall coherent (balanceUpdates h)).
  { apply (run_invariant HELIUS_API_KEY (Forall coherent));
      try (repeat constructor).
    intros l now lam sl H. apply Forall_app. split; [exact H|].
    repeat constructor. }
  unfold card_matches in HI. fold h in HI.
  unfold render in Hrender. fold h in Hrender.
  destruct (rev (balanceUpdates h)) as [|newest older] eqn:Hrev.
  { apply (f_equal (@rev _)) in Hrev. rewrite rev_involutive in Hrev.
    simpl in Hrev. rewrite Hrev in Hrender. simpl in Hrender.
    unfold toLocaleString, lamportsToSol in Hrender.
    destruct (not_null (currentBalance h)); simpl in Hrender;
      [destruct (cannot_convert (currentBalance h)); simpl in Hrender;
       [|destruct (toLocaleString_returns (currentBalance h));
         simpl in Hrender]|];
      try discriminate; injection Hrender as <-; discriminate. }
  assert (Hh : balanceUpdates h = rev older ++ [newest]).
  { rewrite <- (rev_involutive (balanceUpdates h)), Hrev. reflexivity. }
  unfold BalanceHistory in Hrender.
  replace (Nat.eqb (List.length (balanceUpdates h)) 0) with false in Hrender
    by (rewrite Hh, length_app; simpl; symmetry; apply Nat.eqb_neq; lia).
  rewrite Hrev in Hrender.
  pose proof (rows_from_spec (newest :: older) 0) as Hspec.
  destruct (rows_from 0 (newest :: older)) as [rows|e].
  2:{ unfold toLocaleString, lamportsToSol in Hrender.
      destruct (not_null (currentBalance h)); simpl in Hrender;
        [destruct (cannot_convert (currentBalance h)); simpl in Hrender;
         [|destruct (toLocaleString_returns (currentBalance h));
           simpl in Hrender]|]; discriminate. }
  destruct Hspec as (Hlen & Hnth & Hall).
  rewrite Hh in HC. apply Forall_app in HC. destruct HC as [_ HC].
  inversion HC as [|? ? Hco _]; subst.
  inversion Hall as [|? ? Hreturns _]; subst.
  unfold coherent in Hco.
  specialize (Hnth 0 newest eq_refl).
  assert (not_null (currentBalance h) = true) as Hcard.
  { rewrite HI. destruct (lamports newest); auto; discriminate. }
  rewrite Hcard in Hrender.
  assert (cannot_convert (lamports newest) = false) as Hconverts.
  { destruct (cannot_convert (lamports newest)) eqn:Hc; [|reflexivity].
    apply toLocaleString_throws_too in Hc. congruence. }
  unfold toLocaleString, lamportsToSol in Hrender.
  rewrite HI, Hconverts, Hreturns in Hrender.
  simpl in Hrender. injection Hrender as <-.
  simpl in Hrows. injection Hrows as Hrows. subst rows. simpl in Hnth.
  injection Hnth as ->. simpl.
  repeat split.
  - rewrite Hco. reflexivity.
  - now rewrite HI.
  - exists (rev older), newest. repeat split; auto.
    rewrite Hh, length_app, length_rev. simpl in *. lia.
Qed.

Lemma addresses_valid_step (e : event) (s : state) :
  addresses_valid s -> addresses_valid (exec HELIUS_API_KEY s e).
Proof.
  intros HI. unfold exec, step. destruct (enabled s e) eqn:Hen; [|exact HI].
  destruct e.
  7: { unfold dispatch. destruct (onmessage_cases data now s); exact HI. }
  all: destruct HI as (Hs & Hc & Hp); unfold addresses_valid;
    run_callback; try discriminate.
  all: repeat split; simpl; auto; try discriminate.
  all: repeat match goal with
    | |- Forall _ (_ ++ [_]) => apply Forall_app; split; [|repeat constructor; simpl]
    | |- Forall _ (update_nth _ _ _) =>
        apply Forall_update_nth; [|assumption];
        let x := fresh "x" in
        intros x ?; unfold closing, with_readyState;
        destruct (ws_readyState x); simpl; assumption
    | |- _ \/ validateSolanaAddress _ = true =>
        right; apply negb_false_iff; assumption
    | |- forall _ _, Some _ = Some _ -> _ =>
        let H := fresh in
        intros ? ? H; injection H as <- <-; apply negb_false_iff; assumption
    end; auto.
  - eapply Hp; reflexivity.
  - destruct Hc as [Hc|Hc]; [|exact Hc].
    rewrite Hc in *. discriminate.
Qed.

(** X6.  No callback but the message handler throws: in every state the
    component can reach, every other event (a key typed, Start, Stop, the
    balance request settling, a socket opening, failing or closing, a timer
    firing) runs its callback to the end. *)
Theorem only_onmessage_throws (es : list event) (e : event) :
  (forall ws data now, e <> ws_onmessage ws data now) ->
  fst (step HELIUS_API_KEY e (run HELIUS_API_KEY initial_state es)) = Ret tt.
Proof.
  intros He.
  assert (HI : addresses_valid (run HELIUS_API_KEY initial_state es)).
  { apply run_preserves; [intros; now apply addresses_valid_step|].
    repeat split; simpl; auto; discriminate. }
  revert HI. generalize (run HELIUS_API_KEY initial_state es) as s.
  intros s (Hs & Hc & Hp).
  unfold step. destruct (enabled s e) eqn:Hen; [|reflexivity].
  destruct e.
  7: { exfalso. eapply He. reflexivity. }
  all: run_callback; try reflexivity.
  all: exfalso; unfold socket in *; simpl in *;
    rewrite nth_error_update_nth in *;
    destruct (nth_error (sockets (st_world s)) ws) as [x|] eqn:Hx;
    simpl in *; try discriminate.
  all: try (match goal with
            | H : Some (with_readyState OPEN _) = Some ?w,
              H' : ws_readyState ?w = CONNECTING |- _ =>
                injection H as <-; discriminate H'
            end).
  all: match goal with
       | H : Some (with_readyState OPEN _) = Some ?w,
         H' : new_PublicKey (ws_walletAddress ?w) = Throw _ |- _ =>
           injection H as <-; simpl in H';
           apply nth_error_In in Hx;
           rewrite Forall_forall in Hs; apply Hs in Hx;
           unfold validateSolanaAddress in Hx; rewrite H' in Hx;
           discriminate
       end.
Qed.



Lemma subscribes_app (tr tr' : list effect) :
  subscribes (tr ++ tr') = subscribes tr ++ subscribes tr'.
Proof.
  induction tr as [|[] tr IH]; simpl; rewrite ?IH; try reflexivity.
  destruct r; simpl; rewrite ?IH; reflexivity.
Qed.

Lemma new_PublicKey_length (address : string) (publicKey : list byte) :
  new_PublicKey address = Ret publicKey -> List.length publicKey = 32.
Proof.
  unfold new_PublicKey. destruct (bs58_decode address) as [decoded|];
    [|discriminate].
  destruct (Nat.eqb (List.length decoded) PUBLIC_KEY_LENGTH) eqn:Hlen;
    [|discriminate].
  intros H; injection H as <-. apply Nat.eqb_eq in Hlen. exact Hlen.
Qed.

Lemma advances_refl (l : list websocket) : advances l l.
Proof. intros i sock H. eauto. Qed.

Lemma advances_snoc (l : list websocket) (x : websocket) : advances l (l ++ [x]).
Proof.
  intros i sock H. exists sock. split; [|auto].
  rewrite nth_error_app1; [exact H|]. apply nth_error_Some. congruence.
Qed.

Lemma advances_update_nth (f : websocket -> websocket) (l : list websocket)
    (j : nat) :
  (forall x, ws_readyState (f x) = CONNECTING -> ws_readyState x = CONNECTING) ->
  advances l (update_nth j f l).
Proof.
  intros Hf i sock H. destruct (Nat.eq_dec i j) as [->|Hne].
  - rewrite nth_error_update_nth, H; simpl. eauto.
  - rewrite nth_error_update_nth_other by exact Hne. eauto.
Qed.

Lemma advances_trans (l l' l'' : list websocket) :
  advances l l' -> advances l' l'' -> advances l l''.
Proof.
  intros H1 H2 i sock H. destruct (H1 i sock H) as (sock' & H' & Hc').
  destruct (H2 i sock' H') as (sock'' & H'' & Hc''). eauto.
Qed.

Lemma closing_not_connecting (x : websocket) :
  ws_readyState (closing x) = CONNECTING -> ws_readyState x = CONNECTING.
Proof. unfold closing. destruct (ws_readyState x) eqn:H; simpl; congruence. Qed.

Lemma sockets_advance (e : event) (s : state) :
  advances (sockets (st_world s)) (sockets (st_world (exec HELIUS_API_KEY s e))).
Proof.
  unfold exec, step. destruct (enabled s e) eqn:Hen; [|apply advances_refl].
  destruct e.
  7: { unfold dispatch. rewrite onmessage_world. apply advances_refl. }
  all: run_callback; try apply advances_refl.
  all: repeat first
    [ apply advances_snoc
    | apply advances_update_nth;
      first [ apply closing_not_connecting | simpl; discriminate ]
    | eapply advances_trans;
      [ apply advances_update_nth;
        first [ apply closing_not_connecting | simpl; discriminate ] | ] ].
Qed.

(** Only the opening of a socket sends a subscribe request, and it sends
    one. *)
Lemma subscribes_step (e : event) (s : state) :
  subscribes (trace (st_world (exec HELIUS_API_KEY s e)))
  = subscribes (trace (st_world s))
  \/ exists ws sock,
       e = ws_onopen ws
       /\ socket s ws = Some sock
       /\ ws_readyState sock = CONNECTING
       /\ subscribes (trace (st_world (exec HELIUS_API_KEY s e)))
          = subscribes (trace (st_world s)) ++ [ws].
Proof.
  unfold exec, step. destruct (enabled s e) eqn:Hen; [|left; reflexivity].
  destruct e.
  7: { left. unfold dispatch. rewrite onmessage_world. reflexivity. }
  6: { unfold enabled in Hen.
       destruct (socket s ws) as [sock|] eqn:Hsock; [|discriminate].
       simpl in Hen.
       destruct (ws_readyState sock) eqn:Hrs; try discriminate.
       run_callback; rewrite ?subscribes_app; simpl; rewrite ?app_nil_r;
         first [ left; reflexivity
               | right; exists ws, sock; repeat split; auto ]. }
  all: left; run_callback; rewrite ?subscribes_app; simpl;
    rewrite ?app_nil_r; reflexivity.
Qed.

(** The socket an open event is for is open afterwards. *)
Lemma onopen_opens (s : state) (ws : nat) (sock : websocket) :
  socket s ws = Some sock ->
  ws_readyState sock = CONNECTING ->
  exists sock',
    socket (exec HELIUS_API_KEY s (ws_onopen ws)) ws = Some sock'
    /\ ws_readyState sock' = OPEN.
Proof.
  intros Hsock Hrs.
  assert (Hen : enabled s (ws_onopen ws) = true).
  { unfold enabled. rewrite Hsock; simpl. rewrite Hrs. reflexivity. }
  unfold exec, step. rewrite Hen.
  unfold socket in *.
  run_callback; rewrite ?nth_error_update_nth, Hsock; simpl; eauto.
Qed.

Lemma subscribed_once_step (e : event) (s : state) :
  subscribed_once s -> subscribed_once (exec HELIUS_API_KEY s e).
Proof.
  intros (Hnd & Hpast).
  assert (Hadv := sockets_advance e s).
  destruct (subscribes_step e s) as [Heq|(ws & sock & -> & Hsock & Hrs & Heq)];
    unfold subscribed_once; rewrite Heq.
  - split; [exact Hnd|]. intros ws Hin.
    destruct (Hpast ws Hin) as (sock & Hsock & Hrs).
    destruct (Hadv ws sock Hsock) as (sock' & Hsock' & Hc).
    exists sock'. split; [exact Hsock'|]. intros Hc'. apply Hrs, Hc, Hc'.
  - split.
    + apply NoDup_app; [exact Hnd|repeat constructor; simpl; tauto|].
      intros x Hin [Hx|[]]. subst x.
      destruct (Hpast ws Hin) as (sock0 & Hsock0 & Hrs0). congruence.
    + intros x Hin. apply in_app_or in Hin. destruct Hin as [Hin|[<-|[]]].
      * destruct (Hpast x Hin) as (sock0 & Hsock0 & Hrs0).
        destruct (Hadv x sock0 Hsock0) as (sock' & Hsock' & Hc).
        exists sock'. split; [exact Hsock'|]. intros Hc'. apply Hrs0, Hc, Hc'.
      * destruct (onopen_opens s ws sock Hsock Hrs) as (sock' & Hsock' & Hopen).
        exists sock'. split; [exact Hsock'|]. congruence.
Qed.

(** X7.  A socket never sends two subscribe requests, and those that have sent
    one are past connecting. *)
Theorem one_subscribe_per_socket (es : list event) :
  let s := run HELIUS_API_KEY initial_state es in
  NoDup (subscribes (trace (st_world s)))
  /\ forall ws, In ws (subscribes (trace (st_world s))) ->
       exists sock, socket s ws = Some sock /\ ws_readyState sock <> CONNECTING.
Proof.
  apply (run_preserves HELIUS_API_KEY subscribed_once).
  - intros; now apply subscribed_once_step.
  - split; [constructor|intros ws []].
Qed.


(** X8.  A socket that opens subscribes at once: whatever run led there, the
    open handler starts the keepalive and sends [accountSubscribe] with id 1
    and the 32-byte key the socket's address decodes to. *)
Theorem open_sends_subscribe (es : list event) (ws : nat) (sock : websocket) :
  let s := run HELIUS_API_KEY initial_state es in
  socket s ws = Some sock ->
  ws_readyState sock = CONNECTING ->
  exists publicKey,
    new_PublicKey (ws_walletAddress sock) = Ret publicKey
    /\ List.length publicKey = 32
    /\ trace (st_world (exec HELIUS_API_KEY s (ws_onopen ws)))
       = trace (st_world s)
         ++ match pingIntervalRef (st_refs s) with
            | Some i => [eff_clearInterval i]
            | None => []
            end
         ++ [eff_setInterval (List.length (intervals (st_world s))) 60000%Z;
             eff_send ws (accountSubscribe 1%Z publicKey)].
Proof.
  intros s Hsock Hrs.
  assert (HI : addresses_valid s).
  { apply run_preserves; [intros; now apply addresses_valid_step|].
    repeat split; simpl; auto; discriminate. }
  destruct HI as (Hs & _ & _).
  assert (Hvalid : validateSolanaAddress (ws_walletAddress sock) = true).
  { rewrite Forall_forall in Hs. apply Hs. eapply nth_error_In, Hsock. }
  destruct (validateSolanaAddress_true _ Hvalid) as [publicKey Hkey].
  exists publicKey. split; [exact Hkey|].
  split; [exact (new_PublicKey_length _ _ Hkey)|].
  assert (Hen : enabled s (ws_onopen ws) = true).
  { unfold enabled. rewrite Hsock; simpl. rewrite Hrs. reflexivity. }
  unfold exec, step. rewrite Hen. unfold socket in Hsock.
  unfold dispatch, onopen, startPingInterval, setInterval, clearInterval,
    ws_send, start_succeeded; unfold_monad; unfold socket; simpl.
  rewrite nth_error_update_nth, Hsock; simpl. rewrite Hkey.
  destruct (pingIntervalRef (st_refs s)); simpl;
    rewrite nth_error_update_nth, Hsock; simpl;
    destruct (ws_awaited sock); simpl;
    rewrite ?length_update_nth, <- ?app_assoc; reflexivity.
Qed.

(** What [handleStopStreaming] calls on the platform, and in what order: the
    unsubscribe request, if any, before the timers are cleared and the
    socket closed. *)
Lemma handleStopStreaming_trace (s : state) :
  trace (st_world (snd (handleStopStreaming s)))
  = trace (st_world s) ++ stop_calls s.
Proof.
  unfold stop_calls, socket.
  unfold handleStopStreaming; unfold_callbacks; unfold_monad; simpl.
  repeat (break_match; simpl); try discriminate;
    repeat match goal with
           | H : Some _ = Some _ |- _ => injection H as <-
           end;
    rewrite <- ?app_assoc; simpl; rewrite ?app_nil_r; try reflexivity.
Qed.

Lemma handleStopStreaming_world (s : state) :
  let w' := st_world (snd (handleStopStreaming s)) in
  sockets w'
  = match wsRef (st_refs s) with
    | Some ws => update_nth ws closing (sockets (st_world s))
    | None => sockets (st_world s)
    end
  /\ intervals w'
     = match pingIntervalRef (st_refs s) with
       | Some i => update_nth i (fun _ => false) (intervals (st_world s))
       | None => intervals (st_world s)
       end
  /\ timeouts w'
     = match reconnectTimeoutRef (st_refs s) with
       | Some t => update_nth t cleared (timeouts (st_world s))
       | None => timeouts (st_world s)
       end.
Proof.
  unfold handleStopStreaming; unfold_callbacks; unfold_monad; simpl.
  repeat (break_match; simpl); repeat split; reflexivity.
Qed.

(** X9.  What a stop leaves, from any state: the flag set, the four handles
    null, the screen not streaming, disconnected, the counter at 0; the
    socket the session held closing or closed, the interval and the timeout
    it held dead; and on the platform the calls of [stop_calls], in that
    order. *)
Theorem stop_releases_handles (s : state) :
  let s' := snd (handleStopStreaming s) in
  st_refs s' = mkRefs JNull None None None (currentAddressRef (st_refs s)) true
  /\ st_hooks s'
     = mkHooks (address (st_hooks s)) false (currentBalance (st_hooks s))
         (balanceUpdates (st_hooks s)) (isLoading (st_hooks s)) disconnected 0
  /\ trace (st_world s') = trace (st_world s) ++ stop_calls s
  /\ (forall ws sock',
         wsRef (st_refs s) = Some ws -> socket s' ws = Some sock' ->
         ws_readyState sock' = CLOSING \/ ws_readyState sock' = CLOSED)
  /\ (forall i,
         pingIntervalRef (st_refs s) = Some i ->
         nth_error (intervals (st_world s')) i <> Some true)
  /\ (forall t,
         reconnectTimeoutRef (st_refs s) = Some t ->
         option_map to_status (nth_error (timeouts (st_world s')) t)
         <> Some Pending).
Proof.
  intros s'. destruct (handleStopStreaming_world s) as (Hsk & Hiv & Hto).
  fold s' in Hsk, Hiv, Hto.
  split; [|split; [|split; [apply handleStopStreaming_trace|]]].
  - subst s'. unfold handleStopStreaming; unfold_callbacks; unfold_monad;
      simpl. repeat (break_match; simpl); reflexivity.
  - subst s'. unfold handleStopStreaming; unfold_callbacks; unfold_monad;
      simpl. repeat (break_match; simpl); reflexivity.
  - split; [|split].
    + intros ws sock' Hws. unfold socket. rewrite Hsk, Hws.
      rewrite nth_error_update_nth.
      destruct (nth_error (sockets (st_world s)) ws) as [x|]; simpl;
        [|discriminate].
      intros H; injection H as <-. unfold closing.
      destruct (ws_readyState x) eqn:Hx; simpl; auto.
    + intros i Hi. rewrite Hiv, Hi, nth_error_update_nth.
      destruct (nth_error (intervals (st_world s)) i); discriminate.
    + intros t Ht. rewrite Hto, Ht, nth_error_update_nth.
      destruct (nth_error (timeouts (st_world s)) t) as [x|]; simpl;
        [|discriminate].
      unfold cleared. destruct (to_status x) eqn:Hx; simpl; rewrite ?Hx;
        discriminate.
Qed.

(** X10.  The subscription id goes round: what the confirmation message brought
    in [result] is what the unsubscribe request of the next stop carries,
    and that request leaves before the socket is closed. *)
Theorem unsubscribe_carries_confirmed_id (s : state) (ws : nat)
    (sock : websocket) (data id result : jsval) (now : Z) :
  wsRef (st_refs s) = Some ws ->
  socket s ws = Some sock ->
  ws_readyState sock = OPEN ->
  get_prop data "id" = Ret id ->
  strict_eq_num id 1 = true ->
  get_prop data "result" = Ret result ->
  truthy result = true ->
  let s1 := snd (onmessage (Parsed data) now s) in
  subscriptionIdRef (st_refs s1) = result
  /\ st_hooks s1 = st_hooks s
  /\ trace (st_world (snd (handleStopStreaming s1)))
     = trace (st_world s)
       ++ [eff_send ws (accountUnsubscribe 2 result)]
       ++ match pingIntervalRef (st_refs s) with
          | Some i => [eff_clearInterval i]
          | None => []
          end
       ++ match reconnectTimeoutRef (st_refs s) with
          | Some t => [eff_clearTimeout t]
          | None => []
          end
       ++ [eff_close ws].
Proof.
  intros Hws Hsock Hopen Hid H1 Hres Htruthy s1.
  assert (Hs1 : s1 = confirmed_state result s).
  { subst s1. unfold onmessage, bind, lift, ret; simpl JSON_parse;
      cbv iota beta. rewrite Hid, H1, Hres, Htruthy. reflexivity. }
  rewrite Hs1. split; [reflexivity|]. split; [reflexivity|].
  rewrite handleStopStreaming_trace. unfold stop_calls, socket in *; simpl.
  rewrite Hws, Hsock; simpl. rewrite Hopen.
  destruct result; simpl in *; try discriminate; reflexivity.
Qed.

Lemma not_one_when_999 (id : jsval) :
  strict_eq_num id 999 = true -> strict_eq_num id 1 = false.
Proof.
  destruct id; simpl; try discriminate.
  intros H. apply Qeq_bool_iff in H.
  destruct (Qeq_bool q (inject_Z 1)) eqn:H1; [|reflexivity].
  apply Qeq_bool_iff in H1. rewrite H in H1. discriminate.
Qed.

(** X11.  Messages the handler lets pass without a trace: a message that is not
    the subscription confirmation (id 1 with a truthy result) and either
    answers the keepalive (id 999) or is not an account notification.  The
    answer to an unsubscribe and an error answer to the subscribe request
    are of that kind. *)
Theorem other_messages_ignored (data id result method : jsval) (now : Z)
    (s : state) :
  get_prop data "id" = Ret id ->
  get_prop data "result" = Ret result ->
  get_prop data "method" = Ret method ->
  strict_eq_num id 1 && truthy result = false ->
  strict_eq_num id 999 || negb (strict_eq_str method "accountNotification") = true ->
  onmessage (Parsed data) now s = (Ret tt, s).
Proof.
  intros Hid Hres Hm Hnot Hother.
  unfold onmessage, bind, lift, ret; simpl JSON_parse; cbv iota beta.
  rewrite Hid, Hres, Hm.
  destruct (strict_eq_num id 999) eqn:H999.
  - rewrite (not_one_when_999 id H999). reflexivity.
  - simpl in Hother. apply negb_true_iff in Hother. rewrite Hother.
    destruct (strict_eq_num id 1); simpl in Hnot; [rewrite Hnot|]; reflexivity.
Qed.

(** X12.  Only a start takes records away.  Every other event leaves the history
    as it is or, when it is a message, adds one record at its end. *)
Theorem history_only_grows (s : state) (e : event) :
  e <> press_start ->
  (forall lamports now, e <> balance_resolved lamports now) ->
  exists suffix,
    balanceUpdates (st_hooks (exec HELIUS_API_KEY s e))
    = balanceUpdates (st_hooks s) ++ suffix
    /\ List.length suffix <= 1
    /\ (suffix <> [] -> exists ws data now, e = ws_onmessage ws data now).
Proof.
  intros Hstart Hseed. unfold exec, step.
  destruct (enabled s e) eqn:Hen.
  2: { exists []. rewrite app_nil_r. repeat split; auto. congruence. }
  destruct e as [text| | |lam t|msg|ws|ws p t|ws|ws|tm|iv]; try congruence.
  - exists []; rewrite app_nil_r; run_callback; repeat split; auto; congruence.
  - exists []; rewrite app_nil_r; run_callback; repeat split; auto; congruence.
  - exists []; rewrite app_nil_r; run_callback; repeat split; auto; congruence.
  - exists []; rewrite app_nil_r; run_callback; repeat split; auto; congruence.
  - unfold dispatch.
    destruct (onmessage_appends p t s) as (suffix & Hs & Hl).
    exists suffix. repeat split; eauto.
  - exists []; rewrite app_nil_r; run_callback; repeat split; auto; congruence.
  - exists []; rewrite app_nil_r; run_callback; repeat split; auto; congruence.
  - exists []; rewrite app_nil_r; run_callback; repeat split; auto; congruence.
  - exists []; rewrite app_nil_r; run_callback; repeat split; auto; congruence.
Qed.


Lemma BalanceHistory_newest_without_lamports (older : list BalanceUpdate)
    (newest : BalanceUpdate) :
  lamports newest = JUndefined \/ lamports newest = JNull ->
  BalanceHistory (older ++ [newest]) = Throw TypeError.
Proof.
  intros Hbad. unfold BalanceHistory.
  rewrite length_app, rev_app_distr. simpl.
  replace (Nat.eqb (List.length older + 1) 0) with false
    by (symmetry; apply Nat.eqb_neq; lia).
  unfold row. destruct Hbad as [-> | ->]; reflexivity.
Qed.

(** X5.  An account notification whose account has no [lamports] (or a null one)
    is taken as an update: the handler returns, the record is added with
    that value, and the next render of the screen throws a TypeError, in the
    history component and, when the value is [undefined], already in the
    balance card. *)
Theorem render_breaks_without_lamports
    (data id value lamports slot : jsval) (now : Z) (s : state) :
  get_prop data "id" = Ret id ->
  strict_eq_num id 1 = false ->
  strict_eq_num id 999 = false ->
  get_prop data "method" = Ret (JStr "accountNotification") ->
  get_path data ["params"; "result"; "value"] = Ret value ->
  truthy value = true ->
  get_prop value "lamports" = Ret lamports ->
  lamports = JUndefined \/ lamports = JNull ->
  get_path data ["params"; "result"; "context"; "slot"] = Ret slot ->
  let s' := snd (onmessage (Parsed data) now s) in
  fst (onmessage (Parsed data) now s) = Ret tt
  /\ balanceUpdates (st_hooks s')
     = balanceUpdates (st_hooks s)
       ++ [mkBalanceUpdate now (Div lamports LAMPORTS_PER_SOL) lamports (Some slot)]
  /\ currentBalance (st_hooks s') = lamports
  /\ BalanceHistory (balanceUpdates (st_hooks s')) = Throw TypeError
  /\ render s' = Throw TypeError.
Proof.
  intros Hid Hone Hping Hmethod Hvalue Htruthy Hlamports Hbad Hslot.
  assert (onmessage (Parsed data) now s
          = (Ret tt, updated_state now lamports slot s)) as Hrun.
  { unfold onmessage, bind, lift, ret; simpl JSON_parse; cbv iota beta.
    rewrite Hid, Hone. cbv iota beta. rewrite Hping, Hmethod. simpl.
    simpl in Hvalue, Hslot.
    destruct (get_prop data "params") as [params|]; [|discriminate].
    destruct (get_prop params "result") as [result|]; [|discriminate].
    destruct (get_prop result "value") as [value'|]; [|discriminate].
    injection Hvalue as ->.
    destruct (get_prop result "context") as [context|]; [|discriminate].
    destruct (get_prop context "slot") as [slot'|]; [|discriminate].
    injection Hslot as ->.
    simpl. rewrite Htruthy, Hlamports.
    destruct Hbad as [-> | ->]; reflexivity. }
  cbv zeta. rewrite Hrun. cbn [fst snd].
  assert (BalanceHistory
            (balanceUpdates (st_hooks (updated_state now lamports slot s)))
          = Throw TypeError) as Hhistory.
  { apply (BalanceHistory_newest_without_lamports
             (balanceUpdates (st_hooks s))
             (mkBalanceUpdate now (Div lamports LAMPORTS_PER_SOL) lamports (Some slot))).
    exact Hbad. }
  repeat split; try reflexivity; try exact Hhistory.
  unfold render. rewrite Hhistory.
  change (currentBalance (st_hooks (updated_state now lamports slot s)))
    with lamports.
  destruct Hbad as [-> | ->]; reflexivity.
Qed.

End Screen.

(** ** The live balance screen without reconnect *)

Lemma first_onmessage_notification (subscription : Z)
    (slot : Z) (account : AccountInfo) (now : Z) (s : state) :
  FirstVersion.onmessage
    (Parsed (json_of_update (mkAccountUpdate slot (Some account) subscription))) now s
  = (Ret tt,
     updated_state now (JNum (inject_Z (info_lamports account)))
                   (JNum (inject_Z slot)) s).
Proof. reflexivity. Qed.

Section First.

Variable HELIUS_API_KEY : string.

Lemma first_notifications (s : state) (ws : nat) (subscription : Z)
    (ns : list (Z * AccountInfo * Z)) :
  option_map ws_readyState (socket s ws) = Some OPEN ->
  let s' := FirstVersion.run HELIUS_API_KEY s (map (notification ws subscription) ns) in
  balanceUpdates (st_hooks s') = balanceUpdates (st_hooks s) ++ map update_of ns
  /\ FirstVersion.feasible HELIUS_API_KEY s (map (notification ws subscription) ns) = true
  /\ isStreaming (st_hooks s') = isStreaming (st_hooks s)
  /\ st_refs s' = st_refs s
  /\ st_world s' = st_world s.
Proof.
  revert s. induction ns as [|n ns IH]; intros s Hopen.
  - simpl. rewrite app_nil_r. repeat split.
  - assert (FirstVersion.exec HELIUS_API_KEY s (notification ws subscription n)
            = updated_state (snd n)
                (JNum (inject_Z (info_lamports (snd (fst n)))))
                (JNum (inject_Z (fst (fst n)))) s) as Hexec.
    { destruct n as [[slot account] now].
      unfold FirstVersion.exec, FirstVersion.step, notification.
      simpl enabled. rewrite Hopen. reflexivity. }
    assert (enabled s (notification ws subscription n) = true) as Henabled.
    { destruct n as [[slot account] now]. unfold notification.
      simpl enabled. now rewrite Hopen. }
    cbv zeta.
    change (map (notification ws subscription) (n :: ns))
      with (notification ws subscription n :: map (notification ws subscription) ns).
    change (FirstVersion.run HELIUS_API_KEY s
              (notification ws subscription n :: map (notification ws subscription) ns))
      with (FirstVersion.run HELIUS_API_KEY
              (FirstVersion.exec HELIUS_API_KEY s (notification ws subscription n))
              (map (notification ws subscription) ns)).
    cbn [FirstVersion.feasible]. rewrite Henabled, Hexec.
    destruct (IH (updated_state (snd n)
                    (JNum (inject_Z (info_lamports (snd (fst n)))))
                    (JNum (inject_Z (fst (fst n)))) s) Hopen)
      as (Hh & Hf & Hs & Hr & Hw).
    cbv zeta in Hh, Hs, Hr, Hw.
    rewrite Hh, Hf, Hs, Hr, Hw. destruct n as [[slot account] now].
    repeat split. simpl. rewrite <- app_assoc. reflexivity.
Qed.

(** X27.  In the version without reconnect, Stop pressed before the subscription
    is confirmed stops nothing: no unsubscribe request and no close are
    made, the socket stays open and stays in [wsRef]; the screen says it is
    not streaming, and every notification that follows is still recorded,
    in order. *)
Theorem first_stop_before_confirmation (s : state) (ws : nat)
    (subscription : Z) (ns : list (Z * AccountInfo * Z)) :
  isStreaming (st_hooks s) = true ->
  wsRef (st_refs s) = Some ws ->
  subscriptionIdRef (st_refs s) = JNull ->
  option_map ws_readyState (socket s ws) = Some OPEN ->
  let s1 := FirstVersion.exec HELIUS_API_KEY s press_stop in
  let s2 := FirstVersion.run HELIUS_API_KEY s1 (map (notification ws subscription) ns) in
  st_world s1 = st_world s
  /\ st_refs s1 = st_refs s
  /\ isStreaming (st_hooks s1) = false
  /\ connectionStatus (st_hooks s1) = disconnected
  /\ FirstVersion.feasible HELIUS_API_KEY s1 (map (notification ws subscription) ns) = true
  /\ balanceUpdates (st_hooks s2) = balanceUpdates (st_hooks s) ++ map update_of ns
  /\ isStreaming (st_hooks s2) = false.
Proof.
  intros Hstreaming Hws Hsub Hopen.
  assert (FirstVersion.exec HELIUS_API_KEY s press_stop
          = mkState (mkHooks (address (st_hooks s)) false (currentBalance (st_hooks s))
                       (balanceUpdates (st_hooks s)) (isLoading (st_hooks s))
                       disconnected (reconnectAttempts (st_hooks s)))
                    (st_refs s) (st_world s)) as Hstop.
  { unfold FirstVersion.exec, FirstVersion.step. simpl enabled.
    rewrite Hstreaming. simpl FirstVersion.dispatch.
    unfold FirstVersion.handleStopStreaming, bind, gets. simpl.
    rewrite Hws, Hsub. reflexivity. }
  cbv zeta. rewrite Hstop.
  match goal with
  | |- context [FirstVersion.run _ ?s1 _] =>
      destruct (first_notifications s1 ws subscription ns Hopen)
        as (Hh & Hf & Hs & Hr & Hw)
  end.
  cbv zeta in Hh, Hs, Hr, Hw.
  repeat split; assumption.
Qed.

Ltac first_callback :=
  unfold FirstVersion.dispatch, FirstVersion.handleStartStreaming,
    FirstVersion.handleStartStreaming_resumed,
    FirstVersion.subscribeToAccountUpdates, FirstVersion.handleStopStreaming,
    FirstVersion.onopen, FirstVersion.onmessage, FirstVersion.onerror,
    FirstVersion.onclose, FirstVersion.settle, start_succeeded, start_failed,
    createConnection, getHeliusHttpUrl, getHeliusWsUrl, getCurrentBalance,
    new_WebSocket, ws_send, ws_close, Alert_alert, setAddress, setIsStreaming,
    setCurrentBalance, setBalanceUpdates, setIsLoading, setConnectionStatus,
    set_subscriptionIdRef, set_wsRef, socket;
  unfold_monad; simpl; repeat (break_match; simpl).

Lemma first_step_no_socket (s : state) (e : event) :
  e <> press_start ->
  pendingBalance (st_world s) = None ->
  let s' := FirstVersion.exec HELIUS_API_KEY s e in
  pendingBalance (st_world s') = None
  /\ List.length (sockets (st_world s')) = List.length (sockets (st_world s))
  /\ timeouts (st_world s') = timeouts (st_world s)
  /\ intervals (st_world s') = intervals (st_world s)
  /\ (e <> press_stop ->
      isStreaming (st_hooks s) = true -> isStreaming (st_hooks s') = true).
Proof.
  intros He Hpending. cbv zeta.
  unfold FirstVersion.exec, FirstVersion.step.
  destruct (enabled s e) eqn:Henabled; [|repeat split; auto].
  destruct e; try congruence.
  3, 4: simpl in Henabled; rewrite Hpending in Henabled; discriminate.
  all: first_callback; rewrite ?length_update_nth; repeat split; auto;
    congruence.
Qed.

(** X28.  The version without reconnect never makes a socket or sets a timer on
    its own: from a state with no balance request out, whatever happens
    short of Start being pressed, the sockets stay those there were; and as
    long as Stop is not pressed either, a screen that was streaming goes on
    saying so, also after its socket has failed or closed. *)
Theorem first_drop_is_final (s : state) (es : list event) :
  pendingBalance (st_world s) = None ->
  Forall (fun e => e <> press_start) es ->
  let s' := FirstVersion.run HELIUS_API_KEY s es in
  List.length (sockets (st_world s')) = List.length (sockets (st_world s))
  /\ timeouts (st_world s') = timeouts (st_world s)
  /\ intervals (st_world s') = intervals (st_world s)
  /\ (Forall (fun e => e <> press_stop) es ->
      isStreaming (st_hooks s) = true -> isStreaming (st_hooks s') = true).
Proof.
  intros Hpending Hes. revert s Hpending.
  induction Hes as [|e es He Hes IH]; intros s Hpending; [repeat split; auto|].
  cbv zeta. unfold FirstVersion.run. simpl fold_left.
  destruct (first_step_no_socket s e He Hpending)
    as (Hpending' & Hsockets & Htimeouts & Hintervals & Hstreaming).
  cbv zeta in *.
  destruct (IH (FirstVersion.exec HELIUS_API_KEY s e) Hpending')
    as (Hsockets' & Htimeouts' & Hintervals' & Hstreaming').
  cbv zeta in *. unfold FirstVersion.run in *.
  repeat split; try congruence.
  intros Hnostop Hon. inversion Hnostop; subst. auto.
Qed.

(** X29.  In the version without reconnect a connection that fails before it has
    opened is reported: the error handler rejects the promise the start is
    waiting on, so the alert "WebSocket connection failed" is shown, the
    button stops loading and the screen is not streaming; the promise is
    then settled. *)
Theorem first_connection_failure_surfaced (s : state) (ws : nat) (sock : websocket) :
  socket s ws = Some sock ->
  ws_readyState sock = CONNECTING ->
  ws_awaited sock = true ->
  let s' := FirstVersion.exec HELIUS_API_KEY s (ws_onerror ws) in
  trace (st_world s')
  = trace (st_world s) ++ [eff_alert "Error" "WebSocket connection failed"]
  /\ isLoading (st_hooks s') = false
  /\ connectionStatus (st_hooks s') = disconnected
  /\ isStreaming (st_hooks s') = isStreaming (st_hooks s)
  /\ option_map ws_awaited (socket s' ws) = Some false.
Proof.
  intros Hsock Hconnecting Hawaited. cbv zeta.
  unfold FirstVersion.exec, FirstVersion.step. simpl enabled.
  rewrite Hsock. simpl option_map. rewrite Hconnecting.
  unfold FirstVersion.dispatch, FirstVersion.onerror, bind, gets; simpl.
  unfold socket in Hsock. unfold socket. simpl. rewrite Hsock, Hawaited.
  simpl. repeat split.
  rewrite nth_error_update_nth, Hsock. reflexivity.
Qed.

End First.

(** ** Addresses *)

Lemma leading_ones_other (c : ascii) (rest : string) :
  c <> "1"%char -> leading_ones (String c rest) = (0, String c rest).
Proof.
  intros Hc. destruct c as [[] [] [] [] [] [] [] []];
    try reflexivity. now contradiction Hc.
Qed.

Lemma leading_ones_spec (s : string) :
  let (zeroes, digits) := leading_ones s in
  String.length s = zeroes + String.length digits /\
  (forall c, In c (list_ascii_of_string s) ->
             c = "1"%char \/ In c (list_ascii_of_string digits)) /\
  (forall c rest, digits = String c rest -> c <> "1"%char).
Proof.
  induction s as [|c s IH].
  - simpl. repeat split; [tauto | discriminate].
  - destruct (Ascii.eqb_spec c "1") as [->|Hc].
    + change (leading_ones (String "1" s))
        with (let (n, r) := leading_ones s in (S n, r)).
      destruct (leading_ones s) as [zeroes digits].
      destruct IH as (Hlen & Hin & Hfirst). repeat split.
      * simpl. lia.
      * intros c [<-|Hc]; [now left | auto].
      * assumption.
    + rewrite (leading_ones_other c s Hc). repeat split.
      * tauto.
      * intros c' rest Heq. congruence.
Qed.

Lemma index_of_bound (c : ascii) (s : string) (d : Z) :
  index_of c s = Some d -> (0 <= d < Z.of_nat (String.length s))%Z.
Proof.
  revert d. induction s as [|c' s IH]; simpl; intros d Hd; [discriminate|].
  destruct (Ascii.eqb c c').
  - injection Hd as <-. lia.
  - destruct (index_of c s) as [d'|]; [|discriminate].
    injection Hd as <-. specialize (IH d' eq_refl). lia.
Qed.

Lemma index_of_later (c first : ascii) (rest : string) (d : Z) :
  index_of c (String first rest) = Some d -> c <> first -> (1 <= d)%Z.
Proof.
  cbn [index_of]. intros Hd Hc.
  destruct (Ascii.eqb_spec c first) as [|_]; [contradiction|].
  destruct (index_of c rest) as [d'|] eqn:Hd'; [|discriminate].
  injection Hd as <-. apply index_of_bound in Hd'. lia.
Qed.

Lemma index_of_ALPHABET (c : ascii) (d : Z) :
  index_of c ALPHABET = Some d ->
  (0 <= d < 58)%Z /\ (c <> "1"%char -> 1 <= d)%Z.
Proof.
  intros Hd. split.
  - apply index_of_bound in Hd. exact Hd.
  - intros Hc. exact (index_of_later c "1" _ d Hd Hc).
Qed.

Lemma base58_value_bounds (s : string) (acc n : Z) :
  (0 <= acc)%Z ->
  base58_value s acc = Some n ->
  (acc * 58 ^ Z.of_nat (String.length s) <= n
   < (acc + 1) * 58 ^ Z.of_nat (String.length s))%Z /\
  forall c, In c (list_ascii_of_string s) -> index_of c ALPHABET <> None.
Proof.
  revert acc. induction s as [|c s IH]; intros acc Hacc Hn.
  - simpl in *. injection Hn as <-. split; [lia | tauto].
  - cbn [base58_value] in Hn.
    destruct (index_of c ALPHABET) as [d|] eqn:Hd; [|discriminate].
    destruct (index_of_ALPHABET c d Hd) as [Hrange _].
    apply IH in Hn; [|lia]. destruct Hn as [Hn Hall]. split.
    + cbn [String.length]. rewrite Nat2Z.inj_succ, Z.pow_succ_r by lia.
      assert (0 < 58 ^ Z.of_nat (String.length s))%Z
        by (apply Z.pow_pos_nonneg; lia).
      nia.
    + intros c' [<-|Hin]; [congruence | auto].
Qed.

Lemma big_endian_length (fuel : nat) (n : Z) (acc : list byte) :
  (0 <= n)%Z ->
  exists b,
    List.length (big_endian fuel n acc) = List.length acc + b /\
    b <= fuel /\
    (b = fuel \/ (n < 256 ^ Z.of_nat b)%Z).
Proof.
  revert n acc. induction fuel as [|fuel IH]; intros n acc Hn; simpl.
  - exists 0. repeat split; auto.
  - destruct (Z.eqb_spec n 0) as [->|Hne].
    + exists 0. repeat split; [lia | lia | right; simpl; lia].
    + destruct (IH (n / 256)%Z (byte_of_Z (n mod 256) :: acc))
        as (b & Hlen & Hle & Hb); [apply Z.div_pos; lia|].
      exists (S b). repeat split.
      * rewrite Hlen. simpl. lia.
      * lia.
      * destruct Hb as [->|Hb]; [now left | right].
        rewrite Nat2Z.inj_succ, Z.pow_succ_r by lia.
        pose proof (Z.div_mod n 256 ltac:(lia)).
        pose proof (Z.mod_pos_bound n 256 ltac:(lia)). lia.
Qed.

Lemma base58_longer_than_bytes (b : nat) :
  b <= 32 -> (256 ^ Z.of_nat b <= 58 ^ Z.of_nat (12 + b))%Z.
Proof.
  intros Hb.
  do 33 (destruct b as [|b]; [vm_compute; discriminate|]). lia.
Qed.

Lemma base58_value_first (c : ascii) (rest : string) (n : Z) :
  base58_value (String c rest) 0 = Some n ->
  c <> "1"%char ->
  (58 ^ Z.of_nat (String.length rest) <= n)%Z.
Proof.
  cbn [base58_value]. intros Hn Hc.
  destruct (index_of c ALPHABET) as [d|] eqn:Hd; [|discriminate].
  destruct (index_of_ALPHABET c d Hd) as [Hrange Hfirst].
  specialize (Hfirst Hc).
  apply base58_value_bounds in Hn; [|lia]. destruct Hn as [Hn _].
  assert (0 < 58 ^ Z.of_nat (String.length rest))%Z
    by (apply Z.pow_pos_nonneg; lia).
  nia.
Qed.

(** X16.  An address that passes [validateSolanaAddress] has 32 to 44
    characters, all of the base-58 alphabet (no 0, O, I or l); so the empty
    and the blank address do not pass. *)
Theorem valid_address_shape (address : string) :
  validateSolanaAddress address = true ->
  32 <= String.length address <= 44 /\
  forall c, In c (list_ascii_of_string address) -> index_of c ALPHABET <> None.
Proof.
  unfold validateSolanaAddress, new_PublicKey, bs58_decode.
  pose proof (leading_ones_spec address) as Hones.
  destruct (leading_ones address) as [zeroes digits].
  destruct Hones as (Hlen & Hin & Hfirst).
  destruct (base58_value digits 0) as [n|] eqn:Hn; [|discriminate].
  pose proof (base58_value_bounds digits 0 n ltac:(lia) Hn) as [Hrange Hall].
  destruct (Nat.eqb_spec
              (List.length (repeat x00 zeroes ++ big_endian (String.length digits) n []))
              PUBLIC_KEY_LENGTH) as [Hkey|]; [|discriminate].
  intros _. rewrite length_app, repeat_length in Hkey.
  destruct (big_endian_length (String.length digits) n []) as (b & Hb & Hle & Hfull);
    [lia|].
  rewrite Hb in Hkey. simpl in Hkey. unfold PUBLIC_KEY_LENGTH in Hkey.
  split; [split|].
  - lia.
  - destruct Hfull as [->|Hsmall]; [lia|].
    destruct digits as [|c rest]; [simpl in *; lia|].
    specialize (Hfirst c rest eq_refl).
    pose proof (base58_value_first c rest n Hn Hfirst) as Hbig.
    cbn [String.length] in *.
    destruct (le_gt_dec (String.length rest) (11 + b)) as [|Hlong]; [lia|].
    exfalso.
    pose proof (base58_longer_than_bytes b ltac:(lia)) as Hpow.
    assert (58 ^ Z.of_nat (12 + b) <= 58 ^ Z.of_nat (String.length rest))%Z
      by (apply Z.pow_le_mono_r; lia).
    lia.
  - intros c Hc. destruct (Hin c Hc) as [->|Hd]; [|auto].
    vm_compute. discriminate.
Qed.

(** ** Signatures *)

Lemma string_of_list_ascii_app (a b : list ascii) :
  string_of_list_ascii (a ++ b)
  = (string_of_list_ascii a ++ string_of_list_ascii b)%string.
Proof. induction a as [|c a IH]; simpl; [reflexivity | now rewrite IH]. Qed.

Lemma length_string_of_list_ascii (l : list ascii) :
  String.length (string_of_list_ascii l) = List.length l.
Proof. induction l as [|c l IH]; simpl; [reflexivity | now rewrite IH]. Qed.

Lemma length_list_ascii_of_string (s : string) :
  List.length (list_ascii_of_string s) = String.length s.
Proof. induction s as [|c s IH]; simpl; [reflexivity | now rewrite IH]. Qed.

Lemma length_append (a b : string) :
  String.length (a ++ b)%string = String.length a + String.length b.
Proof. induction a as [|c a IH]; simpl; [reflexivity | now rewrite IH]. Qed.

(** X17.  [formatSignature] ([n] = 8; 12 on the polling screen): a signature of
    at least [2 n] characters is shown as its first [n] and its last [n]
    characters around three dots, [2 n + 3] characters in all; one of at
    most [n] characters is shown twice, whole, around the dots. *)
Theorem abbreviate_shape (n : nat) (sig : string) :
  0 < n ->
  (2 * n <= String.length sig ->
   exists head middle tail,
     sig = (head ++ middle ++ tail)%string /\
     String.length head = n /\ String.length tail = n /\
     abbreviate n sig = (head ++ "..." ++ tail)%string /\
     String.length (abbreviate n sig) = 2 * n + 3) /\
  (String.length sig <= n ->
   abbreviate n sig = (sig ++ "..." ++ sig)%string).
Proof.
  intros Hn. unfold abbreviate, slice_head, slice_tail.
  destruct (Nat.eqb_spec n 0) as [|_]; [lia|].
  pose proof (length_list_ascii_of_string sig) as Hlen.
  set (l := list_ascii_of_string sig) in *.
  split; intros Hsize.
  - exists (string_of_list_ascii (firstn n l)),
           (string_of_list_ascii (firstn (List.length l - 2 * n) (skipn n l))),
           (string_of_list_ascii (skipn (List.length l - n) l)).
    assert (String.length (string_of_list_ascii (firstn n l)) = n) as Hhead.
    { rewrite length_string_of_list_ascii, length_firstn. lia. }
    assert (String.length (string_of_list_ascii (skipn (List.length l - n) l)) = n)
      as Htail.
    { rewrite length_string_of_list_ascii, length_skipn. lia. }
    repeat split; try assumption.
    + rewrite <- !string_of_list_ascii_app.
      rewrite <- (string_of_list_ascii_of_string sig) at 1. fold l. f_equal.
      rewrite <- (firstn_skipn n l) at 1. f_equal.
      rewrite <- (firstn_skipn (List.length l - 2 * n) (skipn n l)) at 1.
      f_equal. rewrite skipn_skipn. f_equal. lia.
    + rewrite !length_append, Hhead, Htail. simpl. lia.
  - rewrite firstn_all2 by lia.
    replace (List.length l - n) with 0 by lia. simpl. unfold l.
    now rewrite string_of_list_ascii_of_string.
Qed.

(** ** The transaction history screen *)

Section History.

Variable HELIUS_API_KEY : string.
Variable ToString : jsval -> string.
Hypothesis ToString_string : forall text, ToString (JStr text) = text.

Lemma th_run_snoc (s : TransactionHistory.screen)
    (es : list TransactionHistory.event) (e : TransactionHistory.event) :
  TransactionHistory.run HELIUS_API_KEY ToString s (es ++ [e])
  = TransactionHistory.step HELIUS_API_KEY ToString
      (TransactionHistory.run HELIUS_API_KEY ToString s es) e.
Proof. unfold TransactionHistory.run. now rewrite fold_left_app. Qed.

Ltac th_sound_goals Hcalls Hflags Hlist :=
  split; [|split];
  [ let Hin := fresh "Hin" in
    intros ? ? Hin; simpl in Hin;
    try (apply in_app_or in Hin; destruct Hin as [Hin|[Hin|[]]]);
    try discriminate;
    try (injection Hin as <- <-; auto);
    try (apply Hcalls; assumption)
  | simpl; intros; try (split; reflexivity); try discriminate; auto
  | simpl; intros; try discriminate; auto ].

Lemma th_fetchTransactions_sound (isRefresh : bool) (s : TransactionHistory.screen) :
  th_sound HELIUS_API_KEY s ->
  th_sound HELIUS_API_KEY
    (TransactionHistory.fetchTransactions HELIUS_API_KEY isRefresh s).
Proof.
  intros (Hcalls & Hflags & Hlist).
  unfold TransactionHistory.fetchTransactions.
  destruct (trims_to_empty (TransactionHistory.address s));
    [th_sound_goals Hcalls Hflags Hlist|].
  destruct (validateSolanaAddress (TransactionHistory.address s)) eqn:Hvalid;
    simpl; [|th_sound_goals Hcalls Hflags Hlist].
  destruct (String.eqb_spec HELIUS_API_KEY "") as [Hkey|Hkey];
    destruct isRefresh; th_sound_goals Hcalls Hflags Hlist.
Qed.

Lemma th_sound_step (s : TransactionHistory.screen) (e : TransactionHistory.event) :
  th_sound HELIUS_API_KEY s ->
  th_sound HELIUS_API_KEY (TransactionHistory.step HELIUS_API_KEY ToString s e).
Proof.
  intros Hs. unfold TransactionHistory.step.
  destruct (TransactionHistory.enabled s e) eqn:Hen; [|assumption].
  destruct e as [text| | |data|message]; simpl.
  - destruct Hs as (Hcalls & Hflags & Hlist).
    th_sound_goals Hcalls Hflags Hlist.
  - now apply th_fetchTransactions_sound.
  - now apply th_fetchTransactions_sound.
  - destruct Hs as (Hcalls & Hflags & Hlist).
    unfold TransactionHistory.fetchTransactions_resumed.
    destruct (getTransactionsForAddress_resumed ToString data);
      th_sound_goals Hcalls Hflags Hlist.
  - destruct Hs as (Hcalls & Hflags & Hlist).
    th_sound_goals Hcalls Hflags Hlist.
Qed.

(** X18.  Whatever is typed, pressed and answered on the transaction screen:
    every request sent was for an address that passes
    [validateSolanaAddress], with limit 20, and with an API key set; when
    no request is out neither spinner is on; and as long as no search has
    succeeded the list is empty. *)
Theorem history_requests_valid (es : list TransactionHistory.event) :
  let s := TransactionHistory.run HELIUS_API_KEY ToString TransactionHistory.initial es in
  (forall address limit,
     In (TransactionHistory.fetch address limit) (TransactionHistory.calls s) ->
     validateSolanaAddress address = true /\ limit = 20%Z /\
     HELIUS_API_KEY <> "") /\
  (TransactionHistory.outstanding s = 0 ->
   TransactionHistory.isLoading s = false /\
   TransactionHistory.isRefreshing s = false) /\
  (TransactionHistory.hasSearched s = false ->
   TransactionHistory.transactions s = JArr []).
Proof.
  induction es as [|e es IH] using rev_ind.
  - repeat split; simpl; intros; contradiction.
  - rewrite th_run_snoc. apply th_sound_step, IH.
Qed.

(** X19.  An error answer of the endpoint to a search leaves the list and
    [hasSearched] as they were, stops both spinners and shows one alert:
    the [message] of the error when that is a string and not empty,
    "Failed to fetch transactions" when it is missing or falsy. *)
Theorem history_error_answer (s : TransactionHistory.screen)
    (data error message : jsval) :
  get_prop data "error" = Ret error ->
  truthy error = true ->
  get_prop error "message" = Ret message ->
  (truthy message = false \/ exists text, message = JStr text) ->
  let s' := TransactionHistory.fetchTransactions_resumed ToString data s in
  TransactionHistory.transactions s' = TransactionHistory.transactions s /\
  TransactionHistory.hasSearched s' = TransactionHistory.hasSearched s /\
  TransactionHistory.isLoading s' = false /\
  TransactionHistory.isRefreshing s' = false /\
  TransactionHistory.calls s' =
    TransactionHistory.calls s ++
    [TransactionHistory.alert "Error"
       (match message with
        | JStr text => or_else text "Failed to fetch transactions"
        | _ => "Failed to fetch transactions"
        end)].
Proof.
  intros Herror Htruthy Hmessage Hshape. simpl.
  unfold TransactionHistory.fetchTransactions_resumed,
    getTransactionsForAddress_resumed.
  rewrite Herror, Htruthy, Hmessage. simpl.
  repeat split. f_equal. f_equal. f_equal.
  unfold js_or. destruct Hshape as [Hfalsy|[text ->]].
  - rewrite Hfalsy, ToString_string.
    destruct message as [| |b|q|text|items|props]; try reflexivity.
    simpl in Hfalsy. apply negb_false_iff in Hfalsy.
    unfold or_else. now rewrite Hfalsy.
  - simpl. unfold or_else at 2.
    destruct (String.eqb text "") eqn:Hempty; simpl;
      rewrite ToString_string; unfold or_else; simpl; [reflexivity|].
    now rewrite Hempty.
Qed.

End History.

(** ** The network health screen *)

Section Network.

Variable HELIUS_API_KEY : string.

Lemma nh_run_snoc (s : NetworkHealth.screen) (es : list NetworkHealth.event)
    (e : NetworkHealth.event) :
  NetworkHealth.run HELIUS_API_KEY s (es ++ [e])
  = NetworkHealth.step HELIUS_API_KEY (NetworkHealth.run HELIUS_API_KEY s es) e.
Proof. unfold NetworkHealth.run. now rewrite fold_left_app. Qed.

(** X20.  The five values on the network screen were all answered in one and the
    same refresh, the last one in which all five requests succeeded, and
    [lastUpdate] is the time of that refresh; a refresh in which a request
    failed changes none of them.  Before the first success they are the
    initial ones. *)
Theorem network_values_of_one_refresh (t : Z) (es : list NetworkHealth.event) :
  let s := NetworkHealth.run HELIUS_API_KEY (NetworkHealth.mounted t) es in
  (NetworkHealth.snapshot s = NetworkHealth.snapshot (NetworkHealth.mounted t) /\
   NetworkHealth.lastUpdate s = t /\
   forall r now, In (NetworkHealth.settled r now) es ->
                 exists e, NetworkHealth.all_settled HELIUS_API_KEY r = Throw e) \/
  exists before r now after,
    es = before ++ NetworkHealth.settled r now :: after /\
    NetworkHealth.all_settled HELIUS_API_KEY r = Ret (NetworkHealth.snapshot s) /\
    NetworkHealth.lastUpdate s = now /\
    forall r' now', In (NetworkHealth.settled r' now') after ->
                    exists e, NetworkHealth.all_settled HELIUS_API_KEY r' = Throw e.
Proof.
  induction es as [|e es IH] using rev_ind; simpl.
  - left. repeat split. intros r now [].
  - rewrite nh_run_snoc. simpl in IH.
    set (s := NetworkHealth.run HELIUS_API_KEY (NetworkHealth.mounted t) es) in *.
    assert (forall s',
              NetworkHealth.snapshot s' = NetworkHealth.snapshot s ->
              NetworkHealth.lastUpdate s' = NetworkHealth.lastUpdate s ->
              (forall r now, e = NetworkHealth.settled r now ->
                             exists x, NetworkHealth.all_settled HELIUS_API_KEY r = Throw x) ->
              (NetworkHealth.snapshot s' =
                 NetworkHealth.snapshot (NetworkHealth.mounted t) /\
               NetworkHealth.lastUpdate s' = t /\
               forall r now, In (NetworkHealth.settled r now) (es ++ [e]) ->
                             exists e, NetworkHealth.all_settled HELIUS_API_KEY r = Throw e) \/
              exists before r now after,
                es ++ [e] = before ++ NetworkHealth.settled r now :: after /\
                NetworkHealth.all_settled HELIUS_API_KEY r = Ret (NetworkHealth.snapshot s') /\
                NetworkHealth.lastUpdate s' = now /\
                forall r' now', In (NetworkHealth.settled r' now') after ->
                                exists e, NetworkHealth.all_settled HELIUS_API_KEY r' = Throw e) as Hsame.
    { intros s' Hsnap Hlast Hfail.
      destruct IH as [(Hinit & Ht & Hall)|(before & r & now & after & -> & Hret & Hnow & Hall)].
      - left. rewrite Hsnap, Hlast. repeat split; try assumption.
        intros r now Hin. apply in_app_or in Hin.
        destruct Hin as [Hin|[Hin|[]]]; [eauto|]. eapply Hfail. eauto.
      - right. exists before, r, now, (after ++ [e]).
        rewrite Hsnap, Hlast, <- app_assoc. repeat split; try assumption.
        intros r' now' Hin. apply in_app_or in Hin.
        destruct Hin as [Hin|[Hin|[]]]; [eauto|]. eapply Hfail. eauto. }
    destruct e as [| |r now].
    + apply (Hsame (NetworkHealth.fetchNetworkData true s));
        try reflexivity. discriminate.
    + apply (Hsame (NetworkHealth.handleRefresh s)); try reflexivity.
      discriminate.
    + simpl. unfold NetworkHealth.fetchNetworkData_resumed.
      destruct (NetworkHealth.all_settled HELIUS_API_KEY r) as [[[[[h b] ep] p] v]|x] eqn:Hr.
      * right. exists es, r, now, []. repeat split; try assumption.
        intros r' now' [].
      * apply Hsame; try reflexivity.
        intros r' now' Heq. injection Heq as <- <-. eauto.
Qed.

(** X21.  After a refresh that succeeded the badge says Healthy exactly if the
    answer to getHealth has the result "ok" or no result at all (or a falsy
    one): an error answer of the endpoint is shown as Healthy. *)
Theorem health_badge (r : NetworkHealth.round) (now : Z) (s : NetworkHealth.screen)
    (data : jsval) (values : jsval * jsval * jsval * jsval * jsval) :
  NetworkHealth.health_body r = Ret data ->
  NetworkHealth.all_settled HELIUS_API_KEY r = Ret values ->
  exists result,
    get_prop data "result" = Ret result /\
    (NetworkHealth.badge
       (NetworkHealth.health
          (NetworkHealth.fetchNetworkData_resumed HELIUS_API_KEY r now s))
     = "Healthy"
     <-> truthy result = false \/ result = JStr "ok").
Proof.
  intros Hbody Hall. unfold NetworkHealth.fetchNetworkData_resumed.
  rewrite Hall. destruct values as [[[[h b] ep] p] v]. simpl.
  unfold NetworkHealth.all_settled in Hall.
  destruct (String.eqb HELIUS_API_KEY ""); [discriminate|].
  rewrite Hbody in Hall. simpl in Hall.
  unfold getNetworkHealth_resumed in Hall.
  destruct (get_prop data "result") as [result|] eqn:Hresult; [|discriminate].
  simpl in Hall. exists result. split; [reflexivity|].
  assert (h = js_or result (JStr "ok")) as ->.
  { destruct (NetworkHealth.height r); [|discriminate].
    destruct (NetworkHealth.epoch r); [|discriminate]. simpl in Hall.
    destruct (and_then (NetworkHealth.samples_body r) _);
      [|discriminate].
    destruct (and_then (NetworkHealth.version_body r) _);
      [|discriminate].
    simpl in Hall. congruence. }
  unfold NetworkHealth.badge, js_or.
  destruct (truthy result) eqn:Htruthy.
  - destruct result as [| |b'|q|text|items|props]; simpl;
      try (split; [discriminate | intros [|]; discriminate]).
    destruct (String.eqb_spec text "ok") as [->|Hne].
    + split; auto.
    + split; [discriminate|]. intros [|Heq]; [discriminate|]. congruence.
  - simpl. split; auto.
Qed.

End Network.

(** ** The polling screen *)

Lemma has_In (x : string) (set : list string) :
  TransactionSim.has x set = true <-> In x set.
Proof.
  unfold TransactionSim.has. rewrite existsb_exists. split.
  - intros [y [Hin Heq]]. apply String.eqb_eq in Heq. now subst.
  - intros Hin. exists x. split; [assumption | apply String.eqb_refl].
Qed.

Lemma add_In (x y : string) (set : list string) :
  In y (TransactionSim.add x set) <-> y = x \/ In y set.
Proof.
  unfold TransactionSim.add. destruct (TransactionSim.has x set) eqn:Hhas.
  - apply has_In in Hhas. split; [now right | intros [->|]; assumption].
  - rewrite in_app_iff. simpl. intuition.
Qed.

Lemma add_NoDup (x : string) (set : list string) :
  NoDup set -> NoDup (TransactionSim.add x set).
Proof.
  intros Hset. unfold TransactionSim.add.
  destruct (TransactionSim.has x set) eqn:Hhas; [assumption|].
  assert (~ In x set) as Hnot by (rewrite <- has_In; congruence).
  clear Hhas. induction Hset as [|y set Hy Hset IH]; simpl.
  - constructor; [intros [] | constructor].
  - constructor.
    + rewrite in_app_iff. simpl. intros [H|[H|[]]]; [auto|].
      subst. apply Hnot. now left.
    + apply IH. intros H. apply Hnot. now right.
Qed.

Lemma add_all_In (batch : list TransactionSim.SimulatedTransaction)
    (set : list string) (y : string) :
  In y (fold_left (fun set tx => TransactionSim.add (TransactionSim.signature tx) set)
                  batch set)
  <-> In y (TransactionSim.signatures batch) \/ In y set.
Proof.
  revert set. induction batch as [|tx batch IH]; intros set; simpl.
  - intuition.
  - rewrite IH, add_In. intuition.
Qed.

Lemma add_all_NoDup (batch : list TransactionSim.SimulatedTransaction)
    (set : list string) :
  NoDup set ->
  NoDup (fold_left (fun set tx => TransactionSim.add (TransactionSim.signature tx) set)
                   batch set).
Proof.
  revert set. induction batch as [|tx batch IH]; intros set Hset; simpl.
  - assumption.
  - apply IH, add_NoDup, Hset.
Qed.

Lemma signatures_filter_In (keep : TransactionSim.SimulatedTransaction -> bool)
    (batch : list TransactionSim.SimulatedTransaction) (y : string) :
  In y (TransactionSim.signatures (filter keep batch)) ->
  In y (TransactionSim.signatures batch).
Proof.
  unfold TransactionSim.signatures. rewrite !in_map_iff.
  intros [tx [Heq Hin]]. apply filter_In in Hin. exists tx. tauto.
Qed.

Lemma signatures_filter_NoDup (keep : TransactionSim.SimulatedTransaction -> bool)
    (batch : list TransactionSim.SimulatedTransaction) :
  NoDup (TransactionSim.signatures batch) ->
  NoDup (TransactionSim.signatures (filter keep batch)).
Proof.
  induction batch as [|tx batch IH]; simpl; intros Hnd.
  - constructor.
  - inversion Hnd as [|? ? Hnot Hrest]; subst.
    destruct (keep tx); simpl.
    + constructor; [|auto]. intros Hin. apply Hnot.
      eapply signatures_filter_In, Hin.
    + auto.
Qed.

Section Polling.

Variable with_refs : bool.

Lemma sim_run_snoc (s : TransactionSim.screen) (es : list TransactionSim.event)
    (e : TransactionSim.event) :
  TransactionSim.run with_refs s (es ++ [e])
  = TransactionSim.step with_refs (TransactionSim.run with_refs s es) e.
Proof. unfold TransactionSim.run. now rewrite fold_left_app. Qed.

Lemma fetchTransactions_listed (paused monitoring manual : bool)
    (s : TransactionSim.screen) :
  listed (TransactionSim.fetchTransactions with_refs paused monitoring manual s) = listed s.
Proof.
  unfold TransactionSim.fetchTransactions. cbv zeta.
  destruct ((if with_refs then _ else _) && negb manual); reflexivity.
Qed.

Lemma startAutoRefresh_listed (paused monitoring force : bool)
    (s : TransactionSim.screen) :
  listed (TransactionSim.startAutoRefresh with_refs paused monitoring force s) = listed s.
Proof.
  unfold TransactionSim.startAutoRefresh, TransactionSim.fetchTransactions.
  cbv zeta.
  destruct ((if with_refs then _ else _) && negb force); reflexivity.
Qed.

(** An event either leaves the list, the counter and the refs alone, or
    empties them all (a restart), or is an answer. *)
Lemma step_listed (s : TransactionSim.screen) (e : TransactionSim.event) :
  listed (TransactionSim.step with_refs s e) = listed s
  \/ listed (TransactionSim.step with_refs s e) = ([], 0, None, [])
  \/ exists response now,
       e = TransactionSim.answered response now
       /\ TransactionSim.step with_refs s e
          = TransactionSim.fetchTransactions_resumed response now s.
Proof.
  unfold TransactionSim.step.
  destruct (TransactionSim.enabled s e); [|now left].
  destruct e as [response now|message manual| | | | | |]; simpl.
  - right. right. eauto.
  - now left.
  - left. destruct (TransactionSim.intervalRef s) as [[paused monitoring]|];
      [apply fetchTransactions_listed | reflexivity].
  - left. unfold TransactionSim.togglePause.
    destruct (TransactionSim.isPaused s);
      [apply startAutoRefresh_listed | reflexivity].
  - now left.
  - right. left. unfold TransactionSim.restartMonitoring.
    now rewrite startAutoRefresh_listed.
  - left. apply fetchTransactions_listed.
  - unfold TransactionSim.handleManualRefresh.
    destruct (negb (TransactionSim.isMonitoring s)).
    + right. left. unfold TransactionSim.restartMonitoring.
      now rewrite startAutoRefresh_listed.
    + left. apply fetchTransactions_listed.
Qed.

Lemma sim_coherent_listed (s s' : TransactionSim.screen) :
  listed s' = listed s -> sim_coherent s -> sim_coherent s'.
Proof.
  unfold listed, sim_coherent. intros Heq. injection Heq as -> -> -> ->. tauto.
Qed.

Lemma sim_coherent_empty (s : TransactionSim.screen) :
  listed s = ([], 0, None, []) -> sim_coherent s.
Proof.
  unfold listed, sim_coherent. intros Heq. injection Heq as -> -> -> ->.
  repeat split; simpl; try constructor; tauto.
Qed.

Lemma sim_coherent_step (s : TransactionSim.screen) (e : TransactionSim.event) :
  sim_coherent s -> sim_coherent (TransactionSim.step with_refs s e).
Proof.
  intros Hs.
  destruct (step_listed s e) as [Hsame|[Hempty|(response & now & _ & ->)]].
  - exact (sim_coherent_listed _ _ Hsame Hs).
  - exact (sim_coherent_empty _ Hempty).
  - destruct Hs as (Hnd & Hseen & Htotal & Hlast).
    unfold TransactionSim.fetchTransactions_resumed.
    set (new := filter _ response).
    destruct (Nat.ltb 0 (List.length response) && Nat.ltb 0 (List.length new))
      eqn:Hsome;
      [|repeat split; simpl; try assumption; apply Hseen].
    apply andb_prop in Hsome. destruct Hsome as [_ Hnew].
    repeat split; simpl.
    + apply add_all_NoDup, Hnd.
    + rewrite add_all_In. unfold TransactionSim.signatures at 2.
      rewrite map_app, in_app_iff. rewrite Hseen. tauto.
    + unfold TransactionSim.signatures at 1.
      rewrite map_app, in_app_iff. rewrite add_all_In, Hseen. tauto.
    + rewrite length_app. lia.
    + destruct new; [discriminate|reflexivity].
Qed.

Lemma sim_coherent_run (es : list TransactionSim.event) :
  sim_coherent (TransactionSim.run with_refs (TransactionSim.mounted with_refs) es).
Proof.
  induction es as [|e es IH] using rev_ind.
  - apply sim_coherent_empty.
    unfold TransactionSim.run, TransactionSim.mounted. cbn [fold_left].
    now rewrite startAutoRefresh_listed.
  - rewrite sim_run_snoc. apply sim_coherent_step, IH.
Qed.

Lemma sim_rows_distinct_step (s : TransactionSim.screen) (e : TransactionSim.event) :
  sim_coherent s ->
  (forall response now, e = TransactionSim.answered response now ->
                        NoDup (TransactionSim.signatures response)) ->
  NoDup (TransactionSim.signatures (TransactionSim.transactions s)) ->
  NoDup (TransactionSim.signatures
           (TransactionSim.transactions (TransactionSim.step with_refs s e))).
Proof.
  intros (_ & Hseen & _) Hbatch Hrows.
  destruct (step_listed s e) as [Hsame|[Hempty|(response & now & -> & ->)]].
  - unfold listed in Hsame. injection Hsame as -> _ _ _. exact Hrows.
  - unfold listed in Hempty. injection Hempty as -> _ _ _. constructor.
  - unfold TransactionSim.fetchTransactions_resumed.
    set (keep := fun tx => negb _).
    destruct (Nat.ltb 0 (List.length response) && _); simpl; [|assumption].
    unfold TransactionSim.signatures. rewrite map_app.
    apply NoDup_app.
    + apply signatures_filter_NoDup. eapply Hbatch. reflexivity.
    + assumption.
    + intros sig Hnew Hold. apply in_map_iff in Hnew.
      destruct Hnew as [tx [Heq Hin]]. apply filter_In in Hin.
      destruct Hin as [_ Hkeep]. unfold keep in Hkeep.
      apply negb_true_iff in Hkeep.
      apply Hseen, has_In in Hold. congruence.
Qed.



End Polling.

(** X22.  In the version that lists rows, the counter of the screen is the
    number of rows listed, the last signature kept is that of the top row,
    and the signatures seen are those of the rows: whatever the events, also
    when an answer arrives after a restart. *)
Theorem sim_counter_matches_rows (es : list TransactionSim.event) :
  let s := TransactionSim.run true (TransactionSim.mounted true) es in
  TransactionSim.totalFetched s = List.length (TransactionSim.transactions s) /\
  TransactionSim.lastSignatureRef s =
    option_map TransactionSim.signature (hd_error (TransactionSim.transactions s)) /\
  forall sig, TransactionSim.has sig (TransactionSim.seenSignatures s) = true <->
              In sig (TransactionSim.signatures (TransactionSim.transactions s)).
Proof.
  destruct (sim_coherent_run true es) as (_ & Hseen & Htotal & Hlast).
  simpl. repeat split; try assumption.
  - rewrite has_In. apply Hseen.
  - rewrite has_In. apply Hseen.
Qed.

(** X23.  In the version that lists rows, each transaction is listed once,
    whatever the events, provided no answer names one signature twice: what
    an answer repeats of earlier answers is left out. *)
Theorem sim_rows_distinct (es : list TransactionSim.event) :
  TransactionSim.distinct_batches es ->
  NoDup (TransactionSim.signatures
           (TransactionSim.transactions
              (TransactionSim.run true (TransactionSim.mounted true) es))).
Proof.
  induction es as [|e es IH] using rev_ind; intros Hbatches.
  - constructor.
  - rewrite sim_run_snoc. apply sim_rows_distinct_step.
    + apply (sim_coherent_run true).
    + intros response now ->. apply (Hbatches response now).
      apply in_or_app. right. now left.
    + apply IH. intros response now Hin. apply (Hbatches response now).
      apply in_or_app. now left.
Qed.

(** X24.  In the version that lists rows, an answer that names only
    transactions already listed changes neither the list nor the counter nor
    the time of the last update; it clears the error and the two
    spinners. *)
Theorem sim_known_batch_ignored (es : list TransactionSim.event)
    (response : list TransactionSim.SimulatedTransaction) (now : Z) :
  let s := TransactionSim.run true (TransactionSim.mounted true) es in
  let s' := TransactionSim.fetchTransactions_resumed response now s in
  (forall tx, In tx response ->
              In (TransactionSim.signature tx)
                 (TransactionSim.signatures (TransactionSim.transactions s))) ->
  TransactionSim.transactions s' = TransactionSim.transactions s /\
  TransactionSim.totalFetched s' = TransactionSim.totalFetched s /\
  TransactionSim.lastUpdateTime s' = TransactionSim.lastUpdateTime s /\
  TransactionSim.lastSignatureRef s' = TransactionSim.lastSignatureRef s /\
  TransactionSim.seenSignatures s' = TransactionSim.seenSignatures s /\
  TransactionSim.error s' = None /\
  TransactionSim.isLoading s' = false /\
  TransactionSim.isRefreshing s' = false.
Proof.
  intros s s' Hknown. subst s'.
  destruct (sim_coherent_run true es) as (_ & Hseen & _). fold s in Hseen.
  unfold TransactionSim.fetchTransactions_resumed.
  set (keep := fun tx => negb _).
  assert (filter keep response = []) as ->.
  { clear -Hknown Hseen. unfold keep.
    induction response as [|tx response IH]; simpl; [reflexivity|].
    assert (TransactionSim.has (TransactionSim.signature tx)
              (TransactionSim.seenSignatures s) = true) as ->.
    { apply has_In, Hseen, Hknown. now left. }
    simpl. apply IH. intros tx' Hin. apply Hknown. now right. }
  rewrite andb_false_r. simpl. repeat split.
Qed.


Lemma passive_step (s : TransactionSim.screen) (e : TransactionSim.event) :
  TransactionSim.passive e = true ->
  stale_interval s ->
  let s' := TransactionSim.step false s e in
  TransactionSim.requests s' = TransactionSim.requests s
  /\ TransactionSim.intervalRef s' = TransactionSim.intervalRef s
  /\ TransactionSim.isPaused s' = TransactionSim.isPaused s
  /\ TransactionSim.isMonitoring s' = TransactionSim.isMonitoring s.
Proof.
  intros Hpassive Hstale. unfold TransactionSim.step.
  destruct (TransactionSim.enabled s e); [|repeat split].
  destruct e as [response now|message manual| | | | | |]; try discriminate.
  - simpl. unfold TransactionSim.fetchTransactions_resumed.
    destruct (_ && _); repeat split.
  - repeat split.
  - simpl.
    destruct (TransactionSim.intervalRef s) as [[paused monitoring]|] eqn:Href;
      [|repeat split; assumption].
    unfold TransactionSim.fetchTransactions.
    rewrite (Hstale paused monitoring Href). simpl.
    repeat split; try reflexivity. exact Href.
Qed.

Lemma passive_run (es : list TransactionSim.event) (s : TransactionSim.screen) :
  forallb TransactionSim.passive es = true ->
  stale_interval s ->
  let s' := TransactionSim.run false s es in
  TransactionSim.requests s' = TransactionSim.requests s
  /\ TransactionSim.isPaused s' = TransactionSim.isPaused s
  /\ TransactionSim.isMonitoring s' = TransactionSim.isMonitoring s.
Proof.
  revert s. induction es as [|e es IH]; intros s Hes Hstale; [repeat split|].
  simpl in Hes. apply andb_prop in Hes. destruct Hes as [He Hes].
  destruct (passive_step s e He Hstale) as (Hrequests & Href & Hpaused & Hmon).
  cbv zeta in *. simpl.
  destruct (IH (TransactionSim.step false s e) Hes) as (Hrequests' & Hpaused' & Hmon').
  { intros paused monitoring Hsome. rewrite Href in Hsome. eauto. }
  cbv zeta in *. repeat split; congruence.
Qed.

(** X25.  Polling does not come back.  Resume, pressed while the screen is paused,
    sets an interval whose callback belongs to the render in which the
    screen was paused: the status reads Live, and no request is made, however
    often the interval fires.  Restart, pressed while the screen is stopped,
    makes its one forced request and then polls no more either. *)
Theorem sim_polling_does_not_resume (s : TransactionSim.screen)
    (es : list TransactionSim.event) :
  forallb TransactionSim.passive es = true ->
  (TransactionSim.isMonitoring s = true ->
   TransactionSim.isPaused s = true ->
   let s' :=
     TransactionSim.run false
       (TransactionSim.step false s TransactionSim.pause_pressed) es in
   TransactionSim.statusText s' = "Live"
   /\ TransactionSim.requests s' = TransactionSim.requests s)
  /\ (TransactionSim.isMonitoring s = false ->
      let s' :=
        TransactionSim.run false
          (TransactionSim.step false s TransactionSim.restart_pressed) es in
      TransactionSim.statusText s' = "Live"
      /\ TransactionSim.requests s' = S (TransactionSim.requests s)).
Proof.
  intros Hes. split.
  - intros Hmon Hpaused. cbv zeta.
    assert (TransactionSim.step false s TransactionSim.pause_pressed
            = TransactionSim.startAutoRefresh false true true false s) as ->.
    { unfold TransactionSim.step, TransactionSim.enabled,
        TransactionSim.dispatch, TransactionSim.togglePause.
      now rewrite Hmon, Hpaused. }
    destruct (passive_run es (TransactionSim.startAutoRefresh false true true false s) Hes)
      as (Hrequests & Hpaused' & Hmon').
    { intros paused monitoring Href. simpl in Href. now injection Href as <- <-. }
    cbv zeta in *. unfold TransactionSim.statusText.
    rewrite Hrequests, Hpaused', Hmon'. simpl. rewrite Hmon. split; reflexivity.
  - intros Hmon. cbv zeta.
    assert (TransactionSim.step false s TransactionSim.restart_pressed
            = TransactionSim.restartMonitoring false s) as ->.
    { unfold TransactionSim.step, TransactionSim.enabled, TransactionSim.dispatch.
      now rewrite Hmon. }
    destruct (passive_run es (TransactionSim.restartMonitoring false s) Hes)
      as (Hrequests & Hpaused' & Hmon').
    { intros paused monitoring Href.
      unfold TransactionSim.restartMonitoring in Href. simpl in Href.
      injection Href as <- <-. rewrite Hmon. apply orb_true_r. }
    cbv zeta in *. unfold TransactionSim.statusText.
    rewrite Hrequests, Hpaused', Hmon'.
    unfold TransactionSim.restartMonitoring, TransactionSim.startAutoRefresh,
      TransactionSim.fetchTransactions.
    rewrite Hmon. rewrite orb_true_r. simpl. split; reflexivity.
Qed.

Lemma fetchTransactions_interval (with_refs paused monitoring manual : bool)
    (s : TransactionSim.screen) :
  let s' := TransactionSim.fetchTransactions with_refs paused monitoring manual s in
  TransactionSim.intervalRef s' = TransactionSim.intervalRef s
  /\ TransactionSim.isPaused s' = TransactionSim.isPaused s.
Proof.
  unfold TransactionSim.fetchTransactions. cbv zeta.
  destruct ((if with_refs then _ else _) && negb manual); split; reflexivity.
Qed.

Lemma interval_follows_pause_step (with_refs : bool) (s : TransactionSim.screen)
    (e : TransactionSim.event) :
  interval_follows_pause s ->
  interval_follows_pause (TransactionSim.step with_refs s e).
Proof.
  unfold interval_follows_pause. intros Hs. unfold TransactionSim.step.
  destruct (TransactionSim.enabled s e); [|exact Hs].
  destruct e as [response now|message manual| | | | | |]; simpl.
  - unfold TransactionSim.fetchTransactions_resumed.
    destruct (_ && _); exact Hs.
  - exact Hs.
  - destruct (TransactionSim.intervalRef s) as [[paused monitoring]|] eqn:Href;
      [|rewrite Href; exact Hs].
    destruct (fetchTransactions_interval with_refs paused monitoring false s)
      as [-> ->].
    rewrite Href. exact Hs.
  - unfold TransactionSim.togglePause.
    destruct (TransactionSim.isPaused s) eqn:Hpaused.
    + unfold TransactionSim.startAutoRefresh. cbv zeta. simpl.
      match goal with
      | |- context [TransactionSim.fetchTransactions ?w ?p ?m ?f ?x] =>
          destruct (fetchTransactions_interval w p m f x) as [_ ->]
      end.
      simpl. split; discriminate.
    + simpl. split; reflexivity.
  - simpl. split; reflexivity.
  - unfold TransactionSim.restartMonitoring, TransactionSim.startAutoRefresh.
    cbv zeta. simpl.
    match goal with
    | |- context [TransactionSim.fetchTransactions ?w ?p ?m ?f ?x] =>
        destruct (fetchTransactions_interval w p m f x) as [_ ->]
    end.
    simpl. split; discriminate.
  - destruct (fetchTransactions_interval with_refs (TransactionSim.isPaused s)
                (TransactionSim.isMonitoring s) true s) as [-> ->].
    exact Hs.
  - unfold TransactionSim.handleManualRefresh.
    destruct (negb (TransactionSim.isMonitoring s)).
    + unfold TransactionSim.restartMonitoring, TransactionSim.startAutoRefresh.
      cbv zeta. simpl.
      match goal with
      | |- context [TransactionSim.fetchTransactions ?w ?p ?m ?f ?x] =>
          destruct (fetchTransactions_interval w p m f x) as [_ ->]
      end.
      simpl. split; discriminate.
    + destruct (fetchTransactions_interval with_refs (TransactionSim.isPaused s)
                  (TransactionSim.isMonitoring s) true s) as [-> ->].
      exact Hs.
Qed.

Lemma interval_follows_pause_run (with_refs : bool) (es : list TransactionSim.event) :
  interval_follows_pause
    (TransactionSim.run with_refs (TransactionSim.mounted with_refs) es).
Proof.
  induction es as [|e es IH] using rev_ind.
  - unfold interval_follows_pause. destruct with_refs; split; discriminate.
  - rewrite sim_run_snoc. apply interval_follows_pause_step, IH.
Qed.

(** X26.  In the version whose [fetchTransactions] tests the refs, polling follows
    the status shown: in every state the screen can reach, when the status
    reads Live the interval is set and each of its ticks makes a request;
    when it reads Paused or Stopped a tick makes none. *)
Theorem sim_refs_polling_follows_status (es : list TransactionSim.event) :
  let s := TransactionSim.run true (TransactionSim.mounted true) es in
  (TransactionSim.statusText s = "Live" ->
   TransactionSim.enabled s TransactionSim.tick = true
   /\ TransactionSim.requests (TransactionSim.step true s TransactionSim.tick)
      = S (TransactionSim.requests s))
  /\ (TransactionSim.statusText s <> "Live" ->
      TransactionSim.requests (TransactionSim.step true s TransactionSim.tick)
      = TransactionSim.requests s).
Proof.
  intros s. pose proof (interval_follows_pause_run true es) as Hinterval.
  fold s in Hinterval. unfold interval_follows_pause in Hinterval.
  unfold TransactionSim.statusText, TransactionSim.step. simpl.
  destruct (TransactionSim.isMonitoring s) eqn:Hmon;
    destruct (TransactionSim.isPaused s) eqn:Hpaused; simpl;
    destruct (TransactionSim.intervalRef s) as [[paused monitoring]|] eqn:Href;
    simpl; unfold TransactionSim.fetchTransactions; cbv zeta;
    rewrite ?Hmon, ?Hpaused; simpl;
    split; intros Hstatus; try discriminate; try reflexivity;
    try (split; reflexivity); try (now contradiction Hstatus).
  exfalso. destruct Hinterval as [Hnone _]. specialize (Hnone eq_refl).
  discriminate.
Qed.

(** * Further concrete runs *)

Lemma connected_status_text_witness :
  let h := st_hooks (run API_KEY initial_state start_events) in
  connectionStatus h = connected
  /\ reconnectAttempts h = 0
  /\ getStatusText (connectionStatus h) (reconnectAttempts h) = "Connected".
Proof.
  split; [reflexivity|].
  exact (connected_status_text API_KEY start_events eq_refl).
Defined.

Lemma balance_card_matches_history_witness :
  let h := st_hooks (run API_KEY initial_state start_events) in
  let lamports := JNum (inject_Z one_sol) in
  let top := mkRow (1%Z, 0) 1%Z (bare JUndefined) (Div lamports LAMPORTS_PER_SOL)
                   lamports in
  let v := mkView (Some ("#10b981", "Connected"))
                  (Some (Div lamports LAMPORTS_PER_SOL, lamports)) (Some [top]) in
  render (run API_KEY initial_state start_events) = Ret v
  /\ balance_card v = Some (row_balance top, row_lamports top)
  /\ row_lamports top = currentBalance h.
Proof.
  split; [reflexivity|].
  pose proof (balance_card_matches_history API_KEY start_events
                (mkView (Some ("#10b981", "Connected"))
                   (Some (Div (JNum (inject_Z one_sol)) LAMPORTS_PER_SOL,
                          JNum (inject_Z one_sol)))
                   (Some [mkRow (1%Z, 0) 1%Z (bare JUndefined)
                            (Div (JNum (inject_Z one_sol)) LAMPORTS_PER_SOL)
                            (JNum (inject_Z one_sol))]))
                (mkRow (1%Z, 0) 1%Z (bare JUndefined)
                   (Div (JNum (inject_Z one_sol)) LAMPORTS_PER_SOL)
                   (JNum (inject_Z one_sol)))
                [] eq_refl eq_refl) as (Hcard & Hlamports & _).
  split; [exact Hcard | exact Hlamports].
Defined.

Lemma render_breaks_without_lamports_witness :
  let s' := snd (onmessage (Parsed notification_without_lamports) 2%Z streaming) in
  get_prop (JObj [("owner", JStr SYSTEM_PROGRAM)]) "lamports" = Ret JUndefined
  /\ fst (onmessage (Parsed notification_without_lamports) 2%Z streaming) = Ret tt
  /\ BalanceHistory (balanceUpdates (st_hooks s')) = Throw TypeError
  /\ render s' = Throw TypeError.
Proof.
  split; [reflexivity|].
  pose proof (render_breaks_without_lamports notification_without_lamports
                JUndefined (JObj [("owner", JStr SYSTEM_PROGRAM)]) JUndefined
                (JNum (inject_Z 100)) 2%Z streaming
                eq_refl eq_refl eq_refl eq_refl eq_refl eq_refl eq_refl
                (or_introl eq_refl) eq_refl)
    as (Hret & _ & _ & Hhistory & Hrender).
  split; [exact Hret|]. split; [exact Hhistory | exact Hrender].
Defined.

Lemma only_onmessage_throws_witness :
  fst (step API_KEY (ws_onclose 0) (run API_KEY initial_state start_events))
  = Ret tt.
Proof.
  apply (only_onmessage_throws API_KEY start_events (ws_onclose 0)).
  intros ws data now. discriminate.
Defined.

Lemma open_sends_subscribe_witness :
  let s := run API_KEY initial_state connecting_events in
  socket s 0 = Some (mkWebSocket CONNECTING SYSTEM_PROGRAM 0 true)
  /\ exists publicKey,
       new_PublicKey SYSTEM_PROGRAM = Ret publicKey
       /\ List.length publicKey = 32
       /\ trace (st_world (exec API_KEY s (ws_onopen 0)))
          = trace (st_world s)
            ++ [eff_setInterval 0 60000%Z;
                eff_send 0 (accountSubscribe 1%Z publicKey)].
Proof.
  split; [reflexivity|].
  exact (open_sends_subscribe API_KEY connecting_events 0
           (mkWebSocket CONNECTING SYSTEM_PROGRAM 0 true) eq_refl eq_refl).
Defined.

Lemma unsubscribe_carries_confirmed_id_witness :
  let s1 := snd (onmessage (Parsed (confirmation 7)) 2%Z streaming) in
  wsRef (st_refs streaming) = Some 0
  /\ subscriptionIdRef (st_refs s1) = JNum (inject_Z 7)
  /\ trace (st_world (snd (handleStopStreaming s1)))
     = trace (st_world streaming)
       ++ [eff_send 0 (accountUnsubscribe 2 (JNum (inject_Z 7)))]
       ++ [eff_clearInterval 0] ++ [] ++ [eff_close 0].
Proof.
  split; [reflexivity|].
  pose proof (unsubscribe_carries_confirmed_id streaming 0
                (mkWebSocket OPEN SYSTEM_PROGRAM 0 true) (confirmation 7)
                (JNum (inject_Z 1)) (JNum (inject_Z 7)) 2%Z
                eq_refl eq_refl eq_refl eq_refl eq_refl eq_refl eq_refl)
    as (Hid & _ & Htrace).
  split; [exact Hid | exact Htrace].
Defined.

Lemma other_messages_ignored_witness :
  get_prop unsubscribe_answer "id" = Ret (JNum (inject_Z 2))
  /\ onmessage (Parsed unsubscribe_answer) 2%Z streaming = (Ret tt, streaming).
Proof.
  split; [reflexivity|].
  exact (other_messages_ignored unsubscribe_answer (JNum (inject_Z 2))
           (JBool true) JUndefined 2%Z streaming
           eq_refl eq_refl eq_refl eq_refl eq_refl).
Defined.

Lemma history_only_grows_witness :
  exists suffix,
    balanceUpdates (st_hooks (exec API_KEY streaming press_stop))
    = balanceUpdates (st_hooks streaming) ++ suffix
    /\ List.length suffix <= 1
    /\ (suffix <> [] -> exists ws data now, press_stop = ws_onmessage ws data now).
Proof.
  apply (history_only_grows API_KEY streaming press_stop).
  - discriminate.
  - intros lamports now. discriminate.
Defined.

Lemma no_reconnect_after_stop_witness :
  let s' := run API_KEY (snd (handleStopStreaming streaming)) [ws_onclose 0] in
  pendingBalance (st_world streaming) = None
  /\ List.length (sockets (st_world s')) = 1
  /\ List.length (timeouts (st_world s')) = 0
  /\ isIntentionalCloseRef (st_refs s') = true.
Proof.
  split; [reflexivity|].
  apply (no_reconnect_after_stop API_KEY streaming [ws_onclose 0] eq_refl).
  constructor; [discriminate | constructor].
Defined.

Lemma reconnect_inherits_witness :
  let s := run API_KEY streaming [ws_onclose 0] in
  nth_error (timeouts (st_world s)) 0 = Some (mkTimeout 0 Pending)
  /\ sockets (st_world (exec API_KEY s (timeout_fires 0)))
     = sockets (st_world s)
       ++ [mkWebSocket CONNECTING SYSTEM_PROGRAM 0 false].
Proof.
  split; [reflexivity|].
  apply (reconnect_inherits API_KEY ltac:(discriminate)
           (run API_KEY streaming [ws_onclose 0]) 0 (mkTimeout 0 Pending)
           eq_refl eq_refl eq_refl).
  discriminate.
Defined.

Lemma start_without_key_witness :
  let s := exec "" initial_state (onChangeText SYSTEM_PROGRAM) in
  let s' := exec "" s press_start in
  validateSolanaAddress (address (st_hooks s)) = true
  /\ trace (st_world s')
     = [eff_alert "Error" "EXPO_PUBLIC_HELIUS_API_KEY is not set in .env file"]
  /\ isLoading (st_hooks s') = false
  /\ sockets (st_world s') = []
  /\ pendingBalance (st_world s') = None.
Proof.
  split; [reflexivity|].
  exact (start_without_key ""
           (exec "" initial_state (onChangeText SYSTEM_PROGRAM))
           eq_refl eq_refl eq_refl eq_refl).
Defined.

Lemma valid_address_shape_witness :
  validateSolanaAddress SYSTEM_PROGRAM = true
  /\ 32 <= String.length SYSTEM_PROGRAM <= 44
  /\ forall c, In c (list_ascii_of_string SYSTEM_PROGRAM) ->
               index_of c ALPHABET <> None.
Proof.
  split; [reflexivity|].
  exact (valid_address_shape SYSTEM_PROGRAM eq_refl).
Defined.

Lemma abbreviate_shape_witness :
  String.length example_signature = 88
  /\ formatSignature example_signature = "5VERv8NM...diSZkQUW"
  /\ String.length (formatSignature example_signature) = 19
  /\ formatSignature "abc" = "abc...abc".
Proof.
  split; [reflexivity|].
  assert (0 < 8) as Hpositive by lia.
  pose proof (abbreviate_shape 8 example_signature Hpositive) as [Hlong _].
  pose proof (abbreviate_shape 8 "abc" Hpositive) as [_ Hshort].
  assert (2 * 8 <= String.length example_signature) as Hlength
    by (vm_compute; lia).
  destruct (Hlong Hlength) as (head & middle & tail & _ & _ & _ & _ & Hnineteen).
  split; [reflexivity|]. split; [exact Hnineteen|].
  apply Hshort. simpl. lia.
Defined.

Lemma history_error_answer_witness :
  let s' := TransactionHistory.fetchTransactions_resumed text_of error_answer
              TransactionHistory.initial in
  (forall text, text_of (JStr text) = text)
  /\ TransactionHistory.transactions s' = JArr []
  /\ TransactionHistory.hasSearched s' = false
  /\ TransactionHistory.calls s'
     = [TransactionHistory.alert "Error" "Invalid params"].
Proof.
  assert (forall text, text_of (JStr text) = text) as Htext by reflexivity.
  split; [exact Htext|].
  pose proof (history_error_answer text_of Htext TransactionHistory.initial
                error_answer
                (JObj [("code", JNum (inject_Z (-32602)));
                       ("message", JStr "Invalid params")])
                (JStr "Invalid params")
                eq_refl eq_refl eq_refl
                (or_intror (ex_intro _ "Invalid params" eq_refl)))
    as (Hlist & Hsearched & _ & _ & Hcalls).
  split; [exact Hlist|]. split; [exact Hsearched | exact Hcalls].
Defined.

Lemma health_badge_witness :
  NetworkHealth.health_body health_error_round = Ret error_answer
  /\ exists result,
       get_prop error_answer "result" = Ret result
       /\ (NetworkHealth.badge
             (NetworkHealth.health
                (NetworkHealth.fetchNetworkData_resumed API_KEY
                   health_error_round 5%Z (NetworkHealth.mounted 0%Z)))
           = "Healthy"
           <-> truthy result = false \/ result = JStr "ok").
Proof.
  split; [reflexivity|].
  exact (health_badge API_KEY health_error_round 5%Z (NetworkHealth.mounted 0%Z)
           error_answer
           (JStr "ok", JNum (inject_Z 250000000),
            JObj [("epoch", JNum (inject_Z 600))], JArr [],
            JObj [("solana-core", JStr "2.0.0")])
           eq_refl eq_refl).
Defined.

Lemma sim_rows_distinct_witness :
  TransactionSim.signatures
    (TransactionSim.transactions
       (TransactionSim.run true (TransactionSim.mounted true) two_batches))
  = ["c"; "a"; "b"]
  /\ NoDup (TransactionSim.signatures
              (TransactionSim.transactions
                 (TransactionSim.run true (TransactionSim.mounted true) two_batches))).
Proof.
  split; [reflexivity|].
  apply (sim_rows_distinct two_batches).
  intros response now [Hin|[Hin|[Hin|[]]]]; try discriminate;
    injection Hin as <- _;
    repeat constructor; simpl; intuition discriminate.
Defined.

Lemma sim_known_batch_ignored_witness :
  let s := TransactionSim.run true (TransactionSim.mounted true) two_batches in
  let s' := TransactionSim.fetchTransactions_resumed
              [transaction_of "b"; transaction_of "a"] 3%Z s in
  TransactionSim.transactions s' = TransactionSim.transactions s
  /\ TransactionSim.totalFetched s' = 3
  /\ TransactionSim.lastUpdateTime s' = Some 2%Z.
Proof.
  pose proof (sim_known_batch_ignored two_batches
                [transaction_of "b"; transaction_of "a"] 3%Z) as Hignored.
  cbv zeta in Hignored.
  destruct Hignored as (Hlist & Htotal & Htime & _).
  - intros tx [<-|[<-|[]]]; simpl; auto.
  - cbv zeta. split; [exact Hlist|]. split; [exact Htotal | exact Htime].
Defined.

Lemma sim_polling_does_not_resume_witness :
  let resumed :=
    TransactionSim.run false
      (TransactionSim.step false paused_screen TransactionSim.pause_pressed)
      three_ticks in
  TransactionSim.requests
    (TransactionSim.run false (TransactionSim.mounted false) three_ticks) = 4
  /\ TransactionSim.statusText paused_screen = "Paused"
  /\ TransactionSim.statusText resumed = "Live"
  /\ TransactionSim.requests resumed = 1.
Proof.
  split; [reflexivity|]. split; [reflexivity|].
  exact (proj1 (sim_polling_does_not_resume paused_screen three_ticks eq_refl)
           eq_refl eq_refl).
Defined.

Lemma first_stop_before_confirmation_witness :
  let ns := [(100%Z, account 1500000000, 2%Z); (101%Z, account 1200000000, 3%Z)] in
  let s1 := FirstVersion.exec API_KEY first_streaming press_stop in
  let s2 := FirstVersion.run API_KEY s1 (map (notification 0 7%Z) ns) in
  subscriptionIdRef (st_refs first_streaming) = JNull
  /\ trace (st_world s1) = trace (st_world first_streaming)
  /\ isStreaming (st_hooks s1) = false
  /\ balanceUpdates (st_hooks s2)
     = [seed_update one_sol 1%Z] ++ map update_of ns.
Proof.
  split; [reflexivity|].
  pose proof (first_stop_before_confirmation API_KEY first_streaming 0 7%Z
                [(100%Z, account 1500000000, 2%Z);
                 (101%Z, account 1200000000, 3%Z)]
                eq_refl eq_refl eq_refl eq_refl)
    as (Hworld & _ & Hstreaming & _ & _ & Hhistory & _).
  split; [now rewrite Hworld|]. split; [exact Hstreaming | exact Hhistory].
Defined.

Lemma first_drop_is_final_witness :
  let s' := FirstVersion.run API_KEY first_streaming [ws_onerror 0; ws_onclose 0] in
  pendingBalance (st_world first_streaming) = None
  /\ connectionStatus (st_hooks s') = disconnected
  /\ List.length (sockets (st_world s')) = 1
  /\ timeouts (st_world s') = []
  /\ isStreaming (st_hooks s') = true.
Proof.
  split; [reflexivity|]. split; [reflexivity|].
  assert (Forall (fun e => e <> press_start) [ws_onerror 0; ws_onclose 0])
    as Hstart by (repeat constructor; discriminate).
  assert (Forall (fun e => e <> press_stop) [ws_onerror 0; ws_onclose 0])
    as Hstop by (repeat constructor; discriminate).
  pose proof (first_drop_is_final API_KEY first_streaming
                [ws_onerror 0; ws_onclose 0] eq_refl Hstart)
    as (Hsockets & Htimeouts & _ & Hstreaming).
  split; [exact Hsockets|]. split; [exact Htimeouts|].
  exact (Hstreaming Hstop eq_refl).
Defined.

Lemma first_connection_failure_surfaced_witness :
  let s := FirstVersion.run API_KEY initial_state connecting_events in
  let s' := FirstVersion.exec API_KEY s (ws_onerror 0) in
  socket s 0 = Some (mkWebSocket CONNECTING SYSTEM_PROGRAM 0 true)
  /\ trace (st_world s')
     = [eff_getBalance SYSTEM_PROGRAM; eff_new_WebSocket 0;
        eff_alert "Error" "WebSocket connection failed"]
  /\ isLoading (st_hooks s') = false
  /\ isStreaming (st_hooks s') = false.
Proof.
  split; [reflexivity|].
  pose proof (first_connection_failure_surfaced API_KEY
                (FirstVersion.run API_KEY initial_state connecting_events) 0
                (mkWebSocket CONNECTING SYSTEM_PROGRAM 0 true)
                eq_refl eq_refl eq_refl)
    as (Htrace & Hloading & _ & Hstreaming & _).
  split; [exact Htrace|]. split; [exact Hloading | exact Hstreaming].
Defined.


(** The history component on three records: one whose [lamports] is an
    object with a [toLocaleString] that is no function, one whose slot is
    [0], one whose slot is an object. *)
Lemma balance_history_examples :
  let one := JNum (inject_Z one_sol) in
  let odd := JObj [("toLocaleString", JNum (inject_Z 1))] in
  let rows :=
    [mkRow (1%Z, 0) 1%Z (slot_text (JObj [])) (Div one LAMPORTS_PER_SOL) one] in
  BalanceHistory [mkBalanceUpdate 1%Z (Div odd LAMPORTS_PER_SOL) odd None]
  = Throw TypeError
  /\ BalanceHistory
       [mkBalanceUpdate 1%Z (Div one LAMPORTS_PER_SOL) one (Some (JNum (inject_Z 0)))]
     = Ret (Some [mkRow (1%Z, 0) 1%Z (bare (JNum (inject_Z 0)))
                        (Div one LAMPORTS_PER_SOL) one])
  /\ BalanceHistory
       [mkBalanceUpdate 1%Z (Div one LAMPORTS_PER_SOL) one (Some (JObj []))]
     = Ret (Some rows)
  /\ children_valid rows = false.
Proof. vm_compute. repeat split. Qed.
